(** * Orders service: transactional order fulfilment

    A shallow embedding of [src/orders/orders.service.ts] (class
    [OrdersService]) and of the request shapes of
    [src/orders/dto/create-order.dto.ts].

    The service methods are [async] functions whose effects are calls to a
    TypeORM query runner, a repository, a users service and a logger.  Each
    method is embedded as a program ([Prog]) over those calls, written in the
    order of the source's [await]s, with [try]/[catch]/[finally] as
    combinators.  The storage layer is given a meaning separately
    ([handle]): tables are lists of rows, a transaction is a list of pending
    writes over the committed tables, locked reads take row locks that are
    held until the transaction ends, and every awaited call of the query
    runner, its manager, the repository and the users service may fail with
    a storage fault chosen by a fault script.  Requests in flight
    together take their calls in any order ([step]); a locked read waits
    while another request holds the row.

    Integer columns ([id], [stock], [quantity]) are [Z].  Monetary values and
    the JavaScript numbers computed from them are kept abstract ([JsArith])
    and instantiated both with IEEE 754 binary64 numbers and with exact
    integers of minor currency units. *)

From Stdlib Require Import ZArith List String Bool Lia Floats Uint63 DecimalString.
Import ListNotations.
Local Open Scope Z_scope.
Set Warnings "-inexact-float".

(** ** JavaScript arithmetic on monetary values *)

(** [total += Number(product.price) * itemDto.quantity]: [money] is the value
    of a monetary column as the driver hands it over, [number] a JavaScript
    number, [Number] the conversion, [plus] and [times] the operators [+] and
    [*], [of_int] the number that an integer denotes. *)
Class JsArith : Type := {
  money : Type;
  number : Type;
  Number : money -> number;
  of_int : Z -> number;
  plus : number -> number -> number;
  times : number -> number -> number
}.


Definition float_of_Z (z : Z) : float :=
  if z <? 0 then PrimFloat.opp (PrimFloat.of_uint63 (Uint63.of_Z (- z)))
  else PrimFloat.of_uint63 (Uint63.of_Z z).

(** JavaScript's own numbers: IEEE 754 binary64. *)
Definition ieee754 : JsArith := {|
  money := float;
  number := float;
  Number := fun x => x;
  of_int := float_of_Z;
  plus := PrimFloat.add;
  times := PrimFloat.mul
|}.

(** Amounts as whole numbers of the minor currency unit. *)
Definition minor_units : JsArith := {|
  money := Z;
  number := Z;
  Number := fun x => x;
  of_int := fun z => z;
  plus := Z.add;
  times := Z.mul
|}.

(** ** Entities *)

(** [OrderStatus] of [order.entity]: the service names [PENDING] and
    [CANCELLED]; any further member of the enumeration is [OTHER] with its
    name. *)
Inductive OrderStatus : Type :=
| PENDING
| CANCELLED
| OTHER (label : string).

Definition status_eqb (a b : OrderStatus) : bool :=
  match a, b with
  | PENDING, PENDING => true
  | CANCELLED, CANCELLED => true
  | OTHER x, OTHER y => String.eqb x y
  | _, _ => false
  end.

Module User.
Record t : Type := mk { id : Z }.
End User.

Module Product.
Record t `{JsArith} : Type := mk {
  id : Z;
  name : string;
  price : money;
  stock : Z;
  isAvailable : bool
}.
Arguments mk {_} _ _ _ _ _.
End Product.

Module OrderItem.
Record t `{JsArith} : Type := mk {
  orderId : Z;
  productId : Z;
  quantity : Z;
  price : money
}.
Arguments mk {_} _ _ _ _.
End OrderItem.

Module Order.
Record t `{JsArith} : Type := mk {
  id : Z;
  userId : Z;
  total : number;
  status : OrderStatus;
  items : list OrderItem.t   (* the relation [items], filled in when loaded *)
}.
Arguments mk {_} _ _ _ _ _.
End Order.

(** Request bodies ([create-order.dto.ts]). *)
Module OrderItemDto.
Record t : Type := mk { productId : Z; quantity : Z }.
End OrderItemDto.

Module CreateOrderDto.
Record t : Type := mk { userId : Z; items : list OrderItemDto.t }.
End CreateOrderDto.

(** What the DTO layer checks before the service is called:
    [@ArrayMinSize(1)] on [items] and [@Min(1)] on every [quantity]. *)
Definition dto_valid (dto : CreateOrderDto.t) : bool :=
  negb (Nat.eqb (List.length (CreateOrderDto.items dto)) 0)
  && forallb (fun i => 1 <=? OrderItemDto.quantity i) (CreateOrderDto.items dto).

(** Assignments to one property of an entity. *)
Definition set_stock `{JsArith} (p : Product.t) (v : Z) : Product.t :=
  Product.mk (Product.id p) (Product.name p) (Product.price p) v (Product.isAvailable p).

Definition set_isAvailable `{JsArith} (p : Product.t) (v : bool) : Product.t :=
  Product.mk (Product.id p) (Product.name p) (Product.price p) (Product.stock p) v.

Definition set_total `{JsArith} (o : Order.t) (v : number) : Order.t :=
  Order.mk (Order.id o) (Order.userId o) v (Order.status o) (Order.items o).

Definition set_status `{JsArith} (o : Order.t) (v : OrderStatus) : Order.t :=
  Order.mk (Order.id o) (Order.userId o) (Order.total o) v (Order.items o).

Definition set_items `{JsArith} (o : Order.t) (v : list OrderItem.t) : Order.t :=
  Order.mk (Order.id o) (Order.userId o) (Order.total o) (Order.status o) v.

(** ** Exceptions *)

(** The three [HttpException]s the service throws, and [StorageError] for
    every error that is not an [HttpException] (a failed query, a lost
    connection, a lock wait timeout). *)
Inductive Exception : Type :=
| NotFoundException (message : string)
| BadRequestException (message : string)
| InternalServerErrorException (message : string)
| StorageError (message : string).

(** [e instanceof HttpException] *)
Definition instanceof_HttpException (e : Exception) : bool :=
  match e with
  | StorageError _ => false
  | _ => true
  end.

Definition is_NotFound (e : Exception) : bool :=
  match e with NotFoundException _ => true | _ => false end.

Definition is_BadRequest (e : Exception) : bool :=
  match e with BadRequestException _ => true | _ => false end.

Definition is_InternalServerError (e : Exception) : bool :=
  match e with InternalServerErrorException _ => true | _ => false end.

Definition exception_message (e : Exception) : string :=
  match e with
  | NotFoundException m | BadRequestException m
  | InternalServerErrorException m | StorageError m => m
  end.

(** [`${n}`] for an integer [n]: its decimal digits.  This is what the
    template literal prints for the values of an integer column (JavaScript
    switches to exponent notation from 1e21 on, beyond any such value). *)
Definition string_of_Z (z : Z) : string := NilZero.string_of_int (Z.to_int z).

(** ** Tables *)

Record DB `{JsArith} : Type := mkDB {
  users : list User.t;
  products : list Product.t;
  orders : list Order.t;          (* rows of [order]; [items] is empty in a row *)
  order_items : list OrderItem.t  (* rows of [order_item], oldest first *)
}.
Arguments mkDB {_} _ _ _ _.

(** [findOne({ where: { id } })] on a table. *)
Definition find_by {T} (key : T -> Z) (k : Z) (rows : list T) : option T :=
  find (fun r => key r =? k) rows.

(** [save] of a row with a primary key: the row with that key is replaced,
    a row with a new key is added. *)
Definition upsert {T} (key : T -> Z) (r : T) (rows : list T) : list T :=
  if existsb (fun x => key x =? key r) rows
  then map (fun x => if key x =? key r then r else x) rows
  else rows ++ [r].

Definition max_id {T} (key : T -> Z) (rows : list T) : Z :=
  fold_right (fun r m => Z.max (key r) m) 0 rows.

(** The rows of [order_item] that belong to an order: its relation [items].
    The service passes no [order] option, so the order of the rows in an
    answer is the storage layer's own; here it is that of the table. *)
Definition items_of `{JsArith} (db : DB) (id : Z) : list OrderItem.t :=
  filter (fun it => OrderItem.orderId it =? id) (order_items db).

(** [findOne(Order, { where: { id }, relations: [..., 'items', ...] })].
    Of the relations the order carries its items; [user] and [items.product]
    are not part of [Order.t]. *)
Definition load_order `{JsArith} (db : DB) (id : Z) : option Order.t :=
  match find_by Order.id id (orders db) with
  | Some o => Some (set_items o (items_of db id))
  | None => None
  end.

(** A write of a transaction. *)
Inductive Write `{JsArith} : Type :=
| W_order (o : Order.t)
| W_items (l : list OrderItem.t)
| W_products (l : list Product.t).

Definition apply_write `{JsArith} (db : DB) (w : Write) : DB :=
  match w with
  | W_order o =>
      mkDB (users db) (products db)
           (upsert Order.id (set_items o []) (orders db)) (order_items db)
  | W_items l =>
      mkDB (users db) (products db) (orders db) (order_items db ++ l)
  | W_products l =>
      mkDB (users db)
           (fold_left (fun rows p => upsert Product.id p rows) l (products db))
           (orders db) (order_items db)
  end.

Definition apply_writes `{JsArith} (db : DB) (ws : list Write) : DB :=
  fold_left apply_write ws db.

(** ** The calls a service method makes *)

(** A row that a locked read names. *)
Inductive RowRef : Type :=
| ProductRow (id : Z)
| OrderRow (id : Z).

Definition RowRef_eqb (a b : RowRef) : bool :=
  match a, b with
  | ProductRow x, ProductRow y => x =? y
  | OrderRow x, OrderRow y => x =? y
  | _, _ => false
  end.

(** Every effect of [OrdersService], typed by what the call answers.
    [manager_*] are calls on [queryRunner.manager], [repository_*] on
    [this.ordersRepository]; the others are the query runner's own, the users
    service's lookup and [this.logger.error]. *)
Inductive Call `{JsArith} : Type -> Type :=
| connect : Call unit
| startTransaction : Call unit
| commitTransaction : Call unit
| rollbackTransaction : Call unit
| release : Call unit
  (* manager.save(Order, manager.create(Order, { userId, total, status })) *)
| manager_insert_Order (userId : Z) (total : number) (status : OrderStatus) : Call Order.t
  (* manager.findOne(Product, { where: { id }, lock: { mode: 'pessimistic_write' } }) *)
| manager_findOne_Product_locked (id : Z) : Call (option Product.t)
  (* manager.save(OrderItem, orderItems) *)
| manager_save_OrderItems (l : list OrderItem.t) : Call unit
  (* manager.save(Product, products) and manager.save(Product, product) *)
| manager_save_Products (l : list Product.t) : Call unit
  (* manager.save(Order, order) of an order that has its id *)
| manager_save_Order (o : Order.t) : Call Order.t
  (* manager.findOne(Order, { where: { id }, lock: { mode: 'pessimistic_write' } }) *)
| manager_findOne_Order_locked (id : Z) : Call (option Order.t)
  (* manager.findOne(Order, { where: { id }, relations: ['items', 'items.product'] }) *)
| manager_findOne_Order_items (id : Z) : Call (option Order.t)
  (* ordersRepository.findOne({ where: { id }, relations: [...] }) *)
| repository_findOne (id : Z) : Call (option Order.t)
  (* ordersRepository.find({ where: { userId }? , relations: [...] }) *)
| repository_find (userId : option Z) : Call (list Order.t)
  (* ordersRepository.save(order) *)
| repository_save (o : Order.t) : Call Order.t
  (* the row of [user] that the users service looks up *)
| users_lookup (id : Z) : Call (option User.t)
  (* this.logger.error({ message, error }, stack) *)
| logger_error (message error : string) : Call unit.

(** ** Programs *)

(** A method body: it returns, throws, or makes a call and goes on with the
    call's answer, which is a value or the exception the [await] raises. *)
Inductive Prog `{JsArith} (A : Type) : Type :=
| Ret (a : A)
| Throw (e : Exception)
| Vis {R : Type} (c : Call R) (k : Exception + R -> Prog A).

Arguments Ret {_ A} a.
Arguments Throw {_ A} e.
Arguments Vis {_ A R} c k.

Fixpoint bind `{JsArith} {A B} (p : Prog A) (f : A -> Prog B) : Prog B :=
  match p with
  | Ret a => f a
  | Throw e => Throw e
  | Vis c k => Vis c (fun r => bind (k r) f)
  end.

(** [try { p } catch (e) { h e }] *)
Fixpoint try_catch `{JsArith} {A} (p : Prog A) (h : Exception -> Prog A) : Prog A :=
  match p with
  | Ret a => Ret a
  | Throw e => h e
  | Vis c k => Vis c (fun r => try_catch (k r) h)
  end.

(** [try { p } finally { f }] *)
Definition try_finally `{JsArith} {A} (p : Prog A) (f : Prog unit) : Prog A :=
  bind (try_catch p (fun e => bind f (fun _ => Throw e)))
       (fun a => bind f (fun _ => Ret a)).

(** [await c] *)
Definition call `{JsArith} {R} (c : Call R) : Prog R :=
  Vis c (fun r => match r with inl e => Throw e | inr v => Ret v end).

Declare Scope prog_scope.
Delimit Scope prog_scope with prog.
Notation "x <- p ;; q" := (bind p (fun x => q))
  (at level 61, p at next level, right associativity) : prog_scope.
Notation "p ;; q" := (bind p (fun _ => q))
  (at level 61, right associativity) : prog_scope.
Local Open Scope prog_scope.

(** ** The service *)

(** [updatedProducts], a JavaScript [Map<number, Product>]: entries in
    insertion order, [set] on a present key keeps the entry's place. *)
Definition Map_get {V} (k : Z) (m : list (Z * V)) : option V :=
  match find (fun e => fst e =? k) m with
  | Some e => Some (snd e)
  | None => None
  end.

Definition Map_set {V} (k : Z) (v : V) (m : list (Z * V)) : list (Z * V) :=
  upsert fst (k, v) m.

Definition Map_values {V} (m : list (Z * V)) : list V := map snd m.

(** Modelled from the spec: [UsersService.findOne] ([users.service] is not
    part of the sources); the user-lookup capability answers the user or fails
    with NotFound. *)
Definition usersService_findOne `{JsArith} (id : Z) : Prog User.t :=
  user <- call (users_lookup id) ;;
  match user with
  | Some u => Ret u
  | None => Throw (NotFoundException ("User #" ++ string_of_Z id ++ " not found"))
  end.

Definition findAll `{JsArith} : Prog (list Order.t) :=
  call (repository_find None).

Definition findOne `{JsArith} (id : Z) : Prog Order.t :=
  order <- call (repository_findOne id) ;;
  match order with
  | None => Throw (NotFoundException ("Order #" ++ string_of_Z id ++ " not found"))
  | Some o => Ret o
  end.

Definition findByUser `{JsArith} (userId : Z) : Prog (list Order.t) :=
  call (repository_find (Some userId)).

(** The variables the loop of [create] updates. *)
Record LoopVars `{JsArith} : Type := mkVars {
  orderItems : list OrderItem.t;
  updatedProducts : list (Z * Product.t);
  total : number
}.
Arguments mkVars {_} _ _ _.

(** [e] thrown or [a] computed, as a program. *)
Definition lift `{JsArith} {A} (r : Exception + A) : Prog A :=
  match r with
  | inl e => Throw e
  | inr a => Ret a
  end.

(** [updatedProducts.get(id) || (await manager.findOne(Product, ...))] *)
Definition lookup_product `{JsArith} (vars : LoopVars) (id : Z) : Prog (option Product.t) :=
  match Map_get id (updatedProducts vars) with
  | Some p => Ret (Some p)
  | None => call (manager_findOne_Product_locked id)
  end.

(** The rest of one turn of the loop, which awaits nothing: the three checks,
    then the new item, the total and the product's new stock. *)
Definition reserve_line `{JsArith} (savedOrder : Order.t) (vars : LoopVars)
    (itemDto : OrderItemDto.t) (product : option Product.t) : Exception + LoopVars :=
  match product with
  | None =>
      inl (NotFoundException
             ("Product #" ++ string_of_Z (OrderItemDto.productId itemDto) ++ " not found"))
  | Some product =>
      if negb (Product.isAvailable product) then
        inl (BadRequestException
               ("Product " ++ Product.name product ++ " is not available"))
      else if Product.stock product <? OrderItemDto.quantity itemDto then
        inl (BadRequestException ("Not enough stock for " ++ Product.name product))
      else
        let item :=
          OrderItem.mk (Order.id savedOrder) (Product.id product)
                       (OrderItemDto.quantity itemDto) (Product.price product) in
        let total' :=
          plus (total vars)
               (times (Number (Product.price product))
                      (of_int (OrderItemDto.quantity itemDto))) in
        let product := set_stock product (Product.stock product - OrderItemDto.quantity itemDto) in
        let product := set_isAvailable product (Product.stock product >? 0) in
        inr (mkVars (orderItems vars ++ [item])
                    (Map_set (Product.id product) product (updatedProducts vars))
                    total')
  end.

(** One turn of [for (const itemDto of createOrderDto.items)]. *)
Definition create_line `{JsArith} (savedOrder : Order.t) (vars : LoopVars)
    (itemDto : OrderItemDto.t) : Prog LoopVars :=
  product <- lookup_product vars (OrderItemDto.productId itemDto) ;;
  lift (reserve_line savedOrder vars itemDto product).

Fixpoint create_lines `{JsArith} (savedOrder : Order.t) (items : list OrderItemDto.t)
    (vars : LoopVars) : Prog LoopVars :=
  match items with
  | [] => Ret vars
  | itemDto :: rest =>
      vars' <- create_line savedOrder vars itemDto ;;
      create_lines savedOrder rest vars'
  end.

(** The [try] block of [create] up to [commitTransaction]; its value is
    [savedOrder.id]. *)
Definition create_transaction `{JsArith} (createOrderDto : CreateOrderDto.t) : Prog Z :=
  user <- usersService_findOne (CreateOrderDto.userId createOrderDto) ;;
  savedOrder <- call (manager_insert_Order (User.id user) (of_int 0) PENDING) ;;
  vars <- create_lines savedOrder (CreateOrderDto.items createOrderDto)
                       (mkVars [] [] (of_int 0)) ;;
  call (manager_save_OrderItems (orderItems vars)) ;;
  call (manager_save_Products (Map_values (updatedProducts vars))) ;;
  let savedOrder := set_total savedOrder (total vars) in
  call (manager_save_Order savedOrder) ;;
  call commitTransaction ;;
  Ret (Order.id savedOrder).

(** [create]: [return this.findOne(savedOrder.id)] hands the promise of
    [findOne] back without awaiting it, so [catch] does not see its rejection:
    the read runs after the transaction and its exception goes to the caller
    as it is. *)
Definition create `{JsArith} (createOrderDto : CreateOrderDto.t) : Prog Order.t :=
  call connect ;;
  call startTransaction ;;
  id <- try_finally
          (try_catch (create_transaction createOrderDto)
                     (fun e => call rollbackTransaction ;; Throw e))
          (call release) ;;
  findOne id.

(** [for (const item of order.items)] of [cancel]. *)
Fixpoint cancel_items `{JsArith} (items : list OrderItem.t) : Prog unit :=
  match items with
  | [] => Ret tt
  | item :: rest =>
      product <- call (manager_findOne_Product_locked (OrderItem.productId item)) ;;
      match product with
      | None => cancel_items rest
      | Some product =>
          let product := set_stock product (Product.stock product + OrderItem.quantity item) in
          let product := set_isAvailable product true in
          call (manager_save_Products [product]) ;;
          cancel_items rest
      end
  end.

(** The [try] block of [cancel]. *)
Definition cancel_transaction `{JsArith} (id : Z) : Prog Order.t :=
  call (manager_findOne_Order_locked id) ;;
  order <- call (manager_findOne_Order_items id) ;;
  match order with
  | None => Throw (NotFoundException ("Order #" ++ string_of_Z id ++ " not found"))
  | Some order =>
      if negb (status_eqb (Order.status order) PENDING) then
        Throw (BadRequestException "Only pending orders can be cancelled")
      else
        cancel_items (Order.items order) ;;
        let order := set_status order CANCELLED in
        savedOrder <- call (manager_save_Order order) ;;
        call commitTransaction ;;
        Ret savedOrder
  end.

Definition cancel `{JsArith} (id : Z) : Prog Order.t :=
  call connect ;;
  call startTransaction ;;
  try_finally
    (try_catch (cancel_transaction id)
       (fun e =>
          call rollbackTransaction ;;
          call (logger_error "Failed to cancel order" (exception_message e)) ;;
          if instanceof_HttpException e then Throw e
          else Throw (InternalServerErrorException "Failed to cancel order")))
    (call release).

Definition updateStatus `{JsArith} (id : Z) (status : OrderStatus) : Prog Order.t :=
  if status_eqb status CANCELLED then cancel id
  else
    order <- findOne id ;;
    if status_eqb (Order.status order) CANCELLED then
      Throw (BadRequestException "Cannot update a cancelled order")
    else
      call (repository_save (set_status order status)).

(** ** The storage layer *)

(** What all requests share: the committed tables, the generator of order
    ids (never rolled back), the row locks with the transaction that holds
    each, and the logger's output. *)
Record Shared `{JsArith} : Type := mkShared {
  tables : DB;
  order_seq : Z;
  locks : list (RowRef * nat);
  log : list (string * string)
}.
Arguments mkShared {_} _ _ _ _.

(** What one request owns: the writes of its open transaction ([None] when
    none is open), the faults still to come (one flag per awaited call of the
    storage layer, from [connect] to [release], [true] for a call that fails;
    after the script, none fails), and the locked reads it has issued, oldest
    first. *)
Record Local `{JsArith} : Type := mkLocal {
  writes : option (list Write);
  faults : list bool;
  reads : list RowRef
}.
Arguments mkLocal {_} _ _ _.

(** The tables as the request's query runner sees them. *)
Definition view `{JsArith} (sh : Shared) (lo : Local) : DB :=
  match writes lo with
  | Some ws => apply_writes (tables sh) ws
  | None => tables sh
  end.

Definition set_tables `{JsArith} (sh : Shared) (db : DB) : Shared :=
  mkShared db (order_seq sh) (locks sh) (log sh).

Definition release_locks `{JsArith} (tid : nat) (sh : Shared) : Shared :=
  mkShared (tables sh) (order_seq sh)
           (filter (fun l => negb (Nat.eqb (snd l) tid)) (locks sh)) (log sh).

Definition held_by_other (tid : nat) (r : RowRef) (ls : list (RowRef * nat)) : bool :=
  existsb (fun l => RowRef_eqb (fst l) r && negb (Nat.eqb (snd l) tid)) ls.

Definition acquire `{JsArith} (tid : nat) (r : RowRef) (sh : Shared) : Shared :=
  if existsb (fun l => RowRef_eqb (fst l) r) (locks sh) then sh
  else mkShared (tables sh) (order_seq sh) (locks sh ++ [(r, tid)]) (log sh).

(** A write through the query runner's manager joins the open transaction;
    with none open it is committed at once, as a repository's write is. *)
Definition write `{JsArith} (w : Write) (sh : Shared) (lo : Local) : Shared * Local :=
  match writes lo with
  | Some ws => (sh, mkLocal (Some (ws ++ [w])) (faults lo) (reads lo))
  | None => (set_tables sh (apply_write (tables sh) w), lo)
  end.

Definition note_read `{JsArith} (r : RowRef) (lo : Local) : Local :=
  mkLocal (writes lo) (faults lo) (reads lo ++ [r]).

Definition set_writes `{JsArith} (lo : Local) (ws : option (list Write)) : Local :=
  mkLocal ws (faults lo) (reads lo).

(** The fault script moves on by one flag. *)
Definition tick `{JsArith} (lo : Local) : Local :=
  mkLocal (writes lo) (tl (faults lo)) (reads lo).

Definition Reply `{JsArith} (R : Type) : Type := ((Exception + R) * Shared * Local)%type.

(** A call of the storage layer: it fails, and does nothing, when the next
    flag of the fault script says so. *)
Definition storage `{JsArith} {R} (sh : Shared) (lo : Local)
    (k : Local -> Reply R) : Reply R :=
  if hd false (faults lo)
  then (inl (StorageError "storage fault"), sh, tick lo)
  else k (tick lo).

Definition new_order_id `{JsArith} (sh : Shared) (lo : Local) : Z :=
  Z.max (order_seq sh) (1 + max_id Order.id (orders (view sh lo))).

(** The meaning of a call made by request [tid].  Every call but
    [logger_error], which the service does not await, may fail.  A commit
    that fails leaves the transaction open, for the [catch] block to roll back.
    A rollback that fails is answered with the fault, and the transaction is
    lost with its connection: the database drops its writes and frees its
    locks, as it does for a rollback that succeeds.  [repository_find] and
    [repository_findOne] answer the committed rows, in table order. *)
Definition handle `{JsArith} (tid : nat) {R} (c : Call R) (sh : Shared) (lo : Local)
    : Reply R :=
  match c in Call R return Reply R with
  | connect => storage sh lo (fun lo => (inr tt, sh, lo))
  | startTransaction => storage sh lo (fun lo => (inr tt, sh, set_writes lo (Some [])))
  | commitTransaction =>
      storage sh lo (fun lo =>
        (inr tt, release_locks tid (set_tables sh (view sh lo)), set_writes lo None))
  | rollbackTransaction =>
      ((if hd false (faults lo) then inl (StorageError "storage fault") else inr tt),
       release_locks tid sh, set_writes (tick lo) None)
  | release => storage sh lo (fun lo => (inr tt, sh, lo))
  | manager_insert_Order userId total status =>
      storage sh lo (fun lo =>
        let id := new_order_id sh lo in
        let o := Order.mk id userId total status [] in
        let (sh', lo') := write (W_order o) sh lo in
        (inr o, mkShared (tables sh') (id + 1) (locks sh') (log sh'), lo'))
  | manager_findOne_Product_locked id =>
      storage sh lo (fun lo =>
        match find_by Product.id id (products (view sh lo)) with
        | Some p => (inr (Some p), acquire tid (ProductRow id) sh, note_read (ProductRow id) lo)
        | None => (inr None, sh, note_read (ProductRow id) lo)
        end)
  | manager_save_OrderItems l =>
      storage sh lo (fun lo =>
        let (sh', lo') := write (W_items l) sh lo in (inr tt, sh', lo'))
  | manager_save_Products l =>
      storage sh lo (fun lo =>
        let (sh', lo') := write (W_products l) sh lo in (inr tt, sh', lo'))
  | manager_save_Order o =>
      storage sh lo (fun lo =>
        let (sh', lo') := write (W_order o) sh lo in (inr o, sh', lo'))
  | manager_findOne_Order_locked id =>
      storage sh lo (fun lo =>
        match find_by Order.id id (orders (view sh lo)) with
        | Some o => (inr (Some o), acquire tid (OrderRow id) sh, note_read (OrderRow id) lo)
        | None => (inr None, sh, note_read (OrderRow id) lo)
        end)
  | manager_findOne_Order_items id =>
      storage sh lo (fun lo => (inr (load_order (view sh lo) id), sh, lo))
  | repository_findOne id =>
      storage sh lo (fun lo => (inr (load_order (tables sh) id), sh, lo))
  | repository_find userId =>
      storage sh lo (fun lo =>
        (inr (map (fun o => set_items o (items_of (tables sh) (Order.id o)))
                  (filter (fun o => match userId with
                                    | Some u => Order.userId o =? u
                                    | None => true
                                    end)
                          (orders (tables sh)))),
         sh, lo))
  | repository_save o =>
      storage sh lo (fun lo => (inr o, set_tables sh (apply_write (tables sh) (W_order o)), lo))
  | users_lookup id =>
      storage sh lo (fun lo => (inr (find_by User.id id (users (tables sh))), sh, lo))
  | logger_error message error =>
      (inr tt, mkShared (tables sh) (order_seq sh) (locks sh) (log sh ++ [(message, error)]), lo)
  end.

(** A locked read waits while another transaction holds the row. *)
Definition blocked `{JsArith} (tid : nat) {R} (c : Call R) (sh : Shared) : bool :=
  match c with
  | manager_findOne_Product_locked id => held_by_other tid (ProductRow id) (locks sh)
  | manager_findOne_Order_locked id => held_by_other tid (OrderRow id) (locks sh)
  | _ => false
  end.

(** One request running alone, to its end. *)
Fixpoint run `{JsArith} {A} (tid : nat) (p : Prog A) (sh : Shared) (lo : Local)
    : Reply A :=
  match p with
  | Ret a => (inr a, sh, lo)
  | Throw e => (inl e, sh, lo)
  | Vis c k =>
      match handle tid c sh lo with
      | (r, sh', lo') => run tid (k r) sh' lo'
      end
  end.

(** A request starts with no transaction open and no read issued. *)
Definition fresh `{JsArith} (fs : list bool) : Local := mkLocal None fs [].

Definition exec `{JsArith} {A} (p : Prog A) (fs : list bool) (sh : Shared)
    : (Exception + A) * Shared :=
  match run 0%nat p sh (fresh fs) with
  | (r, sh', _) => (r, sh')
  end.

Definition exec_reads `{JsArith} {A} (p : Prog A) (fs : list bool) (sh : Shared)
    : list RowRef :=
  match run 0%nat p sh (fresh fs) with
  | (_, _, lo') => reads lo'
  end.

(** * What the methods compute *)

(** The functions of this part take no step of their own: they say, over the
    tables alone, what a method's loop or transaction comes to, and the
    lemmas below relate each to the run of the method. *)

(** ** Order creation *)

(** [updatedProducts.get(id) || findOne(...)] with the product rows [P] that
    the open transaction sees: the in-transaction value of a product. *)
Definition in_transaction `{JsArith} (P : list Product.t) (vars : LoopVars) (id : Z)
    : option Product.t :=
  match Map_get id (updatedProducts vars) with
  | Some p => Some p
  | None => find_by Product.id id P
  end.

(** The loop of [create] when no read fails. *)
Fixpoint reserve_lines `{JsArith} (P : list Product.t) (savedOrder : Order.t)
    (items : list OrderItemDto.t) (vars : LoopVars) : Exception + LoopVars :=
  match items with
  | [] => inr vars
  | itemDto :: rest =>
      match reserve_line savedOrder vars itemDto
              (in_transaction P vars (OrderItemDto.productId itemDto)) with
      | inl e => inl e
      | inr vars' => reserve_lines P savedOrder rest vars'
      end
  end.

(** The loop variables before the first line. *)
Definition vars0 `{JsArith} : LoopVars := mkVars [] [] (of_int 0).

(** The writes of a [create] that gets to its commit. *)
Definition create_writes `{JsArith} (o : Order.t) (vars : LoopVars) : list Write :=
  [W_order o; W_items (orderItems vars);
   W_products (Map_values (updatedProducts vars));
   W_order (set_total o (total vars))].

(** What [create]'s transaction comes to when no call fails: the exception
    it throws and the tables as they were, or the new order's id and the
    tables it commits. *)
Definition create_outcome `{JsArith} (sh : Shared) (dto : CreateOrderDto.t)
    : (Exception + Z) * DB :=
  match find_by User.id (CreateOrderDto.userId dto) (users (tables sh)) with
  | None =>
      (inl (NotFoundException
              ("User #" ++ string_of_Z (CreateOrderDto.userId dto) ++ " not found")),
       tables sh)
  | Some user =>
      let id := Z.max (order_seq sh) (1 + max_id Order.id (orders (tables sh))) in
      let o := Order.mk id (User.id user) (of_int 0) PENDING [] in
      match reserve_lines (products (tables sh)) o (CreateOrderDto.items dto) vars0 with
      | inl e => (inl e, tables sh)
      | inr vars => (inr id, apply_writes (tables sh) (create_writes o vars))
      end
  end.


(** The next two calls succeed: after the [try] block these are
    [rollbackTransaction] and [release]. *)
Definition next_two_pass (fs : list bool) : bool :=
  negb (hd false fs) && negb (hd false (tl fs)).

(** The quantity a request asks of product [k], over all its lines. *)
Definition reserved (k : Z) (lines : list OrderItemDto.t) : Z :=
  fold_right (fun l acc => if OrderItemDto.productId l =? k
                           then OrderItemDto.quantity l + acc else acc) 0 lines.

Definition mentions (k : Z) (lines : list OrderItemDto.t) : bool :=
  existsb (fun l => OrderItemDto.productId l =? k) lines.

(** A product row after [r] units were taken from it. *)
Definition after_reserve `{JsArith} (p : Product.t) (r : Z) : Product.t :=
  Product.mk (Product.id p) (Product.name p) (Product.price p)
             (Product.stock p - r) (Product.stock p - r >? 0).

(** A product row once the lines of a request are reserved. *)
Definition reserve_row `{JsArith} (lines : list OrderItemDto.t) (k : Z) (p : Product.t)
    : Product.t :=
  if mentions k lines then after_reserve p (reserved k lines) else p.

(** *** The loop, in the words of the specification *)

(** Step 4 of order creation in the specification: each line is checked
    against the in-transaction value of its product, "possibly already
    decremented by earlier lines in this request": the product's row once the
    lines [pre] that come before the line are reserved. *)
Definition in_request `{JsArith} (P : list Product.t) (pre : list OrderItemDto.t) (k : Z)
    : option Product.t :=
  option_map (reserve_row pre k) (find_by Product.id k P).

(** Why the line [l] is refused after the lines [pre], if it is: "NotFound
    if the product does not exist, InvalidRequest if isAvailable is false,
    InvalidRequest if stock < requested quantity". *)
Definition refusal `{JsArith} (P : list Product.t) (pre : list OrderItemDto.t)
    (l : OrderItemDto.t) : option Exception :=
  match in_request P pre (OrderItemDto.productId l) with
  | None =>
      Some (NotFoundException
              ("Product #" ++ string_of_Z (OrderItemDto.productId l) ++ " not found"))
  | Some p =>
      if negb (Product.isAvailable p) then
        Some (BadRequestException ("Product " ++ Product.name p ++ " is not available"))
      else if Product.stock p <? OrderItemDto.quantity l then
        Some (BadRequestException ("Not enough stock for " ++ Product.name p))
      else None
  end.

(** The refusal of the first line that is refused, "in the order given by
    the caller". *)
Fixpoint first_refusal `{JsArith} (P : list Product.t) (pre lines : list OrderItemDto.t)
    : option Exception :=
  match lines with
  | [] => None
  | l :: rest =>
      match refusal P pre l with
      | Some e => Some e
      | None => first_refusal P (pre ++ [l]) rest
      end
  end.

(** "Each distinct product is locked and read at most once": the product
    rows that the lines name, each at its first mention. *)
Fixpoint first_mentions (pre lines : list OrderItemDto.t) : list RowRef :=
  match lines with
  | [] => []
  | l :: rest =>
      (if mentions (OrderItemDto.productId l) pre then []
       else [ProductRow (OrderItemDto.productId l)])
      ++ first_mentions (pre ++ [l]) rest
  end.

(** I2 for one row: the stock is not negative and [isAvailable] says whether
    it is positive. *)
Definition product_ok `{JsArith} (p : Product.t) : Prop :=
  0 <= Product.stock p /\ Product.isAvailable p = (Product.stock p >? 0).

Definition product_okb `{JsArith} (p : Product.t) : bool :=
  (0 <=? Product.stock p) && Bool.eqb (Product.isAvailable p) (Product.stock p >? 0).

(** [total += Number(price) * quantity] for one item. *)
Definition add_item `{JsArith} (t : number) (it : OrderItem.t) : number :=
  plus t (times (Number (OrderItem.price it)) (of_int (OrderItem.quantity it))).

(** The sum of [price * quantity] over items, added up as [create] does:
    from zero, in the items' order. *)
Definition sum_items `{JsArith} (l : list OrderItem.t) : number :=
  fold_left add_item l (of_int 0).

(** The item a line of the request becomes: the line's product and quantity,
    at the price of the product's row. *)
Definition item_of_line `{JsArith} (P : list Product.t) (oid : Z)
    (l : OrderItemDto.t) (it : OrderItem.t) : Prop :=
  OrderItem.orderId it = oid /\
  OrderItem.productId it = OrderItemDto.productId l /\
  OrderItem.quantity it = OrderItemDto.quantity l /\
  exists p, find_by Product.id (OrderItemDto.productId l) P = Some p /\
            OrderItem.price it = Product.price p.

(** What the cache of [create] holds after the lines [done]. *)
Definition cache_inv `{JsArith} (P : list Product.t) (done : list OrderItemDto.t)
    (cache : list (Z * Product.t)) : Prop :=
  NoDup (map fst cache) /\
  (forall e, In e cache -> Product.id (snd e) = fst e /\ 0 <= Product.stock (snd e)) /\
  (forall k, Map_get k cache =
             if mentions k done
             then option_map (fun p => after_reserve p (reserved k done))
                             (find_by Product.id k P)
             else None).

(** The cache holds the products that the lines so far name, each under its
    own id. *)
Definition cached_as `{JsArith} (pre : list OrderItemDto.t) (cache : list (Z * Product.t))
    : Prop :=
  (forall k, Map_get k cache = None <-> mentions k pre = false) /\
  (forall k p, Map_get k cache = Some p -> Product.id p = k).

(** The locked reads issued so far are of cached products, each once. *)
Definition reads_inv `{JsArith} (cache : list (Z * Product.t)) (rs : list RowRef) : Prop :=
  NoDup rs /\
  forall r, In r rs -> exists k, r = ProductRow k /\ Map_get k cache <> None.

(** Every row of [order_item] names a row of [order] (the foreign key). *)
Definition fk_ok `{JsArith} (db : DB) : bool :=
  forallb (fun it => existsb (fun o => Order.id o =? OrderItem.orderId it) (orders db))
          (order_items db).

(** What a committed [create] leaves in the tables: the order's row in
    PENDING, one item per line, and every product the request names found
    with the request's quantity taken from its stock. *)
Definition all_committed `{JsArith} (dto : CreateOrderDto.t) (db db' : DB)
    (id : Z) (t : number) (new : list OrderItem.t) : Prop :=
  users db' = users db /\
  orders db' = orders db ++ [Order.mk id (CreateOrderDto.userId dto) t PENDING []] /\
  find_by Order.id id (orders db) = None /\
  order_items db' = order_items db ++ new /\
  Forall2 (item_of_line (products db) id) (CreateOrderDto.items dto) new /\
  t = sum_items new /\
  map Product.id (products db') = map Product.id (products db) /\
  forall k, find_by Product.id k (products db') =
            option_map (reserve_row (CreateOrderDto.items dto) k)
                       (find_by Product.id k (products db)).

(** ** Cancellation *)

(** One turn of the loop of [cancel] on the product rows. *)
Definition restock_item `{JsArith} (P : list Product.t) (item : OrderItem.t)
    : list Product.t :=
  match find_by Product.id (OrderItem.productId item) P with
  | None => P
  | Some product =>
      upsert Product.id
        (set_isAvailable
           (set_stock product (Product.stock product + OrderItem.quantity item)) true) P
  end.

Definition restock `{JsArith} (P : list Product.t) (items : list OrderItem.t)
    : list Product.t :=
  fold_left restock_item items P.

Definition with_products `{JsArith} (db : DB) (P : list Product.t) : DB :=
  mkDB (users db) P (orders db) (order_items db).

(** What [cancel]'s transaction comes to when no call fails. *)
Definition cancel_outcome `{JsArith} (sh : Shared) (id : Z) : (Exception + Order.t) * DB :=
  match load_order (tables sh) id with
  | None => (inl (NotFoundException ("Order #" ++ string_of_Z id ++ " not found")), tables sh)
  | Some order =>
      if negb (status_eqb (Order.status order) PENDING) then
        (inl (BadRequestException "Only pending orders can be cancelled"), tables sh)
      else
        (inr (set_status order CANCELLED),
         apply_write
           (with_products (tables sh) (restock (products (tables sh)) (Order.items order)))
           (W_order (set_status order CANCELLED)))
  end.

(** [this.logger.error({ message: 'Failed to cancel order', error: e.message }, ...)] *)
Definition logged `{JsArith} (sh : Shared) (e : Exception) : Shared :=
  mkShared (tables sh) (order_seq sh) (locks sh)
           (log sh ++ [("Failed to cancel order"%string, exception_message e)]).

(** The quantity the items of an order hold of product [k]. *)
Definition returned `{JsArith} (k : Z) (items : list OrderItem.t) : Z :=
  fold_right (fun it acc => if OrderItem.productId it =? k
                            then OrderItem.quantity it + acc else acc) 0 items.

Definition referenced `{JsArith} (k : Z) (items : list OrderItem.t) : bool :=
  existsb (fun it => OrderItem.productId it =? k) items.

(** A product row once the items of a cancelled order are restocked. *)
Definition restock_row `{JsArith} (items : list OrderItem.t) (k : Z) (p : Product.t)
    : Product.t :=
  if referenced k items
  then Product.mk (Product.id p) (Product.name p) (Product.price p)
                  (Product.stock p + returned k items) true
  else p.

(** ** Status update *)

(** What [updateStatus] to a status other than CANCELLED comes to when no
    call fails. *)
Definition update_outcome `{JsArith} (sh : Shared) (id : Z) (status : OrderStatus)
    : (Exception + Order.t) * DB :=
  match load_order (tables sh) id with
  | None => (inl (NotFoundException ("Order #" ++ string_of_Z id ++ " not found")), tables sh)
  | Some order =>
      if status_eqb (Order.status order) CANCELLED then
        (inl (BadRequestException "Cannot update a cancelled order"), tables sh)
      else
        (inr (set_status order status),
         apply_write (tables sh) (W_order (set_status order status)))
  end.

(** ** Reachable states *)

(** I2 for the product table, and positive quantities in the item table
    (items come from validated requests). *)
Definition stock_ok `{JsArith} (db : DB) : Prop := Forall product_ok (products db).

Definition items_ok `{JsArith} (db : DB) : Prop :=
  Forall (fun it => 1 <= OrderItem.quantity it) (order_items db).

(** Before the first order: products that obey I2, and no order yet. *)
Definition initial `{JsArith} (sh : Shared) : Prop :=
  stock_ok (tables sh) /\ orders (tables sh) = [] /\ order_items (tables sh) = [].

(** One call of the engine: any method, any fault script; [create] gets a
    request that passed the DTO layer's checks. *)
Inductive engine_call `{JsArith} : Shared -> Shared -> Prop :=
| call_create dto fs sh :
    dto_valid dto = true -> engine_call sh (snd (exec (create dto) fs sh))
| call_cancel id fs sh :
    engine_call sh (snd (exec (cancel id) fs sh))
| call_updateStatus id status fs sh :
    engine_call sh (snd (exec (updateStatus id status) fs sh)).

Inductive reachable `{JsArith} : Shared -> Prop :=
| reach_initial sh : initial sh -> reachable sh
| reach_call sh sh' : reachable sh -> engine_call sh sh' -> reachable sh'.

(** ** A small shop *)

(** One user and one product, "Widget", at 9.99 with five in stock; prices
    and totals are JavaScript numbers. *)
Definition widget : @Product.t ieee754 :=
  @Product.mk ieee754 10 "Widget" 9.99%float 5 true.

Definition shop : @Shared ieee754 :=
  @mkShared ieee754 (@mkDB ieee754 [User.mk 1] [widget] [] []) 1 [] [].

(** [{ userId: 1, items: [{ productId: 10, quantity: 2 }] }] *)
Definition two_widgets : CreateOrderDto.t := CreateOrderDto.mk 1 [OrderItemDto.mk 10 2].

(** The same shop with amounts in minor units. *)
Definition till : @Shared minor_units :=
  @mkShared minor_units
    (@mkDB minor_units [User.mk 1] [@Product.mk minor_units 10 "Widget" 999 5 true] [] [])
    1 [] [].




(** "Whatever exception [create] fails with is an HttpException: a fault is
    translated to InternalServerErrorException." *)
Definition create_translates_faults (A : JsArith) : Prop :=
  forall dto fs (sh : Shared) e sh',
    exec (create dto) fs sh = (inl e, sh') -> instanceof_HttpException e = true.

(** A fault script that lets [connect] and [startTransaction] through and
    fails the first call of the [try] block. *)
Definition fault_in_transaction : list bool := [false; false; true].

(** ** Requests and labels of the scenarios *)

(** [{ userId: 1, items: [{ productId: 10, quantity: 3 }, { productId: 10, quantity: 3 }] }] *)
Definition three_and_three : CreateOrderDto.t :=
  CreateOrderDto.mk 1 [OrderItemDto.mk 10 3; OrderItemDto.mk 10 3].

(** A status other than PENDING and CANCELLED. *)
Definition shipped_label : OrderStatus := OTHER "SHIPPED".

(** [{ userId: 1, items: [{ productId: 10, quantity: 0 }] }] *)
Definition no_widgets : CreateOrderDto.t := CreateOrderDto.mk 1 [OrderItemDto.mk 10 0].

(** [{ userId: 1, items: [{ productId: 10, quantity: 1 }, { productId: 10, quantity: 2 }] }] *)
Definition one_and_two : CreateOrderDto.t :=
  CreateOrderDto.mk 1 [OrderItemDto.mk 10 1; OrderItemDto.mk 10 2].




(** ** Requests in flight together *)

(** Node runs every request as a chain of awaited calls; between two awaited
    calls of one request any other request may run.  A request in flight is
    what is left of its method's program and the state of its query runner;
    its number is its place in the list.  The storage layer is the one of
    [handle]: a locked read waits while another request's transaction holds
    the row ([blocked]), and when it goes through it reads the committed row
    (read committed), so the waiting request sees what the holder committed. *)
Record Request `{JsArith} : Type := mkRequest {
  program : Prog Order.t;
  local : Local
}.
Arguments mkRequest {_} _ _.

Definition Config `{JsArith} : Type := (Shared * list Request)%type.

(** What the request's caller has received: nothing while it runs. *)
Definition outcome `{JsArith} (q : Request) : option (Exception + Order.t) :=
  match program q with
  | Ret o => Some (inr o)
  | Throw e => Some (inl e)
  | Vis _ _ => None
  end.

Fixpoint replace_nth {X} (n : nat) (x : X) (l : list X) : list X :=
  match l, n with
  | [], _ => []
  | _ :: l', O => x :: l'
  | y :: l', S n' => y :: replace_nth n' x l'
  end.

(** One awaited call of one request. *)
Inductive step `{JsArith} : Config -> Config -> Prop :=
| step_call tid sh qs q R (c : Call R) k r sh' lo' :
    nth_error qs tid = Some q ->
    program q = Vis c k ->
    blocked tid c sh = false ->
    handle tid c sh (local q) = (r, sh', lo') ->
    step (sh, qs) (sh', replace_nth tid (mkRequest (k r) lo') qs).

Inductive steps `{JsArith} : nat -> Config -> Config -> Prop :=
| steps_O c : steps 0 c c
| steps_S n c c1 c2 : step c c1 -> steps n c1 c2 -> steps (S n) c c2.

(** No request can move: each has finished or waits for a lock. *)
Definition stuck `{JsArith} (c : Config) : Prop := forall c', ~ step c c'.

(** The same step as a function of the request that moves. *)
Definition advance `{JsArith} (tid : nat) (c : Config) : option Config :=
  match nth_error (snd c) tid with
  | Some q =>
      match program q with
      | Vis c' k =>
          if blocked tid c' (fst c) then None
          else match handle tid c' (fst c) (local q) with
               | (r, sh', lo') => Some (sh', replace_nth tid (mkRequest (k r) lo') (snd c))
               end
      | _ => None
      end
  | None => None
  end.

Definition successors `{JsArith} (c : Config) : list Config :=
  flat_map (fun tid => match advance tid c with Some c' => [c'] | None => [] end)
           (seq 0 (List.length (snd c))).

(** The requests taken in the order [s] names them. *)
Fixpoint run_schedule `{JsArith} (s : list nat) (c : Config) : option Config :=
  match s with
  | [] => Some c
  | tid :: s' =>
      match advance tid c with
      | Some c' => run_schedule s' c'
      | None => None
      end
  end.

(** Every interleaving from [c] stops within [fuel] steps, in a
    configuration that passes [ok]. *)
Fixpoint all_runs `{JsArith} (fuel : nat) (ok : Config -> bool) (c : Config) : bool :=
  match fuel with
  | O => false
  | S fuel' =>
      match successors c with
      | [] => ok c
      | l => forallb (all_runs fuel' ok) l
      end
  end.

(** ** What requests in flight promise each other *)

(** What a request knows of the tables and locks and of its own query
    runner. *)
Definition Assn `{JsArith} : Type := Shared -> Local -> Prop.

(** The stock of product [k] in the tables (none when it has no row), and
    the units of it that order items hold. *)
Definition stock_of `{JsArith} (db : DB) (k : Z) : Z :=
  match find_by Product.id k (products db) with
  | Some p => Product.stock p
  | None => 0
  end.

Definition balance `{JsArith} (db : DB) (k : Z) : Z :=
  stock_of db k + returned k (order_items db).

(** A row is locked by one request at most. *)
Definition locks_ok `{JsArith} (sh : Shared) : Prop :=
  forall r t t', In (r, t) (locks sh) -> In (r, t') (locks sh) -> t = t'.

(** Nothing is oversold since the tables were [db0]: every stock obeys I2,
    and stock and sold units of each product add up to what they were. *)
Definition sound `{JsArith} (db0 : DB) (sh : Shared) : Prop :=
  locks_ok sh /\ stock_ok (tables sh) /\
  forall k, balance (tables sh) k = balance db0 k.

(** What a call of request [tid] leaves alone: the locks of the other
    requests and the product rows they hold. *)
Definition guarantee `{JsArith} (tid : nat) (sh sh' : Shared) : Prop :=
  (forall r t, t <> tid -> (In (r, t) (locks sh') <-> In (r, t) (locks sh))) /\
  (forall k t, t <> tid -> In (ProductRow k, t) (locks sh) ->
     find_by Product.id k (products (tables sh'))
       = find_by Product.id k (products (tables sh))).

(** An assertion of request [tid] that no call of another request breaks. *)
Definition stable `{JsArith} (tid : nat) (B : Assn) : Prop :=
  forall t sh sh' lo, t <> tid -> guarantee t sh sh' -> B sh lo -> B sh' lo.

(** Request [tid] can go on with [p] from [sh] and [lo], whatever the other
    requests do in between: each of its calls keeps [sound] and
    [guarantee], and it ends in [Q] or throws in [E]. *)
Fixpoint safe `{JsArith} (db0 : DB) (tid : nat) {R} (p : Prog R)
    (Q : R -> Assn) (E : Exception -> Assn) (sh : Shared) (lo : Local) : Prop :=
  match p with
  | Ret a => Q a sh lo
  | Throw e => E e sh lo
  | Vis c k =>
      exists B : Assn,
        stable tid B /\ B sh lo /\
        forall sh1 lo1 r sh' lo',
          sound db0 sh1 -> B sh1 lo1 -> blocked tid c sh1 = false ->
          handle tid c sh1 lo1 = (r, sh', lo') ->
          sound db0 sh' /\ guarantee tid sh1 sh' /\ safe db0 tid (k r) Q E sh' lo'
  end.

(** No promise at the end. *)
Definition anything `{JsArith} {R} : R -> Assn := fun _ _ _ => True.

(** The cache of [create] in request [tid]: each product in it is locked by
    the request, and is its row in the tables less the units of the items
    made so far. *)
Definition cache_ok `{JsArith} (tid : nat) (vars : LoopVars) (sh : Shared) : Prop :=
  NoDup (map fst (updatedProducts vars)) /\
  (forall k p, Map_get k (updatedProducts vars) = Some p ->
     Product.id p = k /\ product_ok p /\
     In (ProductRow k, tid) (locks sh) /\
     find_by Product.id k (products (tables sh)) <> None /\
     Product.stock p + returned k (orderItems vars) = stock_of (tables sh) k) /\
  (forall k, Map_get k (updatedProducts vars) = None -> returned k (orderItems vars) = 0).

(** Nothing is oversold, and every request in flight can go on. *)
Definition all_safe `{JsArith} (db0 : DB) (c : Config) : Prop :=
  sound db0 (fst c) /\
  forall tid q, nth_error (snd c) tid = Some q ->
    safe db0 tid (program q) anything anything (fst c) (local q).

(** In request [tid] the transaction's writes so far are [ws], and its cache
    is as [cache_ok] says. *)
Definition holding `{JsArith} (tid : nat) (ws : list Write) (vars : LoopVars) : Assn :=
  fun sh lo => writes lo = Some ws /\ cache_ok tid vars sh.

Definition in_tx `{JsArith} (ws : list Write) : Assn :=
  fun sh lo => writes lo = Some ws.

(** Several [create] requests sent together, each with its fault script. *)
Definition creating `{JsArith} (reqs : list (CreateOrderDto.t * list bool)) : list Request :=
  map (fun r => mkRequest (create (fst r)) (fresh (snd r))) reqs.


(** *** Two requests for what is left of one product *)

(** Two users and one "Widget" left, no order yet. *)
Definition one_left : @Shared ieee754 :=
  @mkShared ieee754
    (@mkDB ieee754 [User.mk 1; User.mk 2]
                   [@Product.mk ieee754 10 "Widget" 9.99%float 1 true] [] [])
    1 [] [].

(** [{ userId: u, items: [{ productId: 10, quantity: 1 }] }] *)
Definition one_widget_for (u : Z) : CreateOrderDto.t :=
  CreateOrderDto.mk u [OrderItemDto.mk 10 1].

(** User 1 and user 2 ask for it at the same time; no call fails. *)
Definition race : @Config ieee754 :=
  (one_left, creating [(one_widget_for 1, []); (one_widget_for 2, [])]).

(** The rows of [order_item]: the order and the quantity of each. *)
Definition placed (c : @Config ieee754) : list (Z * Z) :=
  map (fun it => (OrderItem.orderId it, OrderItem.quantity it))
      (order_items (tables (fst c))).

(** [BadRequestException: Product Widget is not available] *)
Definition unavailable : Exception :=
  BadRequestException "Product Widget is not available".

(** [BadRequestException: Not enough stock for Widget] *)
Definition not_enough : Exception :=
  BadRequestException "Not enough stock for Widget".

Definition told_unavailable (e : Exception) : bool :=
  match e with
  | BadRequestException m => String.eqb m "Product Widget is not available"
  | _ => false
  end.

(** Order [o] of one Widget is the only order in the tables, and nothing is
    left of the product. *)
Definition sold_as (o : @Order.t ieee754) (c : @Config ieee754) : bool :=
  status_eqb (Order.status o) PENDING
  && match products (tables (fst c)) with
     | [p] => (Product.stock p =? 0) && negb (Product.isAvailable p)
     | _ => false
     end
  && match map Order.id (orders (tables (fst c))) with
     | [i] => i =? Order.id o
     | _ => false
     end
  && match placed c with
     | [(i, q)] => (i =? Order.id o) && (q =? 1)
     | _ => false
     end.

(** One of the two got the last Widget and the other was told that the
    product is not available. *)
Definition last_one_sold (c : @Config ieee754) : bool :=
  match map outcome (snd c) with
  | [Some (inr o); Some (inl e)] =>
      (Order.userId o =? 1) && told_unavailable e && sold_as o c
  | [Some (inl e); Some (inr o)] =>
      (Order.userId o =? 2) && told_unavailable e && sold_as o c
  | _ => false
  end.

(** User 1's request runs to its end, then user 2's. *)
Definition one_then_two : list nat :=
  repeat 0%nat 11 ++ repeat 1%nat 7.

Definition after_one_then_two : @Config ieee754 :=
  match run_schedule one_then_two race with
  | Some c => c
  | None => race
  end.

(** * More of the service *)

(** ** Calls one after the other *)

(** One call of a method that writes, with any argument and any fault
    script, and any number of them one after the other. *)
Inductive service_call `{JsArith} : Shared -> Shared -> Prop :=
| does_create dto fs sh : service_call sh (snd (exec (create dto) fs sh))
| does_cancel id fs sh : service_call sh (snd (exec (cancel id) fs sh))
| does_updateStatus id status fs sh :
    service_call sh (snd (exec (updateStatus id status) fs sh)).

Inductive service_calls `{JsArith} : Shared -> Shared -> Prop :=
| no_call sh : service_calls sh sh
| more_calls sh sh1 sh2 :
    service_calls sh sh1 -> service_call sh1 sh2 -> service_calls sh sh2.

(** Order [id] is in the tables as [row], with the same items as in [db]. *)
Definition kept `{JsArith} (id : Z) (row : Order.t) (db db' : DB) : Prop :=
  find_by Order.id id (orders db') = Some row /\ items_of db' id = items_of db id.

(** ** Tidy tables under any calls in flight *)

(** A method of the service that writes, as the controller calls it. *)
Inductive Method : Type :=
| Create (createOrderDto : CreateOrderDto.t)
| Cancel (id : Z)
| UpdateStatus (id : Z) (status : OrderStatus).

Definition body `{JsArith} (m : Method) : Prog Order.t :=
  match m with
  | Create dto => create dto
  | Cancel id => cancel id
  | UpdateStatus id status => updateStatus id status
  end.

(** The request passed the DTO layer's checks. *)
Definition accepted (m : Method) : bool :=
  match m with
  | Create dto => dto_valid dto
  | _ => true
  end.

(** Requests sent together, each with its fault script. *)
Definition serving `{JsArith} (reqs : list (Method * list bool)) : list Request :=
  map (fun r => mkRequest (body (fst r)) (fresh (snd r))) reqs.

(** I2 in the product table and quantities of 1 or more in the item table. *)
Definition tidy `{JsArith} (db : DB) : Prop := stock_ok db /\ items_ok db.

Definition write_ok `{JsArith} (w : Write) : Prop :=
  match w with
  | W_order _ => True
  | W_items l => Forall (fun it => 1 <= OrderItem.quantity it) l
  | W_products l => Forall product_ok l
  end.

(** The writes that wait for the commit are of rows that obey I2 and of
    items of quantity 1 or more. *)
Definition pending_ok `{JsArith} : Assn :=
  fun _ lo => match writes lo with
              | Some ws => Forall write_ok ws
              | None => True
              end.

(** What a call writes obeys I2 and has quantities of 1 or more. *)
Definition call_ok `{JsArith} {R} (c : Call R) : Prop :=
  match c with
  | manager_save_OrderItems l => Forall (fun it => 1 <= OrderItem.quantity it) l
  | manager_save_Products l => Forall product_ok l
  | _ => True
  end.

(** And so does what it reads. *)
Definition reply_ok `{JsArith} {R} (c : Call R) : Exception + R -> Prop :=
  match c in Call R return Exception + R -> Prop with
  | manager_findOne_Product_locked _ =>
      fun r => match r with
               | inr (Some p) => product_ok p
               | _ => True
               end
  | manager_findOne_Order_items _ =>
      fun r => match r with
               | inr (Some o) => Forall (fun it => 1 <= OrderItem.quantity it) (Order.items o)
               | _ => True
               end
  | _ => fun _ => True
  end.

(** A program all of whose calls are [call_ok], given that the replies are
    [reply_ok]; it ends in [Q]. *)
Fixpoint neat `{JsArith} {R} (p : Prog R) (Q : R -> Prop) : Prop :=
  match p with
  | Ret a => Q a
  | Throw _ => True
  | Vis c k => call_ok c /\ forall r, reply_ok c r -> neat (k r) Q
  end.

Definition vars_ok `{JsArith} (vars : LoopVars) : Prop :=
  Forall (fun it => 1 <= OrderItem.quantity it) (orderItems vars) /\
  Forall product_ok (Map_values (updatedProducts vars)).

Definition all_neat `{JsArith} (c : Config) : Prop :=
  tidy (tables (fst c)) /\
  Forall (fun q => pending_ok (fst c) (local q) /\ neat (program q) (fun _ => True)) (snd c).

(** ** Requests that cross *)

(** A cancellation and a status update of the same order, in flight
    together; no call fails. *)
Definition cancel_and_update `{JsArith} (id : Z) (status : OrderStatus) : list Request :=
  serving [(Cancel id, []); (UpdateStatus id status, [])].

(** Request [tid] takes [n] calls, none of which has to wait. *)
Inductive takes `{JsArith} (tid : nat) :
    nat -> Prog Order.t * Shared * Local -> Prog Order.t * Shared * Local -> Prop :=
| takes_O x : takes tid 0 x x
| takes_S n R (c : Call R) k sh lo r sh1 lo1 x :
    blocked tid c sh = false ->
    handle tid c sh lo = (r, sh1, lo1) ->
    takes tid n (k r, sh1, lo1) x ->
    takes tid (S n) (Vis c k, sh, lo) x.

(** Two requests that name the same two products, one in the order [a],
    [b] and the other in the order [b], [a]; no call fails. *)
Definition crossing `{JsArith} (u1 u2 a b qa qb qb' qa' : Z) : list Request :=
  creating [(CreateOrderDto.mk u1 [OrderItemDto.mk a qa; OrderItemDto.mk b qb], []);
            (CreateOrderDto.mk u2 [OrderItemDto.mk b qb'; OrderItemDto.mk a qa'], [])].

(** ** Any invariant of requests in flight *)

(** As [stable] and [safe], for any invariant [J] of what the requests
    share and any promise [G] of a call to the other requests. *)
Definition stable_under `{JsArith} (G : nat -> Shared -> Shared -> Prop)
    (tid : nat) (B : Assn) : Prop :=
  forall t sh sh' lo, t <> tid -> G t sh sh' -> B sh lo -> B sh' lo.

Fixpoint proceeds `{JsArith} (J : Shared -> Prop) (G : nat -> Shared -> Shared -> Prop)
    (tid : nat) {R} (p : Prog R)
    (Q : R -> Assn) (E : Exception -> Assn) (sh : Shared) (lo : Local) : Prop :=
  match p with
  | Ret a => Q a sh lo
  | Throw e => E e sh lo
  | Vis c k =>
      exists B : Assn,
        stable_under G tid B /\ B sh lo /\
        forall sh1 lo1 r sh' lo',
          J sh1 -> B sh1 lo1 -> blocked tid c sh1 = false ->
          handle tid c sh1 lo1 = (r, sh', lo') ->
          J sh' /\ G tid sh1 sh' /\ proceeds J G tid (k r) Q E sh' lo'
  end.

Definition all_proceed `{JsArith} (J : Shared -> Prop)
    (G : nat -> Shared -> Shared -> Prop) (c : Config) : Prop :=
  J (fst c) /\
  forall tid q, nth_error (snd c) tid = Some q ->
    proceeds J G tid (program q) anything anything (fst c) (local q).

(** ** Cancellations in flight together *)

(** Several [cancel] requests sent together, each with its fault script. *)
Definition cancelling `{JsArith} (reqs : list (Z * list bool)) : list Request :=
  map (fun r => mkRequest (cancel (fst r)) (fresh (snd r))) reqs.

(** The order is there and PENDING. *)
Definition pending `{JsArith} (db : DB) (id : Z) : bool :=
  match find_by Order.id id (orders db) with
  | Some o => status_eqb (Order.status o) PENDING
  | None => false
  end.

(** The units of product [k] that the items of PENDING orders hold. *)
Definition held `{JsArith} (db : DB) (k : Z) : Z :=
  returned k (filter (fun it => pending db (OrderItem.orderId it)) (order_items db)).

(** Since the tables were [db0]: no row was added or removed, and for every
    product that has a row, stock and held units add up to what they
    were. *)
Definition restocked_once `{JsArith} (db0 : DB) (sh : Shared) : Prop :=
  locks_ok sh /\
  map Product.id (products (tables sh)) = map Product.id (products db0) /\
  map Order.id (orders (tables sh)) = map Order.id (orders db0) /\
  order_items (tables sh) = order_items db0 /\
  forall k, find_by Product.id k (products (tables sh)) <> None ->
            stock_of (tables sh) k + held (tables sh) k = stock_of db0 k + held db0 k.

(** What a call of a cancellation leaves alone: the locks of the other
    requests and the product and order rows they hold; it adds and removes
    no row. *)
Definition keeps_rows `{JsArith} (tid : nat) (sh sh' : Shared) : Prop :=
  (forall r t, t <> tid -> (In (r, t) (locks sh') <-> In (r, t) (locks sh))) /\
  (forall k t, t <> tid -> In (ProductRow k, t) (locks sh) ->
     find_by Product.id k (products (tables sh'))
       = find_by Product.id k (products (tables sh))) /\
  (forall i t, t <> tid -> In (OrderRow i, t) (locks sh) ->
     find_by Order.id i (orders (tables sh'))
       = find_by Order.id i (orders (tables sh))) /\
  map Product.id (products (tables sh')) = map Product.id (products (tables sh)) /\
  map Order.id (orders (tables sh')) = map Order.id (orders (tables sh)) /\
  order_items (tables sh') = order_items (tables sh).

(** The product row that the writes [ws] of a cancellation leave under [k]:
    the last one written, if any. *)
Fixpoint last_write `{JsArith} (k : Z) (ws : list Write) : option Product.t :=
  match ws with
  | [] => None
  | w :: ws' =>
      match last_write k ws' with
      | Some p => Some p
      | None =>
          match w with
          | W_products l => find_by Product.id k (rev l)
          | _ => None
          end
      end
  end.

(** A cancellation at work in request [tid]: it holds the lock of order
    [o], which is PENDING in the tables; [done] are the items it has taken,
    [ws] its writes: one for each product row, of those that [done] names,
    that is there, and it holds the lock of each. *)
Definition holds `{JsArith} (tid : nat) (o : Order.t) (done : list OrderItem.t)
    (ws : list Write) (sh : Shared) : Prop :=
  In (OrderRow (Order.id o), tid) (locks sh) /\
  load_order (tables sh) (Order.id o) = Some o /\
  Order.status o = PENDING /\
  Forall (fun w => exists p, w = W_products [p] /\
                             referenced (Product.id p) done = true /\
                             find_by Product.id (Product.id p) (products (tables sh)) <> None)
         ws /\
  (forall k, referenced k done = true ->
             find_by Product.id k (products (tables sh)) <> None ->
             In (ProductRow k, tid) (locks sh)) /\
  (forall k, last_write k ws =
             if referenced k done
             then option_map (restock_row done k)
                             (find_by Product.id k (products (tables sh)))
             else None).

Definition restocking `{JsArith} (tid : nat) (o : Order.t) (done : list OrderItem.t) : Assn :=
  fun sh lo => exists ws, writes lo = Some ws /\ holds tid o done ws sh.

(** It has read the row of product [p0] under lock and is about to write it
    back with the quantity of [it] added. *)
Definition restocking_row `{JsArith} (tid : nat) (o : Order.t) (done : list OrderItem.t)
    (it : OrderItem.t) (p0 : Product.t) : Assn :=
  fun sh lo =>
    restocking tid o done sh lo /\
    In (ProductRow (OrderItem.productId it), tid) (locks sh) /\
    find_by Product.id (OrderItem.productId it) (products (tables sh)) = Some p0.

(** It has written the order back and is about to commit. *)
Definition committing `{JsArith} (tid : nat) (o : Order.t) : Assn :=
  fun sh lo =>
    exists ws, writes lo = Some (ws ++ [W_order (set_status o CANCELLED)]) /\
               holds tid o (Order.items o) ws sh.

(** It has asked for the lock of order [id]: it has it, or there is no such
    order. *)
Definition asked `{JsArith} (tid : nat) (id : Z) : Assn :=
  fun sh lo =>
    writes lo = Some [] /\
    (In (OrderRow id, tid) (locks sh) \/
     find_by Order.id id (orders (tables sh)) = None).

(** ** Scenarios *)

(** The order that [two_widgets] makes in [shop], and the shop after it. *)
Definition order1 : @Order.t ieee754 :=
  @Order.mk ieee754 1 1 19.98%float PENDING [@OrderItem.mk ieee754 1 10 2 9.99%float].

Definition sold : @Shared ieee754 := snd (exec (create two_widgets) [] shop).

(** The shop after that order was cancelled. *)
Definition refunded : @Shared ieee754 := snd (exec (cancel 1) [] sold).

(** One request makes an order of the last Widget while another cancels
    order 1; the first runs to its end, then the second. *)
Definition order_and_cancel : @Config ieee754 :=
  (one_left, serving [(Create (one_widget_for 1), []); (Cancel 1, [])]).

Definition order_then_cancel : list nat := repeat 0%nat 11 ++ repeat 1%nat 9.

Definition after_order_then_cancel : @Config ieee754 :=
  match run_schedule order_then_cancel order_and_cancel with
  | Some c => c
  | None => order_and_cancel
  end.

(** Two users, and two products with two of each in stock. *)
Definition two_shelves : @Shared ieee754 :=
  @mkShared ieee754
    (@mkDB ieee754 [User.mk 1; User.mk 2]
       [@Product.mk ieee754 10 "Widget" 9.99%float 2 true;
        @Product.mk ieee754 20 "Gadget" 4.5%float 2 true] [] [])
    1 [] [].

(** Two cancellations of order 1 sent together; both open their
    transaction, then one takes the lock of the order and runs to its end
    while the other waits for it. *)
Definition cancel_twice : @Config ieee754 := (sold, cancelling [(1, []); (1, [])]).

Definition crossed_cancels : list nat :=
  [0; 0; 1; 1]%nat ++ repeat 0%nat 7 ++ repeat 1%nat 5.

Definition after_crossed_cancels : @Config ieee754 :=
  match run_schedule crossed_cancels cancel_twice with
  | Some c => c
  | None => cancel_twice
  end.

(** * Lemmas *)

(** ** Tables and maps *)

Section Tables.
Context {T : Type} (key : T -> Z).

Lemma find_by_some k rows r : find_by key k rows = Some r -> In r rows /\ key r = k.
Proof.
  unfold find_by. intros H. apply find_some in H. destruct H as [Hin Hk].
  split; [exact Hin | now apply Z.eqb_eq].
Qed.

Lemma find_by_none k rows : find_by key k rows = None -> forall r, In r rows -> key r <> k.
Proof.
  unfold find_by. intros H r Hin Hk.
  pose proof (find_none _ _ H r Hin) as Hn. simpl in Hn.
  apply Z.eqb_neq in Hn. contradiction.
Qed.

Lemma find_by_app k l1 l2 :
  find_by key k (l1 ++ l2) =
  match find_by key k l1 with Some r => Some r | None => find_by key k l2 end.
Proof.
  unfold find_by. induction l1 as [|x l1 IH]; simpl; [reflexivity|].
  destruct (key x =? k); [reflexivity | exact IH].
Qed.

Lemma existsb_find_by k rows :
  existsb (fun x => key x =? k) rows =
  match find_by key k rows with Some _ => true | None => false end.
Proof.
  unfold find_by. induction rows as [|x rows IH]; simpl; [reflexivity|].
  destruct (key x =? k); simpl; [reflexivity | exact IH].
Qed.

Lemma find_by_replace k r rows :
  find_by key k (map (fun x => if key x =? key r then r else x) rows) =
  match find_by key k rows with
  | Some x => if key r =? k then Some r else Some x
  | None => None
  end.
Proof.
  unfold find_by. induction rows as [|x rows IH]; simpl; [reflexivity|].
  destruct (Z.eqb_spec (key x) (key r)) as [E|E]; simpl.
  - rewrite E. destruct (Z.eqb_spec (key r) k) as [E2|E2]; [reflexivity|].
    rewrite IH. destruct (find _ rows); [|reflexivity].
    destruct (Z.eqb_spec (key r) k); [contradiction | reflexivity].
  - destruct (Z.eqb_spec (key x) k) as [E2|E2]; [|exact IH].
    destruct (Z.eqb_spec (key r) k); [congruence | reflexivity].
Qed.

(** After [save], the saved row is the one found under its key, and every
    other key finds what it found before. *)
Lemma find_by_upsert k r rows :
  find_by key k (upsert key r rows) =
  if key r =? k then Some r else find_by key k rows.
Proof.
  unfold upsert. rewrite existsb_find_by.
  destruct (find_by key (key r) rows) as [x|] eqn:E.
  - rewrite find_by_replace. destruct (key r =? k) eqn:E2.
    + apply Z.eqb_eq in E2. subst k. rewrite E. reflexivity.
    + destruct (find_by key k rows); reflexivity.
  - rewrite find_by_app. destruct (key r =? k) eqn:E2.
    + apply Z.eqb_eq in E2. subst k. rewrite E. unfold find_by. simpl.
      rewrite Z.eqb_refl. reflexivity.
    + destruct (find_by key k rows); [reflexivity|].
      unfold find_by. simpl. rewrite E2. reflexivity.
Qed.

Lemma Forall_upsert (P : T -> Prop) r rows :
  P r -> Forall P rows -> Forall P (upsert key r rows).
Proof.
  intros Hr Hrows. unfold upsert.
  destruct (existsb _ rows).
  - apply Forall_map. eapply Forall_impl; [|exact Hrows].
    intros x Hx. simpl. destruct (key x =? key r); assumption.
  - apply Forall_app. split; [assumption | constructor; [assumption | constructor]].
Qed.

Lemma Forall_fold_upsert (P : T -> Prop) vals : forall rows,
  Forall P vals -> Forall P rows ->
  Forall P (fold_left (fun rows p => upsert key p rows) vals rows).
Proof.
  induction vals as [|v vals IH]; intros rows Hv Hr; simpl; [exact Hr|].
  inversion Hv; subst. apply IH; [assumption | now apply Forall_upsert].
Qed.

Lemma keys_upsert_present r rows :
  existsb (fun x => key x =? key r) rows = true ->
  map key (upsert key r rows) = map key rows.
Proof.
  intros H. unfold upsert. rewrite H. rewrite map_map.
  apply map_ext. intros x. destruct (key x =? key r) eqn:E; [|reflexivity].
  apply Z.eqb_eq in E. now rewrite E.
Qed.

Lemma keys_fold_upsert vals : forall rows,
  (forall v, In v vals -> find_by key (key v) rows <> None) ->
  map key (fold_left (fun rows p => upsert key p rows) vals rows) = map key rows.
Proof.
  induction vals as [|v vals IH]; intros rows H; simpl; [reflexivity|].
  assert (existsb (fun x => key x =? key v) rows = true) as Hex.
  { rewrite existsb_find_by. specialize (H v (or_introl eq_refl)).
    destruct (find_by key (key v) rows); [reflexivity | contradiction]. }
  rewrite IH.
  - now apply keys_upsert_present.
  - intros v' Hin. rewrite find_by_upsert. destruct (key v =? key v'); [discriminate|].
    apply H. now right.
Qed.

(** Saving several rows: the last one saved under a key is the one found. *)
Lemma find_fold_upsert k vals : forall rows,
  find_by key k (fold_left (fun rows p => upsert key p rows) vals rows) =
  match find_by key k (rev vals) with
  | Some p => Some p
  | None => find_by key k rows
  end.
Proof.
  induction vals as [|v vals IH]; intros rows; simpl; [reflexivity|].
  rewrite IH, find_by_app, find_by_upsert.
  destruct (find_by key k (rev vals)); [reflexivity|].
  unfold find_by at 2. simpl. destruct (key v =? k); reflexivity.
Qed.

Lemma max_id_ge rows r : In r rows -> key r <= max_id key rows.
Proof.
  induction rows as [|x rows IH]; simpl; [contradiction|].
  intros [-> | Hin]; [lia | specialize (IH Hin); lia].
Qed.

Lemma find_by_above_max k rows : max_id key rows < k -> find_by key k rows = None.
Proof.
  intros Hk. destruct (find_by key k rows) as [r|] eqn:E; [|reflexivity].
  apply find_by_some in E. destruct E as [Hin <-].
  apply max_id_ge in Hin. lia.
Qed.

Lemma upsert_fresh r rows :
  find_by key (key r) rows = None -> upsert key r rows = rows ++ [r].
Proof.
  intros H. unfold upsert. rewrite existsb_find_by, H. reflexivity.
Qed.

Lemma upsert_last r r' rows :
  find_by key (key r) rows = None -> key r' = key r ->
  upsert key r' (rows ++ [r]) = rows ++ [r'].
Proof.
  intros H Hk. unfold upsert. rewrite existsb_app. simpl. rewrite Hk, Z.eqb_refl.
  rewrite orb_true_r, map_app. simpl. rewrite Z.eqb_refl. f_equal.
  rewrite <- (map_id rows) at 2. apply map_ext_in. intros x Hin.
  destruct (Z.eqb_spec (key x) (key r)) as [E|E]; [|reflexivity].
  exfalso. eapply find_by_none; eauto.
Qed.

End Tables.

Section JsMap.
Context {V : Type}.

Lemma Map_get_set k k' (v : V) m :
  Map_get k' (Map_set k v m) = if k =? k' then Some v else Map_get k' m.
Proof.
  unfold Map_get, Map_set.
  pose proof (find_by_upsert (@fst Z V) k' (k, v) m) as H. unfold find_by in H.
  rewrite H. simpl. destruct (k =? k'); reflexivity.
Qed.

Lemma Map_get_None k (m : list (Z * V)) : Map_get k m = None -> ~ In k (map fst m).
Proof.
  unfold Map_get. destruct (find _ m) as [e|] eqn:E; [discriminate|].
  intros _ Hin. apply in_map_iff in Hin. destruct Hin as (e & He & Hin).
  pose proof (find_none _ _ E e Hin) as Hn. simpl in Hn. apply Z.eqb_neq in Hn. contradiction.
Qed.

Lemma NoDup_Map_set k (v : V) m : NoDup (map fst m) -> NoDup (map fst (Map_set k v m)).
Proof.
  intros Hnd. unfold Map_set, upsert.
  destruct (existsb (fun x => fst x =? fst (k, v)) m) eqn:E.
  - replace (map fst (map _ m)) with (map fst m); [exact Hnd|].
    rewrite map_map. apply map_ext. intros x. simpl.
    destruct (Z.eqb_spec (fst x) k); simpl; congruence.
  - rewrite map_app. simpl. apply NoDup_app; [exact Hnd | repeat constructor; intros [] |].
    intros a Hin [<- | []]. apply in_map_iff in Hin. destruct Hin as (e & He & Hin).
    assert (existsb (fun x => fst x =? fst (k, v)) m = true) as Hc; [|congruence].
    apply existsb_exists. exists e. split; [exact Hin|]. simpl. now apply Z.eqb_eq.
Qed.

Lemma In_Map_set k (v : V) m e : In e (Map_set k v m) -> e = (k, v) \/ In e m.
Proof.
  unfold Map_set, upsert. destruct (existsb _ m).
  - intros Hin. apply in_map_iff in Hin. destruct Hin as (x & Hx & Hin).
    destruct (fst x =? fst (k, v)); [left | right]; congruence.
  - intros Hin. apply in_app_or in Hin. destruct Hin as [Hin | [<- | []]]; auto.
Qed.

Lemma Map_get_In k (v : V) m : Map_get k m = Some v -> In (k, v) m.
Proof.
  unfold Map_get. destruct (find _ m) as [[k0 v0]|] eqn:E; [|discriminate].
  intros H. inversion H; subst. apply find_some in E. destruct E as [Hin Hk].
  simpl in Hk. apply Z.eqb_eq in Hk. now subst.
Qed.

(** With distinct keys, an entry of the map is what [get] answers. *)
Lemma In_Map_get k (v : V) m : NoDup (map fst m) -> In (k, v) m -> Map_get k m = Some v.
Proof.
  intros Hnd Hin. destruct (Map_get k m) as [v'|] eqn:Hg.
  - apply Map_get_In in Hg. f_equal.
    induction m as [|[k1 v1] m IH]; [contradiction|].
    simpl in Hnd. inversion Hnd as [|? ? Hn Hnd']; subst.
    destruct Hin as [E1|Hin], Hg as [E2|Hg].
    + congruence.
    + inversion E1; subst. exfalso. apply Hn. apply in_map_iff. now exists (k, v').
    + inversion E2; subst. exfalso. apply Hn. apply in_map_iff. now exists (k, v).
    + now apply IH.
  - exfalso. apply Map_get_None in Hg. apply Hg. apply in_map_iff. now exists (k, v).
Qed.

End JsMap.

(** ** Runs *)

Lemma In_skipn {X} (x : X) n l : In x (skipn n l) -> In x l.
Proof.
  revert l. induction n as [|n IH]; intros l; simpl; [auto|].
  destruct l; simpl; [auto|]. intros H. right. now apply IH.
Qed.

Lemma tl_skipn {X} n (l : list X) : tl (skipn n l) = skipn (S n) l.
Proof.
  revert l. induction n as [|n IH]; intros l.
  - destruct l; reflexivity.
  - destruct l as [|x l]; [reflexivity|]. simpl skipn at 1. rewrite IH. reflexivity.
Qed.

Lemma hd_true_In fs : hd false fs = true -> In true fs.
Proof. destruct fs as [|[|] fs]; simpl; intros; [discriminate | auto | discriminate]. Qed.

Lemma hd_skipn_In n fs : hd false (skipn n fs) = true -> In true fs.
Proof. intros H. apply hd_true_In in H. now apply In_skipn in H. Qed.

(** Unfolding of the storage layer's updates, in a hypothesis and in the
    goal, and one step of a run through a call that may fail. *)
Ltac tidy H :=
  unfold tick, write, view, set_writes, note_read, set_tables, release_locks in H;
  cbn [run faults writes reads app tables log order_seq locks
       apply_writes fold_left apply_write products users orders order_items] in H.

Ltac tidy_goal :=
  unfold tick, write, view, set_writes, note_read, set_tables, release_locks;
  cbn [run faults writes reads app tables log order_seq locks
       apply_writes fold_left apply_write products users orders order_items].

Section Run.
Context {A : JsArith}.

Lemma run_bind {X Y} tid (p : Prog X) (f : X -> Prog Y) sh lo :
  run tid (bind p f) sh lo =
  match run tid p sh lo with
  | (inr a, sh', lo') => run tid (f a) sh' lo'
  | (inl e, sh', lo') => (inl e, sh', lo')
  end.
Proof.
  revert sh lo. induction p as [a|e|R c k IH]; intros sh lo; simpl.
  - reflexivity.
  - reflexivity.
  - destruct (handle tid c sh lo) as [[r sh'] lo']. apply IH.
Qed.

Lemma run_try_catch {X} tid (p : Prog X) (h : Exception -> Prog X) sh lo :
  run tid (try_catch p h) sh lo =
  match run tid p sh lo with
  | (inr a, sh', lo') => (inr a, sh', lo')
  | (inl e, sh', lo') => run tid (h e) sh' lo'
  end.
Proof.
  revert sh lo. induction p as [a|e|R c k IH]; intros sh lo; simpl.
  - reflexivity.
  - reflexivity.
  - destruct (handle tid c sh lo) as [[r sh'] lo']. apply IH.
Qed.

Lemma run_call {R} tid (c : Call R) sh lo :
  run tid (call c) sh lo = handle tid c sh lo.
Proof.
  unfold call. simpl. destruct (handle tid c sh lo) as [[[e|v] sh'] lo']; reflexivity.
Qed.

Lemma run_lift {X} tid (r : Exception + X) sh lo :
  run tid (lift r) sh lo = (r, sh, lo).
Proof. destruct r; reflexivity. Qed.

Lemma apply_writes_app db ws ws' :
  apply_writes db (ws ++ ws') = apply_writes (apply_writes db ws) ws'.
Proof. unfold apply_writes. apply fold_left_app. Qed.

Lemma with_products_same db : with_products db (products db) = db.
Proof. destruct db; reflexivity. Qed.

Lemma acquire_tables tid r sh :
  tables (acquire tid r sh) = tables sh /\ log (acquire tid r sh) = log sh
  /\ order_seq (acquire tid r sh) = order_seq sh.
Proof. unfold acquire. destruct (existsb _ _); simpl; auto. Qed.

End Run.

Ltac storage_step H n fs :=
  rewrite ?run_bind, run_call in H;
  cbn [handle] in H; unfold storage in H;
  tidy H; rewrite ?tl_skipn in H;
  destruct (hd false (skipn n fs)) eqn:?; tidy H.

(** The answer of a call, whether or not a fault was scheduled for it. *)
Ltac answered Hh :=
  cbn [handle] in Hh; try unfold storage in Hh;
  match type of Hh with
  | context [hd false (faults ?l)] => destruct (hd false (faults l))
  | _ => idtac
  end;
  inversion Hh; subst.

Ltac plain_step :=
  rewrite run_bind, run_call; cbn [handle]; tidy_goal.

(** ** Order creation: the loop *)

Section CreateLoop.
Context {A : JsArith}.

Lemma reserved_app k l1 l2 : reserved k (l1 ++ l2) = reserved k l1 + reserved k l2.
Proof.
  induction l1 as [|x l1 IH]; simpl; [reflexivity|].
  destruct (OrderItemDto.productId x =? k); lia.
Qed.

Lemma mentions_app k l1 l2 : mentions k (l1 ++ l2) = mentions k l1 || mentions k l2.
Proof. unfold mentions. apply existsb_app. Qed.

Lemma reserved_not_mentioned k lines : mentions k lines = false -> reserved k lines = 0.
Proof.
  induction lines as [|x lines IH]; simpl; [reflexivity|].
  destruct (OrderItemDto.productId x =? k); simpl; [discriminate | exact IH].
Qed.

Lemma cache_inv_nil P : cache_inv P [] [].
Proof.
  split; [constructor|]. split; [intros e []|]. intros k. reflexivity.
Qed.

(** The in-transaction value of a product after the lines [done]: the row
    of the table with the quantities of [done] taken from its stock. *)
Lemma in_transaction_inv P done vars k p :
  cache_inv P done (updatedProducts vars) ->
  in_transaction P vars k = Some p ->
  exists p0, find_by Product.id k P = Some p0 /\
    Product.id p = k /\ Product.name p = Product.name p0 /\
    Product.price p = Product.price p0 /\
    Product.stock p = Product.stock p0 - reserved k done /\
    (mentions k done = false -> p = p0).
Proof.
  intros (Hnd & Hwf & Hget) H. unfold in_transaction in H. rewrite (Hget k) in H.
  destruct (mentions k done) eqn:Hm.
  - destruct (find_by Product.id k P) as [p0|] eqn:Hp0; simpl in H.
    + inversion H; subst p. exists p0. apply find_by_some in Hp0. destruct Hp0 as [_ Hk].
      unfold after_reserve; simpl. repeat split; auto. discriminate.
    + discriminate.
  - exists p. split; [exact H|]. apply find_by_some in H. destruct H as [_ Hk].
    rewrite (reserved_not_mentioned _ _ Hm). repeat split; auto. lia.
Qed.

(** A line that passes leaves its product in the cache. *)
Lemma reserve_line_cache o vars l prod vars' :
  reserve_line o vars l prod = inr vars' ->
  exists p v, prod = Some p /\
    updatedProducts vars' = Map_set (Product.id p) v (updatedProducts vars).
Proof.
  unfold reserve_line. destruct prod as [p|]; [|discriminate].
  destruct (negb _); [discriminate|]. destruct (_ <? _); [discriminate|].
  intros H. inversion H; subst. simpl. eauto.
Qed.

(** One line, on a cache that obeys the invariant. *)
Lemma reserve_line_spec P o done vars l vars' :
  cache_inv P done (updatedProducts vars) ->
  reserve_line o vars l (in_transaction P vars (OrderItemDto.productId l)) = inr vars' ->
  cache_inv P (done ++ [l]) (updatedProducts vars') /\
  exists it, orderItems vars' = orderItems vars ++ [it] /\
             item_of_line P (Order.id o) l it /\
             total vars' = add_item (total vars) it.
Proof.
  intros Hinv H.
  destruct (in_transaction P vars (OrderItemDto.productId l)) as [p|] eqn:Hp;
    [|discriminate].
  destruct (in_transaction_inv _ _ _ _ _ Hinv Hp)
    as (p0 & Hp0 & Hid & Hname & Hprice & Hstock & _).
  destruct Hinv as (Hnd & Hwf & Hget).
  unfold reserve_line in H.
  destruct (negb (Product.isAvailable p)); [discriminate|].
  destruct (Product.stock p <? OrderItemDto.quantity l) eqn:Hq; [discriminate|].
  apply Z.ltb_ge in Hq.
  inversion H; subst vars'; clear H. cbn [updatedProducts orderItems total].
  cbn [set_isAvailable set_stock Product.id Product.name Product.price Product.stock].
  set (k := OrderItemDto.productId l) in *. set (q := OrderItemDto.quantity l) in *.
  split.
  - split; [now apply NoDup_Map_set|]. split.
    + intros e He. apply In_Map_set in He. destruct He as [-> | He]; [|now apply Hwf].
      simpl. split; [reflexivity | lia].
    + intros k'. rewrite Map_get_set, mentions_app, reserved_app. rewrite Hid.
      simpl. fold k. fold q. destruct (Z.eqb_spec k k') as [<-|Hne].
      * rewrite orb_true_r. rewrite Hp0. simpl. f_equal.
        unfold after_reserve, set_isAvailable, set_stock.
        cbn [Product.id Product.name Product.price Product.stock].
        rewrite Hname, Hprice, Hstock, Hid.
        apply find_by_some in Hp0. destruct Hp0 as [_ ->].
        replace (Product.stock p0 - (reserved k done + (q + 0)))
          with (Product.stock p0 - reserved k done - q) by lia. reflexivity.
      * rewrite orb_false_r, Z.add_0_r. apply Hget.
  - eexists. split; [reflexivity|]. split; [|reflexivity].
    unfold item_of_line. simpl. repeat split; auto. exists p0. auto.
Qed.

(** All lines. *)
Lemma reserve_lines_spec P o lines : forall done vars vars',
  cache_inv P done (updatedProducts vars) ->
  reserve_lines P o lines vars = inr vars' ->
  cache_inv P (done ++ lines) (updatedProducts vars') /\
  exists new, orderItems vars' = orderItems vars ++ new /\
              Forall2 (item_of_line P (Order.id o)) lines new /\
              total vars' = fold_left add_item new (total vars).
Proof.
  induction lines as [|l lines IH]; intros done vars vars' Hinv H; simpl in H.
  - inversion H; subst. rewrite !app_nil_r. split; [assumption|].
    exists []. rewrite app_nil_r. repeat split. constructor.
  - destruct (reserve_line o vars l _) as [e|vars1] eqn:Hl; [discriminate|].
    destruct (reserve_line_spec _ _ _ _ _ _ Hinv Hl) as (Hinv1 & it & Hit & Hm & Ht).
    destruct (IH _ _ _ Hinv1 H) as (Hinv' & new & Hnew & Hall & Htot).
    rewrite <- app_assoc in Hinv'. split; [exact Hinv'|].
    exists (it :: new). rewrite Hnew, Hit, <- app_assoc. split; [reflexivity|].
    split; [now constructor|]. simpl. now rewrite <- Ht.
Qed.

(** An exception of the loop is a BadRequest, or it is a NotFound and some
    line names a product that is in no row. *)
Lemma reserve_lines_error P o lines : forall vars e,
  reserve_lines P o lines vars = inl e ->
  is_BadRequest e = true \/
  (is_NotFound e = true /\
   exists l, In l lines /\ find_by Product.id (OrderItemDto.productId l) P = None).
Proof.
  induction lines as [|l lines IH]; intros vars e H; simpl in H; [discriminate|].
  destruct (reserve_line o vars l _) as [e1|vars1] eqn:Hl.
  - inversion H; subst e1. unfold reserve_line in Hl.
    destruct (in_transaction P vars (OrderItemDto.productId l)) as [p|] eqn:Hp.
    + left. destruct (negb _); [inversion Hl; reflexivity|].
      destruct (_ <? _); [inversion Hl; reflexivity | discriminate].
    + right. inversion Hl. split; [reflexivity|]. exists l. split; [now left|].
      unfold in_transaction in Hp. destruct (Map_get _ _); [discriminate | exact Hp].
  - apply IH in H. destruct H as [H | (H & l' & Hin & Hf)]; [now left | right].
    split; [exact H|]. exists l'. split; [now right | exact Hf].
Qed.

(** The locked read of a product inside an open transaction: it answers the
    in-transaction value, and reads the table only for a product that is not
    cached. *)
Lemma run_lookup_product tid vars id sh ws fs rs :
  exists sh' n rs',
    run tid (lookup_product vars id) sh (mkLocal (Some ws) fs rs) =
      (if match Map_get id (updatedProducts vars) with
          | Some _ => false
          | None => hd false fs
          end
       then inl (StorageError "storage fault")
       else inr (in_transaction (products (apply_writes (tables sh) ws)) vars id),
       sh', mkLocal (Some ws) (skipn n fs) rs')
    /\ tables sh' = tables sh /\ order_seq sh' = order_seq sh /\ log sh' = log sh
    /\ (rs' = rs \/
        (Map_get id (updatedProducts vars) = None /\ rs' = rs ++ [ProductRow id])).
Proof.
  unfold lookup_product, in_transaction.
  destruct (Map_get id (updatedProducts vars)) as [p|] eqn:E.
  - exists sh, 0%nat, rs. simpl. auto 6.
  - rewrite run_call. cbn [handle]. unfold storage. tidy_goal.
    destruct (hd false fs) eqn:Hf.
    + exists sh, 1%nat, rs. split; [destruct fs; reflexivity | auto 6].
    + destruct (find_by Product.id id (products (apply_writes (tables sh) ws))) as [p|].
      * destruct (acquire_tables tid (ProductRow id) sh) as (Ha & Hb & Hc).
        exists (acquire tid (ProductRow id) sh), 1%nat, (rs ++ [ProductRow id]).
        split; [destruct fs; reflexivity | auto 6].
      * exists sh, 1%nat, (rs ++ [ProductRow id]).
        split; [destruct fs; reflexivity | auto 6].
Qed.

(** The loop of [create] inside an open transaction: it writes nothing, and
    it comes to what [reserve_lines] says unless a read fails; no product row
    is read twice. *)
Lemma run_create_lines tid o ws lines : forall vars sh fs rs r sh' lo',
  run tid (create_lines o lines vars) sh (mkLocal (Some ws) fs rs) = (r, sh', lo') ->
  tables sh' = tables sh /\ order_seq sh' = order_seq sh /\ log sh' = log sh /\
  (exists n rs', lo' = mkLocal (Some ws) (skipn n fs) rs' /\
     (reads_inv (updatedProducts vars) rs ->
      NoDup rs' /\ forall vars', r = inr vars' -> reads_inv (updatedProducts vars') rs')) /\
  (r = reserve_lines (products (apply_writes (tables sh) ws)) o lines vars
   \/ (r = inl (StorageError "storage fault") /\ In true fs)).
Proof.
  induction lines as [|l lines IH]; intros vars sh fs rs r sh' lo' Hrun.
  - simpl in Hrun. inversion Hrun; subst. repeat split; auto.
    exists 0%nat, rs. split; [reflexivity|]. intros Hinv. split; [apply Hinv|].
    intros vars' E. inversion E; subst. exact Hinv.
  - simpl in Hrun. unfold create_line in Hrun. rewrite !run_bind in Hrun.
    destruct (run_lookup_product tid vars (OrderItemDto.productId l) sh ws fs rs)
      as (sh1 & n1 & rs1 & Hl & Ht & Hs & Hg & Hrs).
    rewrite Hl in Hrun. clear Hl.
    assert (reads_inv (updatedProducts vars) rs -> NoDup rs1) as Hnd1.
    { intros [Hnd Hin]. destruct Hrs as [-> | [Hnone ->]]; [exact Hnd|].
      apply NoDup_app; [exact Hnd | repeat constructor; intros [] |].
      intros a Ha [<- | []]. destruct (Hin _ Ha) as (k & Hk & Hget).
      inversion Hk; subst. contradiction. }
    destruct (match Map_get (OrderItemDto.productId l) (updatedProducts vars) with
              | Some _ => false | None => hd false fs end) eqn:Hfault.
    + inversion Hrun; subst. repeat split; auto.
      * exists n1, rs1. split; [reflexivity|]. intros Hinv. split; [auto | discriminate].
      * right. split; [reflexivity|].
        destruct (Map_get _ _); [discriminate | now apply hd_true_In].
    + rewrite run_lift in Hrun. simpl.
      destruct (reserve_line o vars l _) as [e|vars1] eqn:Hres.
      * inversion Hrun; subst. repeat split; auto.
        exists n1, rs1. split; [reflexivity|]. intros Hinv. split; [auto | discriminate].
      * apply IH in Hrun.
        destruct Hrun as (Ht' & Hs' & Hg' & (n2 & rs2 & Hlo2 & Hreads) & Hr).
        rewrite Ht in Ht', Hr. repeat split; try congruence.
        -- exists (n2 + n1)%nat, rs2. rewrite Hlo2, skipn_skipn. split; [reflexivity|].
           intros Hinv. apply Hreads. split; [auto|].
           destruct (reserve_line_cache _ _ _ _ _ Hres) as (p & v & Hp & ->).
           intros r0 Hr0.
           assert (forall k, Map_get k (updatedProducts vars) <> None ->
                     Map_get k (Map_set (Product.id p) v (updatedProducts vars)) <> None)
             as Hkeep.
           { intros k Hk. rewrite Map_get_set. destruct (_ =? _); [discriminate | exact Hk]. }
           destruct Hinv as [_ Hin].
           destruct Hrs as [-> | [Hnone ->]].
           ++ destruct (Hin _ Hr0) as (k & -> & Hk). eauto.
           ++ apply in_app_or in Hr0. destruct Hr0 as [Hr0 | [<- | []]].
              ** destruct (Hin _ Hr0) as (k & -> & Hk). eauto.
              ** eexists. split; [reflexivity|]. rewrite Map_get_set.
                 unfold in_transaction in Hp. rewrite Hnone in Hp.
                 apply find_by_some in Hp. destruct Hp as [_ ->].
                 rewrite Z.eqb_refl. discriminate.
        -- destruct Hr as [Hr | [Hr Hin]]; [left; exact Hr | right].
           split; [exact Hr | now apply In_skipn in Hin].
Qed.

End CreateLoop.

(** ** Order creation: the transaction *)

Section CreateTransaction.
Context {A : JsArith}.

Lemma reads_inv_nil : reads_inv [] [].
Proof. split; [constructor | intros r []]. Qed.

Ltac script_left H :=
  match type of H with
  | context [mkLocal _ (skipn ?k _) _] => exists k; inversion H; reflexivity
  end.

Ltac faulted H :=
  split; [inversion H; subst; first [reflexivity | assumption]|];
  split; [inversion H; subst; intros; subst; first [constructor | auto] |];
  split; [script_left H|];
  inversion H; subst; left; eauto using hd_skipn_In.

(** The [try] block of [create]: a failed call leaves the tables as they
    were; otherwise the block comes to [create_outcome]. *)
Lemma run_create_transaction tid dto sh fs n rs r sh' lo' :
  run tid (create_transaction dto) sh (mkLocal (Some []) (skipn n fs) rs) = (r, sh', lo') ->
  log sh' = log sh /\
  (rs = [] -> NoDup (reads lo')) /\
  (exists m, faults lo' = skipn m fs) /\
  ((r = inl (StorageError "storage fault") /\ In true fs /\ tables sh' = tables sh)
   \/ ((r, tables sh') = create_outcome sh dto /\
       match r with
       | inl _ => True
       | inr _ => writes lo' = None
       end)).
Proof.
  intros H. unfold create_transaction, usersService_findOne in H.
  storage_step H n fs; [faulted H|].
  unfold create_outcome.
  destruct (find_by User.id (CreateOrderDto.userId dto) (users (tables sh))) as [u|] eqn:Hu.
  2:{ tidy H. split; [inversion H; reflexivity|].
      split; [inversion H; subst; intros ->; constructor|]. split; [script_left H|].
      inversion H; subst. right. split; [reflexivity | exact I]. }
  tidy H. storage_step H (S n) fs; [faulted H|].
  unfold new_order_id in H. tidy H.
  rewrite run_bind in H.
  match type of H with context [run tid (create_lines ?o ?l ?v) ?s ?lo] =>
    destruct (run tid (create_lines o l v) s lo) as [[r1 sh1] lo1] eqn:Hloop end.
  apply run_create_lines in Hloop.
  destruct Hloop as (Ht & Hs & Hg & (n2 & rs2 & Hlo & Hreads) & Hr).
  tidy Ht. tidy Hs. tidy Hg. tidy Hr. cbn [updatedProducts] in Hreads.
  rewrite skipn_skipn in Hlo. subst lo1.
  assert (rs = [] -> NoDup rs2) as Hnd.
  { intros ->. apply Hreads. apply reads_inv_nil. }
  destruct Hr as [Hr | [Hr Hin]].
  2:{ subst r1. inversion H; subst. split; [assumption|]. split; [exact Hnd|].
      split; [exists (n2 + S (S n))%nat; reflexivity|]. left.
      split; [reflexivity|]. split; [|assumption]. eapply In_skipn; eassumption. }
  fold vars0 in Hr. rewrite <- Hr.
  destruct r1 as [e|vars].
  { inversion H; subst. split; [assumption|]. split; [exact Hnd|].
    split; [exists (n2 + S (S n))%nat; reflexivity|].
    right. rewrite Ht. split; [reflexivity | exact I]. }
  storage_step H (n2 + S (S n))%nat fs; [faulted H|].
  storage_step H (S (n2 + S (S n)))%nat fs; [faulted H|].
  storage_step H (S (S (n2 + S (S n))))%nat fs; [faulted H|].
  storage_step H (S (S (S (n2 + S (S n)))))%nat fs; [faulted H|].
  inversion H; subst. clear H.
  tidy Hg. split; [assumption|]. split; [exact Hnd|].
  split; [exists (S (S (S (S (n2 + S (S n))))))%nat; reflexivity|]. right.
  split.
  - rewrite Ht. unfold create_writes. reflexivity.
  - reflexivity.
Qed.

Lemma create_outcome_error sh dto e db :
  create_outcome sh dto = (inl e, db) -> db = tables sh.
Proof.
  unfold create_outcome.
  destruct (find_by User.id _ _); [|now inversion 1].
  destruct (reserve_lines _ _ _ _); now inversion 1.
Qed.

Lemma load_order_committed sh o vars :
  load_order (apply_writes (tables sh) (create_writes o vars)) (Order.id o) =
  Some (set_items (set_total o (total vars))
          (items_of (apply_writes (tables sh) (create_writes o vars)) (Order.id o))).
Proof.
  unfold load_order, create_writes.
  cbn [apply_writes fold_left apply_write orders].
  rewrite find_by_upsert. cbn [set_items set_total Order.id].
  rewrite Z.eqb_refl. reflexivity.
Qed.

Lemma create_outcome_loaded sh dto id db' :
  create_outcome sh dto = (inr id, db') -> exists o, load_order db' id = Some o.
Proof.
  unfold create_outcome.
  destruct (find_by User.id _ _) as [u|]; [|discriminate].
  destruct (reserve_lines _ _ _ _) as [e|vars]; [discriminate|].
  intros E. inversion E; subst. eexists.
  exact (load_order_committed sh (Order.mk _ _ _ _ _) vars).
Qed.

Lemma run_findOne tid id sh lo r sh' lo' :
  run tid (findOne id) sh lo = (r, sh', lo') ->
  sh' = sh /\ reads lo' = reads lo /\ writes lo' = writes lo.
Proof.
  unfold findOne. rewrite run_bind, run_call. cbn [handle]. unfold storage.
  destruct (hd false (faults lo)).
  - intros H. inversion H; subst. auto.
  - tidy_goal. destruct (load_order (tables sh) id); cbn [run];
      intros H; inversion H; subst; auto.
Qed.

(** [create] around its [try] block: a fault of [connect] or of
    [startTransaction] ends the call before the block; after the block,
    [catch] rolls back and throws what the block threw, unless the rollback
    fails; [finally] releases the query runner, and a fault of that replaces
    the outcome; the read after the commit comes last. *)
Lemma run_create tid dto fs sh :
  run tid (create dto) sh (fresh fs) =
  if hd false fs then (inl (StorageError "storage fault"), sh, mkLocal None (tl fs) [])
  else if hd false (tl fs)
  then (inl (StorageError "storage fault"), sh, mkLocal None (tl (tl fs)) [])
  else
    match run tid (create_transaction dto) sh (mkLocal (Some []) (tl (tl fs)) []) with
    | (inl e, sh1, lo1) =>
        (inl (if hd false (faults lo1) || hd false (tl (faults lo1))
              then StorageError "storage fault" else e),
         release_locks tid sh1, mkLocal None (tl (tl (faults lo1))) (reads lo1))
    | (inr id, sh1, lo1) =>
        if hd false (faults lo1)
        then (inl (StorageError "storage fault"), sh1, tick lo1)
        else run tid (findOne id) sh1 (tick lo1)
    end.
Proof.
  unfold create, try_finally, fresh.
  rewrite run_bind, run_call. cbn [handle]. unfold storage. tidy_goal.
  destruct (hd false fs); [reflexivity|].
  rewrite run_bind, run_call. cbn [handle]. unfold storage. tidy_goal.
  destruct (hd false (tl fs)); [reflexivity|].
  rewrite !run_bind, !run_try_catch.
  destruct (run tid (create_transaction dto) sh _) as [[[e|id] sh1] lo1].
  - rewrite run_bind, run_call. cbn [handle]. tidy_goal.
    destruct (hd false (faults lo1)); cbn [orb];
      rewrite run_bind, run_call; cbn [handle]; unfold storage; tidy_goal;
      destruct (hd false (tl (faults lo1))); reflexivity.
  - rewrite run_bind, run_call. cbn [handle]. unfold storage.
    destruct (hd false (faults lo1)); reflexivity.
Qed.


Lemma skipn_tl {X} n (l : list X) : skipn n (tl l) = skipn (S n) l.
Proof. destruct l; [now rewrite !skipn_nil | reflexivity]. Qed.

Lemma hd_tl_In fs : hd false (tl fs) = true -> In true fs.
Proof. intros H. apply hd_true_In in H. destruct fs; [destruct H | now right]. Qed.

(** Every run of [create]. *)
Lemma exec_create dto fs sh r sh' :
  exec (create dto) fs sh = (r, sh') ->
  log sh' = log sh /\
  ((r = inl (StorageError "storage fault") /\ In true fs /\ tables sh' = tables sh)
   \/ match create_outcome sh dto with
      | (inl e, _) => r = inl e /\ tables sh' = tables sh
      | (inr id, db') =>
          tables sh' = db' /\
          ((exists o, load_order db' id = Some o /\ r = inr o)
           \/ (r = inl (StorageError "storage fault") /\ In true fs))
      end).
Proof.
  unfold exec. rewrite run_create.
  destruct (hd false fs) eqn:F1.
  { intros H. inversion H; subst. split; [reflexivity|]. left. auto using hd_true_In. }
  destruct (hd false (tl fs)) eqn:F2.
  { intros H. inversion H; subst. split; [reflexivity|]. left. auto using hd_tl_In. }
  destruct (run 0 (create_transaction dto) sh (mkLocal (Some []) (tl (tl fs)) []))
    as [[inner sh1] lo1] eqn:Htx.
  rewrite <- (skipn_O (tl (tl fs))), !skipn_tl in Htx.
  apply run_create_transaction in Htx.
  destruct Htx as (Hg & _ & (m & Hm) & Hcase).
  assert (hd false (faults lo1) = true -> In true fs) as Hin1.
  { rewrite Hm. apply hd_skipn_In. }
  assert (hd false (tl (faults lo1)) = true -> In true fs) as Hin2.
  { rewrite Hm, tl_skipn. apply hd_skipn_In. }
  destruct inner as [e|id].
  - intros H. inversion H; subst r sh'. clear H. cbn [log tables release_locks].
    split; [exact Hg|].
    destruct (hd false (faults lo1) || hd false (tl (faults lo1))) eqn:F.
    + left. split; [reflexivity|]. split.
      * apply orb_true_iff in F. destruct F; auto.
      * destruct Hcase as [(_ & _ & Ht) | (Hout & _)]; [exact Ht|].
        symmetry in Hout. now apply create_outcome_error in Hout.
    + destruct Hcase as [(Hr & Hin & Ht) | (Hout & _)];
        [inversion Hr; subst e; left; auto|].
      right. rewrite <- Hout. split; [reflexivity|].
      symmetry in Hout. now apply create_outcome_error in Hout.
  - destruct Hcase as [(Hr & _) | (Hout & Hw)]; [discriminate|].
    destruct (hd false (faults lo1)) eqn:F.
    + intros H. inversion H; subst r sh'. clear H. split; [exact Hg|].
      right. rewrite <- Hout. split; [reflexivity|]. right. auto.
    + unfold findOne. rewrite run_bind, run_call. cbn [handle]. unfold storage.
      tidy_goal. intros H. split.
      * destruct (hd false (tl (faults lo1)));
          [|destruct (load_order (tables sh1) id)]; cbn [run] in H;
          inversion H; subst; exact Hg.
      * right. rewrite <- Hout.
        destruct (hd false (tl (faults lo1))) eqn:F'.
        -- inversion H; subst. split; [reflexivity|]. right. auto.
        -- symmetry in Hout. pose proof (create_outcome_loaded _ _ _ _ Hout) as (o & Ho).
           rewrite Ho in H. cbn [run] in H. inversion H; subst.
           split; [reflexivity|]. left. eauto.
Qed.

(** The locked reads of a run of [create] are those of its [try] block. *)
Lemma exec_reads_create_tx dto fs sh :
  exec_reads (create dto) fs sh = [] \/
  exec_reads (create dto) fs sh =
    reads (snd (run 0 (create_transaction dto) sh (mkLocal (Some []) (tl (tl fs)) []))).
Proof.
  unfold exec_reads. rewrite run_create.
  destruct (hd false fs); [left; reflexivity|].
  destruct (hd false (tl fs)); [left; reflexivity|].
  destruct (run 0 (create_transaction dto) sh _) as [[[e|id] sh1] lo1]; cbn [snd].
  - right. reflexivity.
  - destruct (hd false (faults lo1)); [right; reflexivity|].
    destruct (run 0 (findOne id) sh1 (tick lo1)) as [[r2 sh2] lo2] eqn:Hr.
    apply run_findOne in Hr. destruct Hr as (_ & Hrs & _). right. exact Hrs.
Qed.

(** No product row is read twice by [create]. *)
Lemma exec_reads_create dto fs sh : NoDup (exec_reads (create dto) fs sh).
Proof.
  destruct (exec_reads_create_tx dto fs sh) as [-> | ->]; [constructor|].
  destruct (run 0 (create_transaction dto) sh (mkLocal (Some []) (tl (tl fs)) []))
    as [[inner sh1] lo1] eqn:Htx.
  rewrite <- (skipn_O (tl (tl fs))), !skipn_tl in Htx.
  apply run_create_transaction in Htx.
  destruct Htx as (_ & Hnd & _). cbn [snd]. auto.
Qed.

(** Without a fault, [create] comes to [create_outcome]. *)
Lemma exec_create_nofault dto sh :
  match create_outcome sh dto with
  | (inl e, _) => exists sh', exec (create dto) [] sh = (inl e, sh') /\
                              tables sh' = tables sh /\ log sh' = log sh
  | (inr id, db') =>
      exists o sh', exec (create dto) [] sh = (inr o, sh') /\
                    load_order db' id = Some o /\ tables sh' = db' /\ log sh' = log sh
  end.
Proof.
  destruct (exec (create dto) [] sh) as [r sh'] eqn:H.
  apply exec_create in H. destruct H as (Hg & [(_ & [] & _) | H]).
  destruct (create_outcome sh dto) as [[e|id] db'].
  - destruct H as [-> Ht]. eauto.
  - destruct H as [Ht [(o & Ho & ->) | (_ & [])]]. eauto 6.
Qed.

End CreateTransaction.

(** ** Order creation: what is committed *)

Section Committed.
Context {A : JsArith}.

Lemma find_rev_values k (cache : list (Z * Product.t)) :
  NoDup (map fst cache) ->
  (forall e, In e cache -> Product.id (snd e) = fst e) ->
  find_by Product.id k (rev (Map_values cache)) = Map_get k cache.
Proof.
  unfold Map_values, Map_get.
  induction cache as [|[k0 v] cache IH]; intros Hnd Hwf; simpl; [reflexivity|].
  inversion Hnd as [|? ? Hnotin Hnd']; subst.
  rewrite find_by_app, IH; [|assumption | intros e He; apply Hwf; now right].
  pose proof (Hwf (k0, v) (or_introl eq_refl)) as Hv. simpl in Hv.
  destruct (Z.eqb_spec k0 k) as [->|Hne].
  - destruct (find _ cache) as [e|] eqn:E.
    + exfalso. apply find_some in E. destruct E as [Hin Hk]. apply Z.eqb_eq in Hk.
      apply Hnotin. apply in_map_iff. exists e. split; [exact Hk | exact Hin].
    + unfold find_by. simpl. rewrite Hv, Z.eqb_refl. reflexivity.
  - destruct (find _ cache); [reflexivity|].
    unfold find_by. simpl. rewrite Hv. destruct (Z.eqb_spec k0 k); [contradiction | reflexivity].
Qed.

(** The tables a [create] commits. *)
Lemma create_outcome_committed sh dto id db' :
  create_outcome sh dto = (inr id, db') ->
  exists t new,
    all_committed dto (tables sh) db' id t new /\
    (Forall product_ok (products (tables sh)) -> Forall product_ok (products db')).
Proof.
  unfold create_outcome.
  destruct (find_by User.id _ _) as [u|] eqn:Hu; [|discriminate].
  set (oid := Z.max (order_seq sh) (1 + max_id Order.id (orders (tables sh)))).
  destruct (reserve_lines _ _ _ _) as [e|vars] eqn:Hl; [discriminate|].
  intros E. inversion E; subst id db'. clear E.
  destruct (reserve_lines_spec _ _ _ [] vars0 vars (cache_inv_nil _) Hl)
    as ((Hnd & Hwf & Hget) & new & Hnew & Hall & Htot).
  simpl in Hnew, Hall, Htot, Hget.
  assert (find_by Order.id oid (orders (tables sh)) = None) as Hfresh.
  { apply find_by_above_max. unfold oid. lia. }
  assert (forall k p, In (k, p) (updatedProducts vars) ->
            exists p0, find_by Product.id k (products (tables sh)) = Some p0 /\
                       p = after_reserve p0 (reserved k (CreateOrderDto.items dto))) as Hent.
  { intros k p Hin. apply (In_Map_get _ _ _ Hnd) in Hin. rewrite Hget in Hin.
    destruct (mentions k _); [|discriminate].
    destruct (find_by Product.id k _) as [p0|]; [|discriminate].
    inversion Hin. eauto. }
  exists (total vars), new. unfold all_committed, create_writes.
  cbn [apply_writes fold_left apply_write users orders order_items products].
  split.
  - split; [reflexivity|]. split.
    { rewrite (upsert_fresh Order.id (set_items (Order.mk oid _ _ _ _) [])) by exact Hfresh.
      rewrite upsert_last; [|exact Hfresh | reflexivity].
      cbn [set_items set_total Order.id Order.userId Order.total Order.status].
      apply find_by_some in Hu. destruct Hu as [_ ->]. reflexivity. }
    split; [exact Hfresh|]. split; [now rewrite Hnew|]. split; [exact Hall|].
    split; [exact Htot|]. split.
    + apply keys_fold_upsert. intros v Hv. unfold Map_values in Hv.
      apply in_map_iff in Hv. destruct Hv as ([k p] & <- & Hin). simpl.
      destruct (Hwf _ Hin) as [Hid _]. simpl in Hid. rewrite Hid.
      destruct (Hent _ _ Hin) as (p0 & -> & _). discriminate.
    + intros k. rewrite find_fold_upsert, find_rev_values;
        [|exact Hnd | intros e He; now apply Hwf].
      rewrite Hget. unfold reserve_row.
      destruct (mentions k _); destruct (find_by Product.id k _); reflexivity.
  - intros HP. apply Forall_fold_upsert; [|exact HP].
    unfold Map_values. apply Forall_map. apply Forall_forall. intros [k p] Hin.
    destruct (Hwf _ Hin) as [_ Hstock]. destruct (Hent _ _ Hin) as (p0 & _ & ->).
    split; [exact Hstock | reflexivity].
Qed.

End Committed.

(** ** Cancellation *)

Section Cancel.
Context {A : JsArith}.

(** The loop of [cancel] inside an open transaction: unless a call fails,
    its writes turn the product rows of the transaction into [restock] of
    them, and touch no other table. *)
Lemma run_cancel_items tid items : forall sh ws fs n rs r sh' lo',
  run tid (cancel_items items) sh (mkLocal (Some ws) (skipn n fs) rs) = (r, sh', lo') ->
  tables sh' = tables sh /\ log sh' = log sh /\
  (exists m, faults lo' = skipn m fs) /\
  ((r = inl (StorageError "storage fault") /\ In true fs)
   \/ (r = inr tt /\ exists ws' m rs',
         lo' = mkLocal (Some (ws ++ ws')) (skipn m fs) rs' /\
         apply_writes (apply_writes (tables sh) ws) ws' =
         with_products (apply_writes (tables sh) ws)
                       (restock (products (apply_writes (tables sh) ws)) items))).
Proof.
  induction items as [|item items IH]; intros sh ws fs n rs r sh' lo' H.
  - simpl in H. inversion H; subst. split; [reflexivity|]. split; [reflexivity|].
    split; [exists n; reflexivity|]. right. split; [reflexivity|].
    exists [], n, rs. rewrite app_nil_r. split; [reflexivity|].
    simpl. now rewrite with_products_same.
  - cbn [cancel_items] in H.
    storage_step H n fs.
    { inversion H; subst. split; [reflexivity|]. split; [reflexivity|].
      split; [exists (S n); reflexivity|]. left. eauto using hd_skipn_In. }
    set (V := apply_writes (tables sh) ws) in *.
    destruct (find_by Product.id (OrderItem.productId item) (products V)) as [p|] eqn:Hp.
    + tidy H.
      destruct (acquire_tables tid (ProductRow (OrderItem.productId item)) sh) as (Ha & Hb & Hc).
      storage_step H (S n) fs.
      { inversion H; subst. split; [assumption|]. split; [assumption|].
        split; [exists (S (S n)); reflexivity|]. left. eauto using hd_skipn_In. }
      apply IH in H. rewrite Ha, Hb in H.
      destruct H as (Ht & Hg & Hm & [Hf | (-> & ws' & m & rs' & -> & Hw)]);
        (split; [assumption|]); (split; [assumption|]); (split; [assumption|]); [left; exact Hf|].
      right. split; [reflexivity|].
      eexists (_ :: ws'), m, rs'. rewrite <- app_assoc. split; [reflexivity|].
      rewrite apply_writes_app in Hw. fold V in Hw.
      cbn [apply_writes fold_left]. unfold apply_writes in Hw. cbn [fold_left] in Hw.
      rewrite Hw. cbn [apply_write fold_left products with_products users orders order_items].
      unfold restock. cbn [fold_left].
      replace (restock_item (products V) item)
        with (upsert Product.id
                (set_isAvailable
                   (set_stock p (Product.stock p + OrderItem.quantity item)) true)
                (products V)) by (unfold restock_item; now rewrite Hp).
      reflexivity.
    + tidy H. apply IH in H.
      destruct H as (Ht & Hg & Hm & [Hf | (-> & ws' & m & rs' & -> & Hw)]);
        (split; [assumption|]); (split; [assumption|]); (split; [assumption|]); [left; exact Hf|].
      right. split; [reflexivity|]. exists ws', m, rs'. split; [reflexivity|].
      fold V in Hw. rewrite Hw. unfold restock. cbn [fold_left].
      replace (restock_item (products V) item) with (products V)
        by (unfold restock_item; now rewrite Hp).
      reflexivity.
Qed.

Lemma cancel_outcome_error sh id e db :
  cancel_outcome sh id = (inl e, db) ->
  db = tables sh /\ instanceof_HttpException e = true.
Proof.
  unfold cancel_outcome. destruct (load_order _ _) as [o|]; [|now inversion 1].
  destruct (negb _); now inversion 1.
Qed.

(** The [try] block of [cancel]. *)
Lemma run_cancel_transaction tid id sh fs n rs r sh' lo' :
  run tid (cancel_transaction id) sh (mkLocal (Some []) (skipn n fs) rs) = (r, sh', lo') ->
  log sh' = log sh /\
  (exists m, faults lo' = skipn m fs) /\
  ((r = inl (StorageError "storage fault") /\ In true fs /\ tables sh' = tables sh)
   \/ (r, tables sh') = cancel_outcome sh id).
Proof.
  intros H. unfold cancel_transaction in H.
  storage_step H n fs.
  { inversion H; subst. split; [reflexivity|]. split; [exists (S n); reflexivity|].
    left. eauto using hd_skipn_In. }
  assert (exists sh1 rs1,
    tables sh1 = tables sh /\ log sh1 = log sh /\
    run tid (order <- call (manager_findOne_Order_items id);;
             match order with
             | Some order =>
                 if negb (status_eqb (Order.status order) PENDING)
                 then Throw (BadRequestException "Only pending orders can be cancelled")
                 else
                  (cancel_items (Order.items order);;
                   savedOrder <- call (manager_save_Order (set_status order CANCELLED));;
                   call commitTransaction;; Ret savedOrder)%prog
             | None => Throw (NotFoundException ("Order #" ++ string_of_Z id ++ " not found"))
             end) sh1 (mkLocal (Some []) (skipn (S n) fs) rs1) = (r, sh', lo'))
    as (sh1 & rs1 & Ht1 & Hg1 & H1).
  { destruct (find_by Order.id id (orders (tables sh))); tidy H.
    - destruct (acquire_tables tid (OrderRow id) sh) as (Ha & Hb & _). eauto.
    - eauto. }
  clear H. rename H1 into H.
  storage_step H (S n) fs.
  { inversion H; subst. split; [assumption|]. split; [exists (S (S n)); reflexivity|].
    left. eauto using hd_skipn_In. }
  unfold cancel_outcome. rewrite <- Ht1.
  destruct (load_order (tables sh1) id) as [order|] eqn:Hload; tidy H.
  2:{ inversion H; subst. split; [assumption|]. split; [exists (S (S n)); reflexivity|].
      right. reflexivity. }
  destruct (negb (status_eqb (Order.status order) PENDING)); tidy H.
  { inversion H; subst. split; [assumption|]. split; [exists (S (S n)); reflexivity|].
    right. reflexivity. }
  rewrite run_bind in H.
  destruct (run tid (cancel_items (Order.items order)) sh1 _) as [[r2 sh2] lo2] eqn:Hloop.
  apply run_cancel_items in Hloop.
  destruct Hloop as (Ht2 & Hg2 & Hm2 & [(-> & Hin) | (-> & ws' & m & rs' & -> & Hw)]).
  { inversion H; subst. split; [congruence|]. split; [exact Hm2|].
    left. repeat split; auto. }
  cbn [app apply_writes fold_left] in Hw.
  storage_step H m fs.
  { inversion H; subst. split; [congruence|]. split; [exists (S m); reflexivity|].
    left. eauto using hd_skipn_In. }
  storage_step H (S m) fs.
  { inversion H; subst. split; [congruence|]. split; [exists (S (S m)); reflexivity|].
    left. eauto using hd_skipn_In. }
  inversion H; subst. clear H. cbn [log tables]. split; [congruence|].
  split; [exists (S (S m)); reflexivity|]. right.
  f_equal. rewrite Ht2. unfold apply_writes. rewrite fold_left_app.
  fold (apply_writes (tables sh1) ws'). rewrite Hw. reflexivity.
Qed.

(** [cancel] around its [try] block: a fault of [connect] or of
    [startTransaction] ends the call before the block; after the block,
    [catch] rolls back first, and a fault of the rollback ends the [catch]
    block before it logs and translates; [finally] releases the query runner,
    and a fault of that replaces the outcome. *)
Lemma run_cancel tid id fs sh :
  run tid (cancel id) sh (fresh fs) =
  if hd false fs then (inl (StorageError "storage fault"), sh, mkLocal None (tl fs) [])
  else if hd false (tl fs)
  then (inl (StorageError "storage fault"), sh, mkLocal None (tl (tl fs)) [])
  else
    match run tid (cancel_transaction id) sh (mkLocal (Some []) (tl (tl fs)) []) with
    | (inl e, sh1, lo1) =>
        if hd false (faults lo1)
        then (inl (StorageError "storage fault"), release_locks tid sh1,
              mkLocal None (tl (tl (faults lo1))) (reads lo1))
        else
          (inl (if hd false (tl (faults lo1)) then StorageError "storage fault"
                else if instanceof_HttpException e then e
                else InternalServerErrorException "Failed to cancel order"),
           logged (release_locks tid sh1) e,
           mkLocal None (tl (tl (faults lo1))) (reads lo1))
    | (inr o, sh1, lo1) =>
        (if hd false (faults lo1) then inl (StorageError "storage fault") else inr o,
         sh1, tick lo1)
    end.
Proof.
  unfold cancel, try_finally, fresh.
  rewrite run_bind, run_call. cbn [handle]. unfold storage. tidy_goal.
  destruct (hd false fs); [reflexivity|].
  rewrite run_bind, run_call. cbn [handle]. unfold storage. tidy_goal.
  destruct (hd false (tl fs)); [reflexivity|].
  rewrite !run_bind, !run_try_catch.
  destruct (run tid (cancel_transaction id) sh _) as [[[e|o] sh1] lo1].
  - rewrite run_bind, run_call. cbn [handle]. tidy_goal.
    destruct (hd false (faults lo1)).
    + rewrite run_bind, run_call. cbn [handle]. unfold storage. tidy_goal.
      destruct (hd false (tl (faults lo1))); reflexivity.
    + rewrite run_bind, run_call. cbn [handle]. tidy_goal.
      destruct (instanceof_HttpException e); tidy_goal;
        rewrite run_bind, run_call; cbn [handle]; unfold storage; tidy_goal;
        destruct (hd false (tl (faults lo1))); reflexivity.
  - rewrite run_bind, run_call. cbn [handle]. unfold storage.
    destruct (hd false (faults lo1)); reflexivity.
Qed.

(** Every run of [cancel]. *)
Lemma exec_cancel id fs sh r sh' :
  exec (cancel id) fs sh = (r, sh') ->
  (In true fs /\ tables sh' = tables sh /\
   (r = inl (StorageError "storage fault") \/
    r = inl (InternalServerErrorException "Failed to cancel order")))
  \/ match cancel_outcome sh id with
     | (inl e, _) =>
         r = inl e /\ tables sh' = tables sh /\
         log sh' = log sh ++ [("Failed to cancel order"%string, exception_message e)]
     | (inr o, db') =>
         tables sh' = db' /\ log sh' = log sh /\
         (r = inr o \/ (r = inl (StorageError "storage fault") /\ In true fs))
     end.
Proof.
  unfold exec. rewrite run_cancel.
  destruct (hd false fs) eqn:F1.
  { intros H. inversion H; subst. left. auto using hd_true_In. }
  destruct (hd false (tl fs)) eqn:F2.
  { intros H. inversion H; subst. left. auto using hd_tl_In. }
  destruct (run 0 (cancel_transaction id) sh (mkLocal (Some []) (tl (tl fs)) []))
    as [[inner sh1] lo1] eqn:Htx.
  rewrite <- (skipn_O (tl (tl fs))), !skipn_tl in Htx.
  apply run_cancel_transaction in Htx.
  destruct Htx as (Hg & (m & Hm) & Hcase).
  assert (hd false (faults lo1) = true -> In true fs) as Hin1.
  { rewrite Hm. apply hd_skipn_In. }
  assert (hd false (tl (faults lo1)) = true -> In true fs) as Hin2.
  { rewrite Hm, tl_skipn. apply hd_skipn_In. }
  assert (forall e, inner = inl e -> tables sh1 = tables sh) as Hsame.
  { intros e ->. destruct Hcase as [(_ & _ & Ht) | Hout]; [exact Ht|].
    symmetry in Hout. now apply cancel_outcome_error in Hout. }
  destruct inner as [e|o].
  - specialize (Hsame e eq_refl).
    destruct (hd false (faults lo1)) eqn:F.
    { intros H. inversion H; subst. left. auto. }
    destruct (hd false (tl (faults lo1))) eqn:F'.
    { intros H. inversion H; subst. left. auto. }
    intros H. inversion H; subst r sh'. clear H.
    destruct Hcase as [(Hr & Hin & _) | Hout].
    + inversion Hr; subst e. left. auto.
    + right. rewrite <- Hout.
      symmetry in Hout. apply cancel_outcome_error in Hout. destruct Hout as [_ ->].
      cbn [logged log tables release_locks]. rewrite Hg. auto.
  - destruct Hcase as [(Hr & _) | Hout]; [discriminate|].
    intros H. inversion H; subst r sh'. clear H. right. rewrite <- Hout.
    split; [reflexivity|]. split; [exact Hg|].
    destruct (hd false (faults lo1)) eqn:F; auto.
Qed.

(** Without a fault, [cancel] comes to [cancel_outcome]. *)
Lemma exec_cancel_nofault id sh :
  match cancel_outcome sh id with
  | (inl e, _) =>
      exists sh', exec (cancel id) [] sh = (inl e, sh') /\ tables sh' = tables sh /\
        log sh' = log sh ++ [("Failed to cancel order"%string, exception_message e)]
  | (inr o, db') =>
      exists sh', exec (cancel id) [] sh = (inr o, sh') /\ tables sh' = db' /\
        log sh' = log sh
  end.
Proof.
  destruct (exec (cancel id) [] sh) as [r sh'] eqn:H.
  apply exec_cancel in H. destruct H as [([] & _) | H].
  destruct (cancel_outcome sh id) as [[e|o] db'].
  - destruct H as (-> & Ht & Hg). eauto.
  - destruct H as (Ht & Hg & [-> | (_ & [])]). eauto.
Qed.

(** *** Restocking *)

Lemma restock_keys items : forall P,
  map Product.id (restock P items) = map Product.id P.
Proof.
  induction items as [|it items IH]; intros P; simpl; [reflexivity|].
  unfold restock in *. cbn [fold_left]. rewrite IH. unfold restock_item.
  destruct (find_by Product.id (OrderItem.productId it) P) as [p|] eqn:Hp; [|reflexivity].
  apply keys_upsert_present. rewrite existsb_find_by.
  unfold set_isAvailable, set_stock. cbn [Product.id].
  pose proof (find_by_some _ _ _ _ Hp) as [_ Hk]. rewrite Hk. now rewrite Hp.
Qed.

Lemma returned_not_referenced k items : referenced k items = false -> returned k items = 0.
Proof.
  induction items as [|x items IH]; simpl; [reflexivity|].
  destruct (OrderItem.productId x =? k); simpl; [discriminate | exact IH].
Qed.

(** The product found under [k] after the loop of [cancel]: the one found
    before, with the quantities of all items of [k] added to its stock. *)
Lemma find_restock k items : forall P,
  find_by Product.id k (restock P items) =
  option_map (restock_row items k) (find_by Product.id k P).
Proof.
  induction items as [|it items IH]; intros P.
  - simpl. destruct (find_by Product.id k P); reflexivity.
  - unfold restock in *. cbn [fold_left]. rewrite IH. unfold restock_item.
    unfold restock_row, referenced, returned. cbn [existsb fold_right].
    fold (referenced k items). fold (returned k items).
    destruct (find_by Product.id (OrderItem.productId it) P) as [p|] eqn:Hp.
    + rewrite find_by_upsert. unfold set_isAvailable, set_stock. cbn [Product.id].
      pose proof (find_by_some _ _ _ _ Hp) as [_ Hk]. rewrite Hk.
      destruct (Z.eqb_spec (OrderItem.productId it) k) as [E|Hne].
      * subst k. rewrite Hp. simpl. unfold restock_row.
        cbn [Product.id Product.name Product.price Product.stock].
        rewrite Hk. destruct (referenced _ items) eqn:Hr.
        -- do 2 f_equal. lia.
        -- rewrite (returned_not_referenced _ _ Hr). do 2 f_equal. lia.
      * simpl. reflexivity.
    + destruct (Z.eqb_spec (OrderItem.productId it) k) as [E|Hne].
      * subst k. rewrite Hp. reflexivity.
      * reflexivity.
Qed.

Lemma restock_ok items : forall P,
  Forall product_ok P ->
  Forall (fun it => 1 <= OrderItem.quantity it) items ->
  Forall product_ok (restock P items).
Proof.
  induction items as [|it items IH]; intros P HP Hq; [exact HP|].
  unfold restock in *. cbn [fold_left]. inversion Hq; subst.
  apply IH; [|assumption]. unfold restock_item.
  destruct (find_by Product.id (OrderItem.productId it) P) as [p|] eqn:Hp; [|exact HP].
  apply Forall_upsert; [|exact HP].
  apply find_by_some in Hp. destruct Hp as [Hin _].
  rewrite Forall_forall in HP. destruct (HP _ Hin) as [Hs _].
  unfold set_isAvailable, set_stock.
  split; cbn [Product.stock Product.isAvailable]; [lia|].
  symmetry. apply Z.gtb_lt. lia.
Qed.

End Cancel.

(** ** Status update *)

Section Update.
Context {A : JsArith}.

(** Every run of [updateStatus] to a status other than CANCELLED. *)
Lemma exec_updateStatus id status fs sh r sh' :
  status_eqb status CANCELLED = false ->
  exec (updateStatus id status) fs sh = (r, sh') ->
  log sh' = log sh /\
  ((r = inl (StorageError "storage fault") /\ In true fs /\ tables sh' = tables sh)
   \/ (r, tables sh') = update_outcome sh id status).
Proof.
  intros Hst. unfold exec, updateStatus, fresh. rewrite Hst.
  destruct (run 0 _ sh _) as [[r0 sh0] lo0] eqn:H. intros E. inversion E; subst r0 sh0.
  clear E. unfold findOne in H. change fs with (skipn 0 fs) in H.
  storage_step H 0%nat fs.
  { inversion H; subst. split; [reflexivity|]. left. eauto using hd_skipn_In. }
  unfold update_outcome.
  destruct (load_order (tables sh) id) as [o|]; tidy H.
  2:{ inversion H; subst. split; [reflexivity|]. right. reflexivity. }
  destruct (status_eqb (Order.status o) CANCELLED); tidy H.
  { inversion H; subst. split; [reflexivity|]. right. reflexivity. }
  rewrite run_call in H. cbn [handle] in H. unfold storage in H. tidy H.
  destruct (hd false (skipn 1 fs)) eqn:Hf.
  - inversion H; subst. split; [reflexivity|]. left. split; [reflexivity|].
    split; [|reflexivity]. eauto using hd_skipn_In.
  - inversion H; subst. split; [reflexivity|]. right. reflexivity.
Qed.

Lemma update_outcome_inventory sh id status r db' :
  update_outcome sh id status = (r, db') ->
  products db' = products (tables sh) /\ order_items db' = order_items (tables sh).
Proof.
  unfold update_outcome. destruct (load_order _ _) as [o|]; [|now inversion 1].
  destruct (status_eqb _ _); now inversion 1.
Qed.

End Update.

(** ** The stock invariant *)

Section Invariant.
Context {A : JsArith}.

Lemma create_preserves dto fs sh :
  dto_valid dto = true ->
  stock_ok (tables sh) /\ items_ok (tables sh) ->
  stock_ok (tables (snd (exec (create dto) fs sh))) /\
  items_ok (tables (snd (exec (create dto) fs sh))).
Proof.
  intros Hv [Hs Hi]. destruct (exec (create dto) fs sh) as [r sh'] eqn:H. simpl.
  apply exec_create in H. destruct H as (_ & [(_ & _ & ->) | H]); [now split|].
  destruct (create_outcome sh dto) as [[e|id] db'] eqn:Hout.
  - destruct H as [_ ->]. now split.
  - destruct H as [-> _].
    apply create_outcome_committed in Hout.
    destruct Hout as (t & new & (_ & _ & _ & Hitems & Hall & _) & Hok).
    split; [now apply Hok|].
    unfold items_ok. rewrite Hitems. apply Forall_app. split; [exact Hi|].
    unfold dto_valid in Hv. apply andb_true_iff in Hv. destruct Hv as [_ Hq].
    rewrite forallb_forall in Hq. clear - Hall Hq.
    induction Hall as [|l it lines new Hl _ IH]; constructor.
    + destruct Hl as (_ & _ & -> & _). apply Z.leb_le. apply Hq. now left.
    + apply IH. intros x Hx. apply Hq. now right.
Qed.

Lemma items_of_quantities db id :
  items_ok db -> Forall (fun it => 1 <= OrderItem.quantity it) (items_of db id).
Proof.
  unfold items_ok, items_of. rewrite !Forall_forall. intros H it Hin.
  apply filter_In in Hin. now apply H.
Qed.

Lemma cancel_preserves id fs sh :
  stock_ok (tables sh) /\ items_ok (tables sh) ->
  stock_ok (tables (snd (exec (cancel id) fs sh))) /\
  items_ok (tables (snd (exec (cancel id) fs sh))).
Proof.
  intros [Hs Hi]. destruct (exec (cancel id) fs sh) as [r sh'] eqn:H. simpl.
  apply exec_cancel in H. destruct H as [(_ & -> & _) | H]; [now split|].
  unfold cancel_outcome in H.
  destruct (load_order (tables sh) id) as [o|] eqn:Hload.
  2:{ destruct H as (_ & -> & _). now split. }
  destruct (negb _).
  { destruct H as (_ & -> & _). now split. }
  destruct H as (-> & _). split; [|exact Hi].
  unfold stock_ok. cbn [apply_write with_products products].
  apply restock_ok; [exact Hs|].
  unfold load_order in Hload. destruct (find_by Order.id id _); [|discriminate].
  inversion Hload; subst o. cbn [set_items Order.items]. now apply items_of_quantities.
Qed.

Lemma updateStatus_preserves id status fs sh :
  stock_ok (tables sh) /\ items_ok (tables sh) ->
  stock_ok (tables (snd (exec (updateStatus id status) fs sh))) /\
  items_ok (tables (snd (exec (updateStatus id status) fs sh))).
Proof.
  intros Hinv. destruct (status_eqb status CANCELLED) eqn:Hst.
  - unfold updateStatus. rewrite Hst. now apply cancel_preserves.
  - destruct (exec (updateStatus id status) fs sh) as [r sh'] eqn:H. simpl.
    apply (exec_updateStatus _ _ _ _ _ _ Hst) in H.
    destruct H as (_ & [(_ & _ & ->) | H]); [exact Hinv|].
    symmetry in H. apply update_outcome_inventory in H. destruct H as [Hp Hi].
    unfold stock_ok, items_ok. rewrite Hp, Hi. exact Hinv.
Qed.

Lemma engine_call_preserves sh sh' :
  engine_call sh sh' ->
  stock_ok (tables sh) /\ items_ok (tables sh) ->
  stock_ok (tables sh') /\ items_ok (tables sh').
Proof.
  intros [dto fs sh0 Hv | id fs sh0 | id status fs sh0].
  - now apply create_preserves.
  - apply cancel_preserves.
  - apply updateStatus_preserves.
Qed.

Lemma reachable_invariant sh :
  reachable sh -> stock_ok (tables sh) /\ items_ok (tables sh).
Proof.
  induction 1 as [sh (Hs & _ & Hi) | sh sh' _ IH Hcall].
  - split; [exact Hs|]. unfold items_ok. rewrite Hi. constructor.
  - eapply engine_call_preserves; eassumption.
Qed.

End Invariant.

(** ** From the tables to the order a method returns *)

Section Support.
Context {A : JsArith}.

(** With the foreign key in place, the items of a new order are the ones its
    [create] inserted. *)
Lemma items_of_new db db' id new :
  fk_ok db = true ->
  find_by Order.id id (orders db) = None ->
  order_items db' = order_items db ++ new ->
  Forall (fun it => OrderItem.orderId it = id) new ->
  items_of db' id = new.
Proof.
  intros Hfk Hfresh Hitems Hnew. unfold items_of. rewrite Hitems, filter_app.
  replace (filter _ (order_items db)) with (@nil OrderItem.t).
  - simpl. clear - Hnew. induction Hnew as [|it new Hit _ IH]; [reflexivity|].
    simpl. rewrite Hit, Z.eqb_refl. now f_equal.
  - symmetry. unfold fk_ok in Hfk. rewrite forallb_forall in Hfk.
    clear - Hfk Hfresh. induction (order_items db) as [|it l IH]; [reflexivity|].
    simpl. destruct (Z.eqb_spec (OrderItem.orderId it) id) as [E|E].
    + exfalso. specialize (Hfk it (or_introl eq_refl)).
      apply existsb_exists in Hfk. destruct Hfk as (o & Ho & Hk).
      apply Z.eqb_eq in Hk. eapply find_by_none in Hfresh; [|exact Ho]. congruence.
    + apply IH. intros x Hx. apply Hfk. now right.
Qed.

Lemma item_of_line_orderId P id lines new :
  Forall2 (item_of_line P id) lines new ->
  Forall (fun it => OrderItem.orderId it = id) new.
Proof.
  induction 1 as [|l it lines new (H & _) _ IH]; constructor; assumption.
Qed.

(** The order that [findOne] loads after a committed [create]. *)
Lemma load_order_all_committed dto db db' id t new :
  all_committed dto db db' id t new ->
  load_order db' id =
  Some (Order.mk id (CreateOrderDto.userId dto) t PENDING (items_of db' id)).
Proof.
  intros (_ & Horders & Hfresh & _). unfold load_order.
  rewrite Horders, find_by_app, Hfresh. unfold find_by. simpl.
  rewrite Z.eqb_refl. reflexivity.
Qed.

(** A request of one line that its product can serve. *)
Lemma create_outcome_single sh uid k q u p0 :
  find_by User.id uid (users (tables sh)) = Some u ->
  find_by Product.id k (products (tables sh)) = Some p0 ->
  Product.isAvailable p0 = true ->
  q <= Product.stock p0 ->
  exists id db',
    create_outcome sh (CreateOrderDto.mk uid [OrderItemDto.mk k q]) = (inr id, db') /\
    all_committed (CreateOrderDto.mk uid [OrderItemDto.mk k q]) (tables sh) db' id
      (plus (of_int 0) (times (Number (Product.price p0)) (of_int q)))
      [OrderItem.mk id k q (Product.price p0)].
Proof.
  intros Hu Hp Hav Hq.
  assert (exists id db',
            create_outcome sh (CreateOrderDto.mk uid [OrderItemDto.mk k q]) = (inr id, db'))
    as (id & db' & Hout).
  { unfold create_outcome. cbn [CreateOrderDto.userId CreateOrderDto.items].
    rewrite Hu. cbn [reserve_lines]. unfold in_transaction, vars0, Map_get.
    cbn [updatedProducts find OrderItemDto.productId]. rewrite Hp.
    unfold reserve_line. rewrite Hav. cbn [negb OrderItemDto.quantity].
    apply Z.ltb_ge in Hq. rewrite Hq. eauto. }
  exists id, db'. split; [exact Hout|].
  destruct (create_outcome_committed _ _ _ _ Hout) as (t & new & Hall & _).
  pose proof Hall as (_ & _ & _ & _ & Hnew & Ht & _).
  cbn [CreateOrderDto.items] in Hnew.
  inversion Hnew as [|l it ? ? Hit Hrest]; subst. inversion Hrest; subst.
  destruct Hit as (Hoid & Hpid & Hqty & p & Hp' & Hprice).
  cbn [OrderItemDto.productId OrderItemDto.quantity] in *.
  rewrite Hp in Hp'. inversion Hp'; subst p.
  assert (it = OrderItem.mk id k q (Product.price p0)) as ->.
  { destruct it. simpl in *. congruence. }
  exact Hall.
Qed.

End Support.

Section SupportCancel.
Context {A : JsArith}.

Lemma load_order_id db id o : load_order db id = Some o -> Order.id o = id.
Proof.
  unfold load_order. destruct (find_by Order.id id (orders db)) as [row|] eqn:E; [|discriminate].
  intros H. inversion H; subst. apply find_by_some in E. now destruct E.
Qed.

Lemma load_order_items db id o : load_order db id = Some o -> Order.items o = items_of db id.
Proof.
  unfold load_order. destruct (find_by Order.id id (orders db)); [|discriminate].
  intros H. now inversion H.
Qed.

(** Saving a loaded order with a new status: it is then loaded with that
    status and the same items. *)
Lemma load_order_saved db P id o status :
  load_order db id = Some o ->
  load_order (apply_write (with_products db P) (W_order (set_status o status))) id
  = Some (set_status o status).
Proof.
  intros H. pose proof (load_order_id _ _ _ H) as Hid.
  pose proof (load_order_items _ _ _ H) as Hitems.
  unfold load_order. cbn [apply_write with_products orders].
  rewrite find_by_upsert. unfold set_items at 1, set_status at 1. cbn [Order.id].
  rewrite Hid, Z.eqb_refl. f_equal.
  unfold items_of, with_products in *. cbn [order_items]. rewrite <- Hitems.
  destruct o; reflexivity.
Qed.

(** The tables a [cancel] of a PENDING order commits. *)
Lemma cancel_outcome_pending sh id o :
  load_order (tables sh) id = Some o ->
  Order.status o = PENDING ->
  exists db',
    cancel_outcome sh id = (inr (set_status o CANCELLED), db') /\
    load_order db' id = Some (set_status o CANCELLED) /\
    users db' = users (tables sh) /\
    order_items db' = order_items (tables sh) /\
    map Product.id (products db') = map Product.id (products (tables sh)) /\
    forall k, find_by Product.id k (products db') =
              option_map (restock_row (Order.items o) k)
                         (find_by Product.id k (products (tables sh))).
Proof.
  intros Hload Hst. unfold cancel_outcome. rewrite Hload, Hst. cbn [status_eqb negb].
  eexists. split; [reflexivity|]. split; [now apply load_order_saved|].
  cbn [apply_write with_products users order_items products].
  split; [reflexivity|]. split; [reflexivity|]. split; [apply restock_keys|].
  intros k. apply find_restock.
Qed.

Lemma with_products_id db P : with_products (with_products db P) P = with_products db P.
Proof. reflexivity. Qed.

End SupportCancel.

Section SupportSuccess.
Context {A : JsArith}.




End SupportSuccess.

Section SupportClaims.
Context {A : JsArith}.

(** Every run of [create], by what it leaves in the tables. *)
Lemma exec_create_cases dto fs sh r sh' :
  exec (create dto) fs sh = (r, sh') ->
  (exists e, r = inl e /\ tables sh' = tables sh /\
             (e = StorageError "storage fault" -> In true fs))
  \/ (exists id t new,
        all_committed dto (tables sh) (tables sh') id t new /\
        (r = inr (Order.mk id (CreateOrderDto.userId dto) t PENDING
                           (items_of (tables sh') id))
         \/ (r = inl (StorageError "storage fault") /\ In true fs))).
Proof.
  intros H. apply exec_create in H. destruct H as (_ & H).
  destruct H as [(-> & Hin & Ht) | H]; [left; eauto|].
  destruct (create_outcome sh dto) as [[e|id] db'] eqn:Hout.
  - destruct H as [-> Ht]. left. exists e. split; [reflexivity|]. split; [exact Ht|].
    intros ->. exfalso. unfold create_outcome in Hout.
    destruct (find_by User.id _ _); [|discriminate].
    destruct (reserve_lines _ _ _ _) as [e|] eqn:Hl; [|discriminate].
    inversion Hout; subst e. apply reserve_lines_error in Hl.
    destruct Hl as [Hl | (Hl & _)]; discriminate.
  - destruct H as [Ht Hr].
    destruct (create_outcome_committed _ _ _ _ Hout) as (t & new & Hall & _).
    rewrite <- Ht in Hall. right. exists id, t, new. split; [exact Hall|].
    destruct Hr as [(o & Ho & ->) | Hr]; [left | right; exact Hr].
    rewrite <- Ht in Ho. rewrite (load_order_all_committed _ _ _ _ _ _ Hall) in Ho.
    now inversion Ho.
Qed.

(** [cancel] of a PENDING order, without a fault. *)
Lemma exec_cancel_pending sh id o :
  load_order (tables sh) id = Some o ->
  Order.status o = PENDING ->
  exists sh',
    exec (cancel id) [] sh = (inr (set_status o CANCELLED), sh') /\
    load_order (tables sh') id = Some (set_status o CANCELLED) /\
    order_items (tables sh') = order_items (tables sh) /\
    map Product.id (products (tables sh')) = map Product.id (products (tables sh)) /\
    forall k, find_by Product.id k (products (tables sh')) =
              option_map (restock_row (Order.items o) k)
                         (find_by Product.id k (products (tables sh))).
Proof.
  intros Hload Hst.
  destruct (cancel_outcome_pending sh id o Hload Hst)
    as (db' & Hout & Hl & _ & Hi & Hk & Hp).
  pose proof (exec_cancel_nofault id sh) as H. rewrite Hout in H.
  destruct H as (sh' & H & Ht & _). exists sh'. rewrite Ht. auto 6.
Qed.

End SupportClaims.

(** ** The loop of [create] against the specification's words *)

Section Lines.
Context {A : JsArith}.

(** The value that the loop resolves for a product is the one the
    specification names: the row with the earlier lines reserved. *)
Lemma in_transaction_in_request P pre vars k :
  cache_inv P pre (updatedProducts vars) ->
  in_transaction P vars k = in_request P pre k.
Proof.
  intros (_ & _ & Hget). unfold in_transaction, in_request, reserve_row.
  rewrite (Hget k). destruct (mentions k pre).
  - destruct (find_by Product.id k P); reflexivity.
  - destruct (find_by Product.id k P); reflexivity.
Qed.

(** One line is refused by the loop when, and as, the specification says. *)
Lemma reserve_line_refusal P pre o vars l :
  match refusal P pre l with
  | Some e => reserve_line o vars l (in_request P pre (OrderItemDto.productId l)) = inl e
  | None => exists vars',
      reserve_line o vars l (in_request P pre (OrderItemDto.productId l)) = inr vars'
  end.
Proof.
  unfold refusal, reserve_line.
  destruct (in_request P pre (OrderItemDto.productId l)) as [p|]; [|reflexivity].
  destruct (negb (Product.isAvailable p)); [reflexivity|].
  destruct (Product.stock p <? OrderItemDto.quantity l); [reflexivity | eauto].
Qed.

Lemma reserve_lines_refusal P o lines : forall pre vars,
  cache_inv P pre (updatedProducts vars) ->
  match first_refusal P pre lines with
  | Some e => reserve_lines P o lines vars = inl e
  | None => exists vars', reserve_lines P o lines vars = inr vars'
  end.
Proof.
  induction lines as [|l lines IH]; intros pre vars Hinv; cbn [first_refusal reserve_lines].
  - eauto.
  - rewrite (in_transaction_in_request P pre vars _ Hinv).
    pose proof (reserve_line_refusal P pre o vars l) as Hl.
    destruct (refusal P pre l) as [e|].
    + rewrite Hl. reflexivity.
    + destruct Hl as (vars1 & Hl). rewrite Hl.
      rewrite <- (in_transaction_in_request P pre vars _ Hinv) in Hl.
      destruct (reserve_line_spec P o pre vars l vars1 Hinv Hl) as (Hinv1 & _).
      exact (IH (pre ++ [l]) vars1 Hinv1).
Qed.

(** [create] without a fault, for a user that is there: it fails with the
    first refusal and leaves the tables as they were, or no line is refused
    and it commits the order. *)
Lemma exec_create_refusal dto sh u :
  find_by User.id (CreateOrderDto.userId dto) (users (tables sh)) = Some u ->
  match first_refusal (products (tables sh)) [] (CreateOrderDto.items dto) with
  | Some e =>
      exists sh', exec (create dto) [] sh = (inl e, sh') /\ tables sh' = tables sh
  | None =>
      exists o sh' id t new,
        exec (create dto) [] sh = (inr o, sh') /\
        all_committed dto (tables sh) (tables sh') id t new /\
        o = Order.mk id (CreateOrderDto.userId dto) t PENDING (items_of (tables sh') id)
  end.
Proof.
  intros Hu. pose proof (exec_create_nofault dto sh) as Hex.
  unfold create_outcome in Hex. rewrite Hu in Hex.
  match type of Hex with context [reserve_lines ?P ?o ?l ?v] =>
    pose proof (reserve_lines_refusal P o l [] v (cache_inv_nil _)) as Hl;
    destruct (reserve_lines P o l v) as [e|vars] eqn:Hres end.
  - destruct (first_refusal _ _ _) as [e'|].
    + inversion Hl; subst e'. destruct Hex as (sh' & Hex & Ht & _). eauto.
    + destruct Hl as (? & Hl). discriminate.
  - destruct (first_refusal _ _ _) as [e'|]; [discriminate|].
    destruct Hex as (o & sh' & Hex & Hload & Ht & _).
    assert (create_outcome sh dto = (inr (Z.max (order_seq sh) (1 + max_id Order.id (orders (tables sh)))), tables sh')) as Hout.
    { unfold create_outcome. rewrite Hu, Hres, Ht. reflexivity. }
    destruct (create_outcome_committed _ _ _ _ Hout) as (t & new & Hall & _).
    exists o, sh'. eexists. exists t, new. split; [exact Hex|]. split; [exact Hall|].
    rewrite <- Ht in Hload.
    rewrite (load_order_all_committed _ _ _ _ _ _ Hall) in Hload. now inversion Hload.
Qed.


(** Two lines of one product: the second is checked against what the
    first has left. *)
Lemma first_refusal_twice P k q1 q2 p0 :
  find_by Product.id k P = Some p0 ->
  Product.isAvailable p0 = true ->
  q1 <= Product.stock p0 ->
  first_refusal P [] [OrderItemDto.mk k q1; OrderItemDto.mk k q2] =
  if Product.stock p0 - q1 >? 0
  then if Product.stock p0 - q1 <? q2
       then Some (BadRequestException ("Not enough stock for " ++ Product.name p0))
       else None
  else Some (BadRequestException ("Product " ++ Product.name p0 ++ " is not available")).
Proof.
  intros Hp Hav Hq. cbn [first_refusal app]. unfold refusal, in_request.
  cbn [OrderItemDto.productId OrderItemDto.quantity]. rewrite Hp. cbn [option_map].
  change (reserve_row [] k p0) with p0. rewrite Hav. cbn [negb].
  apply Z.ltb_ge in Hq. rewrite Hq.
  unfold reserve_row, mentions, reserved.
  cbn [existsb fold_right OrderItemDto.productId OrderItemDto.quantity].
  rewrite Z.eqb_refl. cbn [orb after_reserve Product.isAvailable Product.stock Product.name].
  rewrite Z.add_0_r.
  destruct (Product.stock p0 - q1 >? 0); [|reflexivity].
  cbn [negb]. destruct (Product.stock p0 - q1 <? q2); reflexivity.
Qed.

(** *** The locked reads of a request that goes through *)

Lemma run_lookup_product_reads tid vars id sh ws fs rs prod sh' lo' :
  run tid (lookup_product vars id) sh (mkLocal (Some ws) fs rs) = (inr prod, sh', lo') ->
  writes lo' = Some ws /\ (exists n, faults lo' = skipn n fs) /\
  tables sh' = tables sh /\
  prod = in_transaction (products (apply_writes (tables sh) ws)) vars id /\
  reads lo' = rs ++ match Map_get id (updatedProducts vars) with
                    | Some _ => []
                    | None => [ProductRow id]
                    end.
Proof.
  unfold lookup_product, in_transaction.
  destruct (Map_get id (updatedProducts vars)) as [p|] eqn:E.
  - cbn [run]. intros H. inversion H; subst. cbn [writes faults reads].
    rewrite app_nil_r. split; [reflexivity|]. split; [exists 0%nat; reflexivity|]. auto.
  - rewrite run_call. cbn [handle]. unfold storage. tidy_goal.
    destruct (hd false fs); [discriminate|].
    destruct (find_by Product.id id (products (apply_writes (tables sh) ws))) as [p|];
      intros H; inversion H; subst; cbn [writes faults reads];
      (split; [reflexivity|]); (split; [exists 1%nat; destruct fs; reflexivity|]);
      (split; [first [apply acquire_tables | reflexivity]|]); auto.
Qed.

Lemma reserve_line_cached o vars l p vars' :
  reserve_line o vars l (Some p) = inr vars' ->
  exists v, Product.id v = Product.id p /\
            updatedProducts vars' = Map_set (Product.id p) v (updatedProducts vars).
Proof.
  unfold reserve_line. destruct (negb _); [discriminate|]. destruct (_ <? _); [discriminate|].
  intros H. inversion H; subst. cbn [updatedProducts]. eexists. split; [|reflexivity].
  reflexivity.
Qed.

Lemma run_create_lines_reads tid o ws lines : forall pre vars sh fs rs vars' sh' lo',
  run tid (create_lines o lines vars) sh (mkLocal (Some ws) fs rs) = (inr vars', sh', lo') ->
  cached_as pre (updatedProducts vars) ->
  reads lo' = rs ++ first_mentions pre lines.
Proof.
  induction lines as [|l lines IH]; intros pre vars sh fs rs vars' sh' lo' Hrun Hc.
  - cbn [create_lines run] in Hrun. inversion Hrun; subst. cbn [reads first_mentions].
    now rewrite app_nil_r.
  - cbn [create_lines] in Hrun. unfold create_line in Hrun. rewrite !run_bind in Hrun.
    destruct (run tid (lookup_product vars (OrderItemDto.productId l)) sh
                  (mkLocal (Some ws) fs rs)) as [[[e|prod] sh1] lo1] eqn:Hlook;
      [discriminate|].
    pose proof (run_lookup_product_reads _ _ _ _ _ _ _ _ _ _ Hlook)
      as (Hw & (n & Hn) & Ht & Hprod & Hrs).
    rewrite run_lift in Hrun.
    destruct (reserve_line o vars l prod) as [e|vars1] eqn:Hres; [discriminate|].
    destruct lo1 as [w1 f1 r1]. cbn [writes faults reads] in Hw, Hn, Hrs. subst w1.
    destruct prod as [p|]; [|discriminate].
    destruct (reserve_line_cached _ _ _ _ _ Hres) as (v & Hv & Hcache).
    assert (Product.id p = OrderItemDto.productId l) as Hid.
    { symmetry in Hprod. unfold in_transaction in Hprod.
      destruct (Map_get _ (updatedProducts vars)) as [p'|] eqn:Hg.
      - inversion Hprod; subst p'. exact (proj2 Hc _ _ Hg).
      - apply find_by_some in Hprod. now destruct Hprod. }
    assert (cached_as (pre ++ [l]) (updatedProducts vars1)) as Hc1.
    { rewrite Hcache, Hid. destruct Hc as [Hnone Hsome]. split.
      - intros k. rewrite Map_get_set, mentions_app. cbn [mentions existsb].
        rewrite orb_false_r. destruct (OrderItemDto.productId l =? k).
        + rewrite orb_true_r. split; discriminate.
        + rewrite orb_false_r. apply Hnone.
      - intros k q. rewrite Map_get_set.
        destruct (Z.eqb_spec (OrderItemDto.productId l) k) as [E|E].
        + intros Hq. inversion Hq; subst q. congruence.
        + apply Hsome. }
    rewrite (IH _ _ _ _ _ _ _ _ Hrun Hc1), Hrs, <- app_assoc. f_equal.
    cbn [first_mentions]. f_equal.
    destruct (Map_get (OrderItemDto.productId l) (updatedProducts vars)) eqn:Hg.
    + destruct (mentions (OrderItemDto.productId l) pre) eqn:Hm; [reflexivity|].
      apply (proj1 Hc) in Hm. congruence.
    + apply (proj1 Hc) in Hg. rewrite Hg. reflexivity.
Qed.

Lemma run_create_transaction_reads tid dto sh fs id sh' lo' :
  run tid (create_transaction dto) sh (mkLocal (Some []) fs []) = (inr id, sh', lo') ->
  reads lo' = first_mentions [] (CreateOrderDto.items dto).
Proof.
  intros H. unfold create_transaction, usersService_findOne in H.
  change fs with (skipn 0 fs) in H.
  storage_step H 0%nat fs; [discriminate|].
  destruct (find_by User.id (CreateOrderDto.userId dto) (users (tables sh))) as [u|];
    tidy H; [|discriminate].
  storage_step H 1%nat fs; [discriminate|].
  rewrite run_bind in H.
  match type of H with context [run tid (create_lines ?o ?l ?v) ?s ?lo] =>
    destruct (run tid (create_lines o l v) s lo) as [[[e|vars] sh1] lo1] eqn:Hloop end;
    [discriminate|].
  pose proof Hloop as Hshape. apply run_create_lines in Hshape.
  destruct Hshape as (_ & _ & _ & (n2 & rs2 & Hlo & _) & _).
  apply (run_create_lines_reads _ _ _ _ []) in Hloop.
  2:{ split; [intros k; split; reflexivity | intros k p; discriminate]. }
  subst lo1. cbn [reads app] in Hloop. subst rs2.
  rewrite skipn_skipn in H.
  storage_step H (n2 + 2)%nat fs; [discriminate|].
  storage_step H (S (n2 + 2))%nat fs; [discriminate|].
  storage_step H (S (S (n2 + 2)))%nat fs; [discriminate|].
  storage_step H (S (S (S (n2 + 2))))%nat fs; [discriminate|].
  inversion H; subst. reflexivity.
Qed.

(** A [create] that answers an order has read and locked each product that
    the request names once, at its first mention. *)
Lemma exec_reads_create_ok dto fs sh o sh' :
  exec (create dto) fs sh = (inr o, sh') ->
  exec_reads (create dto) fs sh = first_mentions [] (CreateOrderDto.items dto).
Proof.
  unfold exec, exec_reads. rewrite run_create.
  destruct (hd false fs); [discriminate|].
  destruct (hd false (tl fs)); [discriminate|].
  destruct (run 0 (create_transaction dto) sh (mkLocal (Some []) (tl (tl fs)) []))
    as [[[e|id] sh1] lo1] eqn:Htx; [discriminate|].
  apply run_create_transaction_reads in Htx.
  destruct (hd false (faults lo1)); [discriminate|].
  destruct (run 0 (findOne id) sh1 (tick lo1)) as [[r2 sh2] lo2] eqn:Hr.
  apply run_findOne in Hr. destruct Hr as (_ & Hrs & _). intros _.
  rewrite Hrs. exact Htx.
Qed.

End Lines.

(** ** IEEE 754 arithmetic on a line of quantity 0 *)



Lemma finite_SF x :
  PrimFloat.is_finite x = true ->
  exists s, Prim2SF x = S754_zero s \/ exists m e, Prim2SF x = S754_finite s m e.
Proof.
  unfold PrimFloat.is_finite, PrimFloat.is_nan, PrimFloat.is_infinity.
  rewrite !FloatAxioms.eqb_spec, FloatAxioms.abs_spec.
  destruct (Prim2SF x) as [s|s| |s m e]; intros H.
  - exists s. now left.
  - exfalso. destruct s; vm_compute in H; discriminate.
  - exfalso. vm_compute in H. discriminate.
  - exists s. right. eauto.
Qed.

(** [x * 0] is a zero for a finite [x], and adding a zero to a number leaves
    a number that is equal to it ([===]). *)
Lemma times_zero_is_zero x :
  PrimFloat.is_finite x = true -> PrimFloat.is_zero (x * 0)%float = true.
Proof.
  intros H. destruct (finite_SF x H) as (s & [E | (m & e & E)]);
    unfold PrimFloat.is_zero; rewrite FloatAxioms.eqb_spec, FloatAxioms.mul_spec, E;
    destruct s; reflexivity.
Qed.


(** * The properties of the engine *)


(** ** C1: order creation is all or nothing *)




(** ** C2: the total and the prices of a committed order *)

(** C2.  For every order that [create] returns, whatever the arithmetic of
    amounts: the order is the one found in the tables afterwards, it is
    PENDING, its total is the sum over its items of price times quantity, added
    up from zero in the items' order, and every item carries the price of the
    product it names, as that product's row had it when the item was created
    and has it still.  In particular, in JavaScript's own arithmetic: one line
    (product 10, quantity 2) against a product with stock 5 and price 9.99,
    without a fault, gives a PENDING order of total 19.98 and leaves the
    product with stock 3, available. *)
Theorem create_total_and_prices :
  (forall (A : JsArith) dto fs (sh : Shared) o sh',
     fk_ok (tables sh) = true ->
     exec (create dto) fs sh = (inr o, sh') ->
     load_order (tables sh') (Order.id o) = Some o /\
     Order.status o = PENDING /\
     Order.total o = sum_items (Order.items o) /\
     Forall (fun it =>
               exists p p',
                 find_by Product.id (OrderItem.productId it) (products (tables sh)) = Some p /\
                 find_by Product.id (OrderItem.productId it) (products (tables sh')) = Some p' /\
                 OrderItem.price it = Product.price p /\
                 OrderItem.price it = Product.price p')
            (Order.items o))
  /\
  (forall (sh : @Shared ieee754) u p,
     fk_ok (tables sh) = true ->
     find_by User.id 1 (users (tables sh)) = Some u ->
     find_by Product.id 10 (products (tables sh)) = Some p ->
     Product.stock p = 5 -> Product.price p = 9.99%float -> Product.isAvailable p = true ->
     exists o sh' p',
       exec (create two_widgets) [] sh = (inr o, sh') /\
       Order.status o = PENDING /\
       Order.total o = 19.98%float /\
       find_by Product.id 10 (products (tables sh')) = Some p' /\
       Product.stock p' = 3 /\ Product.isAvailable p' = true).
Proof.
  split.
  - intros A dto fs sh o sh' Hfk H.
    destruct (exec_create_cases dto fs sh _ _ H) as [(e & He & _) | Hc];
      [discriminate|].
    destruct Hc as (id & t & new & Hall & [Hr | (Hr & _)]); [|discriminate].
    inversion Hr; subst o. clear Hr. cbn [Order.id Order.status Order.total Order.items].
    pose proof Hall as (_ & _ & Hfresh & Hitems & Hnew & Ht & _ & Hprod).
    rewrite (items_of_new _ _ _ _ Hfk Hfresh Hitems (item_of_line_orderId _ _ _ _ Hnew)).
    split; [|split; [reflexivity | split; [exact Ht|]]].
    + rewrite (load_order_all_committed _ _ _ _ _ _ Hall).
      now rewrite (items_of_new _ _ _ _ Hfk Hfresh Hitems (item_of_line_orderId _ _ _ _ Hnew)).
    + assert (Forall (fun it => exists l, item_of_line (products (tables sh)) id l it) new)
        as Hn by (clear - Hnew; induction Hnew; constructor; eauto).
      eapply Forall_impl; [|exact Hn]. intros it (l & Hl).
      destruct Hl as (_ & Hpid & _ & p & Hp & Hprice). rewrite Hpid.
      exists p. eexists. split; [exact Hp|]. split; [rewrite Hprod, Hp; reflexivity|].
      split; [exact Hprice|]. rewrite Hprice. unfold reserve_row.
      destruct (mentions _ _); reflexivity.
  - intros sh u p Hfk Hu Hp Hstock Hprice Hav.
    destruct (create_outcome_single sh 1 10 2 u p Hu Hp Hav ltac:(lia))
      as (id & db' & Hout & Hall).
    fold two_widgets in Hout, Hall.
    pose proof (exec_create_nofault two_widgets sh) as Hex. rewrite Hout in Hex.
    destruct Hex as (o & sh' & Hex & Hload & Ht & _).
    rewrite (load_order_all_committed _ _ _ _ _ _ Hall) in Hload. inversion Hload; subst o.
    pose proof Hall as (_ & _ & _ & _ & _ & _ & _ & Hprod).
    exists (Order.mk id (CreateOrderDto.userId two_widgets)
                     (plus (of_int 0) (times (Number (Product.price p)) (of_int 2)))
                     PENDING (items_of db' id)), sh', (reserve_row (CreateOrderDto.items two_widgets) 10 p).
    split; [exact Hex|]. split; [reflexivity|]. split.
    + cbn [Order.total]. rewrite Hprice. vm_compute. reflexivity.
    + rewrite Ht, Hprod, Hp. split; [reflexivity|].
      unfold reserve_row. cbn. rewrite Hstock. split; reflexivity.
Qed.

Lemma create_total_and_prices_witness :
  load_order (tables (snd (exec (create two_widgets) [] shop))) 1
    = Some (@Order.mk ieee754 1 1 19.98%float PENDING
              [@OrderItem.mk ieee754 1 10 2 9.99%float]) /\
  exists o sh' p',
    exec (create two_widgets) [] shop = (inr o, sh') /\
    Order.status o = PENDING /\
    Order.total o = 19.98%float /\
    find_by Product.id 10 (products (tables sh')) = Some p' /\
    Product.stock p' = 3 /\ Product.isAvailable p' = true.
Proof.
  destruct create_total_and_prices as [Hgeneral Hscenario]. split.
  - destruct (Hgeneral ieee754 two_widgets [] shop
                (@Order.mk ieee754 1 1 19.98%float PENDING
                   [@OrderItem.mk ieee754 1 10 2 9.99%float])
                (snd (exec (create two_widgets) [] shop))) as (Hload & _).
    + vm_compute. reflexivity.
    + vm_compute. reflexivity.
    + exact Hload.
  - apply (Hscenario shop (User.mk 1) widget); vm_compute; reflexivity.
Defined.

(** ** C3: the stock invariant *)

(** C3.  In every state that the engine reaches from products that obey I2
    and no order, by calls of [create] (with a request that passed the DTO
    layer's checks), [cancel] and [updateStatus], under any fault script, every
    product has a stock that is not negative and an [isAvailable] flag that says
    whether the stock is positive. *)
Theorem stock_invariant (A : JsArith) (sh : Shared) :
  reachable sh ->
  Forall (fun p => 0 <= Product.stock p /\ Product.isAvailable p = (Product.stock p >? 0))
         (products (tables sh)).
Proof.
  intros H. apply reachable_invariant in H. exact (proj1 H).
Qed.

Lemma shop_initial : initial shop.
Proof.
  split; [|split; reflexivity].
  unfold stock_ok, shop, widget. cbn [tables products].
  constructor; [|constructor]. split; [cbn; lia | reflexivity].
Qed.

Lemma stock_invariant_witness :
  reachable (snd (exec (cancel 1) [] (snd (exec (create two_widgets) [] shop)))) /\
  Forall (fun p => 0 <= Product.stock p /\ Product.isAvailable p = (Product.stock p >? 0))
    (products (tables (snd (exec (cancel 1) [] (snd (exec (create two_widgets) [] shop)))))).
Proof.
  assert (reachable (snd (exec (cancel 1) [] (snd (exec (create two_widgets) [] shop)))))
    as Hreach.
  { eapply reach_call; [eapply reach_call; [apply reach_initial, shop_initial|]|].
    - apply (call_create two_widgets [] shop). reflexivity.
    - apply (call_cancel 1 []). }
  split; [exact Hreach | exact (stock_invariant ieee754 _ Hreach)].
Defined.

(** ** C4: repeated products in one request *)

(** C4.  (a) In every run of [create] no product row is read, and locked,
    twice; and a run that answers an order has read and locked exactly the
    products that the request names, each once, at its first mention.  (b)
    Without a fault and for a user that is there, [create] does what the
    specification's loop says, line by line in the caller's order: each line is
    checked against the row of its product with the quantities of the earlier
    lines of the request taken from its stock ([first_refusal]); the first line
    that is refused fails the call with its exception and the tables are as
    they were; when none is refused the order is committed, one item per line,
    and every product is found with all that the request asks of it taken from
    its stock.  (c) Two lines of one product: when the first leaves less than
    the second asks, the call fails with BadRequestException "Not enough
    stock", although the second quantity alone fits into the stock of the row;
    when the second fits into what the first leaves, the order is committed and
    the product is left with its stock less both quantities.  (d) Hence a
    request that asks of some product more than its stock, over all its lines,
    fails with a BadRequestException and leaves the tables as they were (the
    user and every product named being there, and no call failing). *)
Theorem create_repeated_products :
  (forall (A : JsArith) dto fs (sh : Shared),
     NoDup (exec_reads (create dto) fs sh))
  /\
  (forall (A : JsArith) dto fs (sh : Shared) o sh',
     exec (create dto) fs sh = (inr o, sh') ->
     exec_reads (create dto) fs sh = first_mentions [] (CreateOrderDto.items dto))
  /\
  (forall (A : JsArith) dto (sh : Shared) u,
     find_by User.id (CreateOrderDto.userId dto) (users (tables sh)) = Some u ->
     match first_refusal (products (tables sh)) [] (CreateOrderDto.items dto) with
     | Some e =>
         exists sh', exec (create dto) [] sh = (inl e, sh') /\ tables sh' = tables sh
     | None =>
         exists o sh' id t new,
           exec (create dto) [] sh = (inr o, sh') /\
           all_committed dto (tables sh) (tables sh') id t new
     end)
  /\
  (forall (A : JsArith) (sh : Shared) uid k q1 q2 u p0,
     find_by User.id uid (users (tables sh)) = Some u ->
     find_by Product.id k (products (tables sh)) = Some p0 ->
     Product.isAvailable p0 = true ->
     q1 < Product.stock p0 ->
     (Product.stock p0 - q1 < q2 ->
      exists sh',
        exec (create (CreateOrderDto.mk uid [OrderItemDto.mk k q1; OrderItemDto.mk k q2]))
             [] sh
          = (inl (BadRequestException ("Not enough stock for " ++ Product.name p0)), sh') /\
        tables sh' = tables sh)
     /\
     (q2 <= Product.stock p0 - q1 ->
      exists o sh' p',
        exec (create (CreateOrderDto.mk uid [OrderItemDto.mk k q1; OrderItemDto.mk k q2]))
             [] sh = (inr o, sh') /\
        order_items (tables sh')
          = order_items (tables sh)
            ++ [OrderItem.mk (Order.id o) k q1 (Product.price p0);
                OrderItem.mk (Order.id o) k q2 (Product.price p0)] /\
        find_by Product.id k (products (tables sh')) = Some p' /\
        Product.stock p' = Product.stock p0 - q1 - q2))
  /\
  (forall (A : JsArith) dto (sh : Shared) u k p0,
     find_by User.id (CreateOrderDto.userId dto) (users (tables sh)) = Some u ->
     (forall l, In l (CreateOrderDto.items dto) ->
                find_by Product.id (OrderItemDto.productId l) (products (tables sh)) <> None) ->
     find_by Product.id k (products (tables sh)) = Some p0 ->
     mentions k (CreateOrderDto.items dto) = true ->
     Product.stock p0 < reserved k (CreateOrderDto.items dto) ->
     exists message sh',
       exec (create dto) [] sh = (inl (BadRequestException message), sh') /\
       tables sh' = tables sh).
Proof.
  split; [|split; [|split; [|split]]].
  - intros A dto fs sh. apply exec_reads_create.
  - intros A dto fs sh o sh'. apply exec_reads_create_ok.
  - intros A dto sh u Hu. pose proof (exec_create_refusal dto sh u Hu) as H.
    destruct (first_refusal _ _ _); [exact H|].
    destruct H as (o & sh' & id & t & new & Hex & Hall & _). eauto 8.
  - intros A sh uid k q1 q2 u p0 Hu Hp Hav Hq1.
    pose proof (exec_create_refusal
                  (CreateOrderDto.mk uid [OrderItemDto.mk k q1; OrderItemDto.mk k q2])
                  sh u Hu) as H.
    cbn [CreateOrderDto.items] in H.
    rewrite (first_refusal_twice _ k q1 q2 p0 Hp Hav ltac:(lia)) in H.
    assert ((Product.stock p0 - q1 >? 0) = true) as Hleft by (apply Z.gtb_lt; lia).
    rewrite Hleft in H. split.
    + intros Hlt. apply Z.ltb_lt in Hlt. rewrite Hlt in H. exact H.
    + intros Hfit. apply Z.ltb_ge in Hfit. rewrite Hfit in H.
      destruct H as (o & sh' & id & t & new & Hex & Hall & Ho).
      pose proof Hall as (_ & _ & Hfresh & Hitems & Hnew & _ & _ & Hprod).
      exists o, sh'. eexists. split; [exact Hex|]. split; [|split].
      * subst o. cbn [Order.id CreateOrderDto.items] in *. rewrite Hitems. f_equal.
        inversion Hnew as [|l1 it1 ? ? H1 Hrest]; subst.
        inversion Hrest as [|l2 it2 ? ? H2 Hnil]; subst. inversion Hnil; subst.
        destruct H1 as (E1 & E2 & E3 & p1 & Hp1 & E4).
        destruct H2 as (F1 & F2 & F3 & p2 & Hp2 & F4).
        cbn [OrderItemDto.productId OrderItemDto.quantity] in *.
        rewrite Hp in Hp1, Hp2. inversion Hp1; subst p1. inversion Hp2; subst p2.
        destruct it1, it2. cbn in *. congruence.
      * rewrite Hprod, Hp. reflexivity.
      * unfold reserve_row, mentions, reserved.
        cbn [existsb fold_right OrderItemDto.productId OrderItemDto.quantity
             CreateOrderDto.items].
        rewrite Z.eqb_refl. cbn [orb after_reserve Product.stock]. lia.
  - intros A dto sh u k p0 Hu Hall Hk Hm Hover.
    pose proof (exec_create_nofault dto sh) as Hex.
    unfold create_outcome in Hex. rewrite Hu in Hex.
    destruct (reserve_lines _ _ _ _) as [e|vars] eqn:Hl.
    + destruct Hex as (sh' & Hex & Ht & _).
      apply reserve_lines_error in Hl. destruct Hl as [Hb | (_ & l & Hin & Hnone)].
      * destruct e; try discriminate. eauto.
      * exfalso. exact (Hall l Hin Hnone).
    + exfalso.
      destruct (reserve_lines_spec _ _ _ [] vars0 _ (cache_inv_nil _) Hl) as ((_ & Hwf & Hget) & _).
      cbn [app] in Hget. specialize (Hget k). rewrite Hm, Hk in Hget. simpl in Hget.
      apply Map_get_In in Hget. apply Hwf in Hget. destruct Hget as [_ Hstock].
      simpl in Hstock. lia.
Qed.

Lemma create_repeated_products_witness :
  NoDup (exec_reads (create three_and_three) [] shop) /\
  exec_reads (create one_and_two) [] shop = [ProductRow 10] /\
  (exists sh',
     exec (create three_and_three) [] shop
       = (inl (BadRequestException "Not enough stock for Widget"), sh') /\
     tables sh' = tables shop) /\
  (exists o sh' id t new,
     exec (create one_and_two) [] shop = (inr o, sh') /\
     all_committed one_and_two (tables shop) (tables sh') id t new) /\
  (exists o sh' p',
     exec (create one_and_two) [] shop = (inr o, sh') /\
     order_items (tables sh')
       = order_items (tables shop)
         ++ [OrderItem.mk (Order.id o) 10 1 (Product.price widget);
             OrderItem.mk (Order.id o) 10 2 (Product.price widget)] /\
     find_by Product.id 10 (products (tables sh')) = Some p' /\
     Product.stock p' = 5 - 1 - 2) /\
  exists message sh',
    exec (create three_and_three) [] shop = (inl (BadRequestException message), sh') /\
    tables sh' = tables shop.
Proof.
  destruct create_repeated_products as (Hnodup & Hreads & Hspec & Htwice & Hover).
  split; [apply Hnodup|]. split; [|split; [|split; [|split]]].
  - destruct (exec (create one_and_two) [] shop) as [[e|o] sh'] eqn:E;
      [vm_compute in E; discriminate|].
    rewrite (Hreads ieee754 one_and_two [] shop o sh' E). reflexivity.
  - exact (Hspec ieee754 three_and_three shop (User.mk 1) eq_refl).
  - exact (Hspec ieee754 one_and_two shop (User.mk 1) eq_refl).
  - destruct (Htwice ieee754 shop 1 10 1 2 (User.mk 1) widget) as [_ Hfit];
      [reflexivity | reflexivity | reflexivity | cbn; lia |].
    apply Hfit. cbn. lia.
  - apply (Hover ieee754 three_and_three shop (User.mk 1) 10 widget).
    + reflexivity.
    + intros l [<- | [<- | []]]; discriminate.
    + reflexivity.
    + reflexivity.
    + vm_compute. reflexivity.
Defined.

(** ** C5: cancellation *)

(** C5.  Without a fault: cancelling an order that is PENDING answers the
    order with status CANCELLED, which is how it is found afterwards; every
    product is found with the quantities of the order's items of that product
    added to its stock (and available, when an item names it), no product row
    is added or removed, and the items are untouched.  Cancelling an order in
    any other status fails with BadRequestException
    "Only pending orders can be cancelled" and leaves the tables as they were.
    So a second cancel of the same order fails and restocks nothing. *)
Theorem cancel_pending_only :
  (forall (A : JsArith) (sh : Shared) id o,
     load_order (tables sh) id = Some o ->
     Order.status o = PENDING ->
     exists sh',
       exec (cancel id) [] sh = (inr (set_status o CANCELLED), sh') /\
       load_order (tables sh') id = Some (set_status o CANCELLED) /\
       order_items (tables sh') = order_items (tables sh) /\
       map Product.id (products (tables sh')) = map Product.id (products (tables sh)) /\
       forall k, find_by Product.id k (products (tables sh')) =
                 option_map (restock_row (Order.items o) k)
                            (find_by Product.id k (products (tables sh))))
  /\
  (forall (A : JsArith) (sh : Shared) id o,
     load_order (tables sh) id = Some o ->
     Order.status o <> PENDING ->
     exists sh',
       exec (cancel id) [] sh
         = (inl (BadRequestException "Only pending orders can be cancelled"), sh') /\
       tables sh' = tables sh)
  /\
  (forall (A : JsArith) (sh : Shared) id o sh',
     exec (cancel id) [] sh = (inr o, sh') ->
     exists sh'',
       exec (cancel id) [] sh'
         = (inl (BadRequestException "Only pending orders can be cancelled"), sh'') /\
       tables sh'' = tables sh').
Proof.
  assert (forall (A : JsArith) (sh : Shared) id o,
            load_order (tables sh) id = Some o ->
            Order.status o <> PENDING ->
            exists sh',
              exec (cancel id) [] sh
                = (inl (BadRequestException "Only pending orders can be cancelled"), sh') /\
              tables sh' = tables sh) as Hnot.
  { intros A sh id o Hload Hst.
    pose proof (exec_cancel_nofault id sh) as H. unfold cancel_outcome in H.
    rewrite Hload in H.
    assert (status_eqb (Order.status o) PENDING = false) as E.
    { destruct (Order.status o); try reflexivity. contradiction. }
    rewrite E in H. cbn [negb] in H. destruct H as (sh' & H & Ht & _). eauto. }
  split; [|split; [exact Hnot|]].
  - intros A sh id o Hload Hst. now apply exec_cancel_pending.
  - intros A sh id o sh' H.
    pose proof (exec_cancel_nofault id sh) as Hc. rewrite H in Hc.
    unfold cancel_outcome in Hc.
    destruct (load_order (tables sh) id) as [o0|] eqn:Hload.
    2:{ destruct Hc as (? & Hc & _). discriminate. }
    destruct (negb (status_eqb (Order.status o0) PENDING)) eqn:Hst.
    { destruct Hc as (? & Hc & _). discriminate. }
    destruct Hc as (sh2 & Hc & Ht & _). inversion Hc; subst o sh2.
    apply (Hnot A sh' id (set_status o0 CANCELLED)).
    + rewrite Ht. now apply load_order_saved.
    + discriminate.
Qed.

Lemma cancel_pending_only_witness :
  let sh1 := snd (exec (create two_widgets) [] shop) in
  let sh2 := snd (exec (cancel 1) [] sh1) in
  (exists o, fst (exec (cancel 1) [] sh1) = inr o /\ Order.status o = CANCELLED) /\
  map Product.stock (products (tables sh1)) = [3] /\
  find_by Product.id 10 (products (tables sh2))
    = Some (@Product.mk ieee754 10 "Widget" 9.99%float 5 true) /\
  exists sh3,
    exec (cancel 1) [] sh2
      = (inl (BadRequestException "Only pending orders can be cancelled"), sh3) /\
    tables sh3 = tables sh2.
Proof.
  destruct cancel_pending_only as (Hpending & _ & Htwice).
  destruct (Hpending ieee754 (snd (exec (create two_widgets) [] shop)) 1
              (@Order.mk ieee754 1 1 19.98%float PENDING
                 [@OrderItem.mk ieee754 1 10 2 9.99%float]))
    as (sh' & Hex & _ & _ & _ & Hstock).
  { vm_compute. reflexivity. }
  { reflexivity. }
  cbv zeta. rewrite Hex. cbn [fst snd]. split; [eexists; split; reflexivity|].
  split; [vm_compute; reflexivity|]. split.
  - rewrite Hstock. vm_compute. reflexivity.
  - exact (Htwice ieee754 _ 1 _ sh' Hex).
Defined.

(** ** C6: what a failure inside a transaction comes to *)

(** C6, on the code.  Let [connect] and [startTransaction] go through and
    let the [try] block throw [e], with the rollback and the release that
    follow going through.  [cancel] then does what the policy asks: the tables
    are as they were, the exception is logged, and the caller gets [e] itself
    when it is one of the service's own exceptions (NotFound, BadRequest) and
    InternalServerErrorException "Failed to cancel order" otherwise.  [create]
    does not: the tables are as they were, but nothing is logged and the
    caller gets [e] itself, a storage fault as much as a NotFound or a
    BadRequest.  And when the rollback itself fails, [cancel] too ends with the
    storage fault of the rollback, before it has logged anything. *)
Theorem error_policy :
  (forall (A : JsArith) id fs (sh : Shared) e sh1 lo1,
     run 0 (cancel_transaction id) sh (mkLocal (Some []) fs []) = (inl e, sh1, lo1) ->
     next_two_pass (faults lo1) = true ->
     exists sh',
       exec (cancel id) (false :: false :: fs) sh
         = (inl (if instanceof_HttpException e then e
                 else InternalServerErrorException "Failed to cancel order"), sh') /\
       tables sh' = tables sh /\
       log sh' = log sh ++ [("Failed to cancel order"%string, exception_message e)])
  /\
  (forall (A : JsArith) dto fs (sh : Shared) e sh1 lo1,
     run 0 (create_transaction dto) sh (mkLocal (Some []) fs []) = (inl e, sh1, lo1) ->
     next_two_pass (faults lo1) = true ->
     exists sh',
       exec (create dto) (false :: false :: fs) sh = (inl e, sh') /\
       tables sh' = tables sh /\ log sh' = log sh)
  /\
  (forall (A : JsArith) id fs (sh : Shared) e sh1 lo1,
     run 0 (cancel_transaction id) sh (mkLocal (Some []) fs []) = (inl e, sh1, lo1) ->
     hd false (faults lo1) = true ->
     exists sh',
       exec (cancel id) (false :: false :: fs) sh
         = (inl (StorageError "storage fault"), sh') /\
       tables sh' = tables sh /\ log sh' = log sh).
Proof.
  split; [|split].
  - intros A id fs sh e sh1 lo1 Htx Hpass.
    unfold next_two_pass in Hpass. apply andb_true_iff in Hpass.
    destruct Hpass as [F1 F2]. apply negb_true_iff in F1, F2.
    unfold exec. rewrite run_cancel. cbn [hd tl]. rewrite Htx, F1, F2.
    eexists. split; [reflexivity|]. cbn [logged tables log release_locks].
    change fs with (skipn 0 fs) in Htx. apply run_cancel_transaction in Htx.
    destruct Htx as (Hg & _ & Hcase). rewrite Hg. split; [|reflexivity].
    destruct Hcase as [(_ & _ & Ht) | Hout]; [exact Ht|].
    symmetry in Hout. now apply cancel_outcome_error in Hout.
  - intros A dto fs sh e sh1 lo1 Htx Hpass.
    unfold next_two_pass in Hpass. apply andb_true_iff in Hpass.
    destruct Hpass as [F1 F2]. apply negb_true_iff in F1, F2.
    unfold exec. rewrite run_create. cbn [hd tl]. rewrite Htx, F1, F2. cbn [orb].
    eexists. split; [reflexivity|]. cbn [tables log release_locks].
    change fs with (skipn 0 fs) in Htx. apply run_create_transaction in Htx.
    destruct Htx as (Hg & _ & _ & Hcase). split; [|exact Hg].
    destruct Hcase as [(_ & _ & Ht) | (Hout & _)]; [exact Ht|].
    symmetry in Hout. now apply create_outcome_error in Hout.
  - intros A id fs sh e sh1 lo1 Htx F1.
    unfold exec. rewrite run_cancel. cbn [hd tl]. rewrite Htx, F1.
    eexists. split; [reflexivity|]. cbn [tables log release_locks].
    change fs with (skipn 0 fs) in Htx. apply run_cancel_transaction in Htx.
    destruct Htx as (Hg & _ & Hcase). split; [|exact Hg].
    destruct Hcase as [(_ & _ & Ht) | Hout]; [exact Ht|].
    symmetry in Hout. now apply cancel_outcome_error in Hout.
Qed.

Lemma error_policy_witness :
  exec (cancel 7) fault_in_transaction shop
    = (inl (InternalServerErrorException "Failed to cancel order"),
       snd (exec (cancel 7) fault_in_transaction shop)) /\
  log (snd (exec (cancel 7) fault_in_transaction shop))
    = [("Failed to cancel order"%string, "storage fault"%string)] /\
  exec (create two_widgets) fault_in_transaction shop
    = (inl (StorageError "storage fault"),
       snd (exec (create two_widgets) fault_in_transaction shop)) /\
  log (snd (exec (create two_widgets) fault_in_transaction shop)) = [] /\
  ~ create_translates_faults ieee754.
Proof.
  destruct error_policy as (Hcancel & Hcreate & _).
  destruct (Hcancel ieee754 7 [true] shop (StorageError "storage fault")
              shop (mkLocal (Some []) [] [])) as (sh1 & H1 & _ & Hg1);
    [vm_compute; reflexivity | reflexivity |].
  destruct (Hcreate ieee754 two_widgets [true] shop (StorageError "storage fault")
              shop (mkLocal (Some []) [] [])) as (sh2 & H2 & _ & Hg2);
    [vm_compute; reflexivity | reflexivity |].
  unfold fault_in_transaction. rewrite H1, H2. cbn [snd instanceof_HttpException].
  split; [reflexivity|]. split; [exact Hg1|]. split; [reflexivity|]. split; [exact Hg2|].
  intros Hclaim. specialize (Hclaim _ _ _ _ _ H2). discriminate Hclaim.
Defined.

(** ** C8: status update *)

(** C8.  [updateStatus] to CANCELLED is [cancel]: the same program, so the
    same result in every run.  To any other status, without a fault: on an
    order that is CANCELLED it fails with BadRequestException
    "Cannot update a cancelled order" and changes nothing; on any other order
    it answers the order with the requested status, which is how the order is
    found afterwards.  And in every run, whatever fails, an update to a status
    other than CANCELLED leaves the product rows and the item rows as they
    were. *)
Theorem updateStatus_contract :
  (forall (A : JsArith) id, updateStatus id CANCELLED = cancel id)
  /\
  (forall (A : JsArith) id fs (sh : Shared),
     exec (updateStatus id CANCELLED) fs sh = exec (cancel id) fs sh)
  /\
  (forall (A : JsArith) id status (sh : Shared) o,
     status <> CANCELLED ->
     load_order (tables sh) id = Some o ->
     Order.status o = CANCELLED ->
     exec (updateStatus id status) [] sh
       = (inl (BadRequestException "Cannot update a cancelled order"), sh))
  /\
  (forall (A : JsArith) id status (sh : Shared) o,
     status <> CANCELLED ->
     load_order (tables sh) id = Some o ->
     Order.status o <> CANCELLED ->
     exists sh',
       exec (updateStatus id status) [] sh = (inr (set_status o status), sh') /\
       load_order (tables sh') id = Some (set_status o status) /\
       products (tables sh') = products (tables sh) /\
       order_items (tables sh') = order_items (tables sh))
  /\
  (forall (A : JsArith) id status fs (sh : Shared) r sh',
     status <> CANCELLED ->
     exec (updateStatus id status) fs sh = (r, sh') ->
     products (tables sh') = products (tables sh) /\
     order_items (tables sh') = order_items (tables sh)).
Proof.
  assert (forall s, s <> CANCELLED -> status_eqb s CANCELLED = false) as Hneq.
  { intros [| |x] Hs; try reflexivity. contradiction. }
  split; [reflexivity|]. split; [reflexivity|]. split; [|split].
  - intros A id status sh o Hst Hload Hcur.
    unfold exec, updateStatus, findOne, fresh. rewrite (Hneq _ Hst).
    rewrite !run_bind, run_call. cbn [handle]. unfold storage. tidy_goal. cbn [hd].
    rewrite Hload. tidy_goal. rewrite Hcur. cbn [status_eqb run]. reflexivity.
  - intros A id status sh o Hst Hload Hcur.
    unfold exec, updateStatus, findOne, fresh. rewrite (Hneq _ Hst).
    rewrite !run_bind, run_call. cbn [handle]. unfold storage. tidy_goal. cbn [hd].
    rewrite Hload. tidy_goal. rewrite (Hneq _ Hcur).
    rewrite run_call. cbn [handle]. unfold storage. tidy_goal. cbn [hd tl].
    eexists. split; [reflexivity|]. cbn [tables products order_items].
    split; [|split; reflexivity].
    rewrite <- (with_products_same (tables sh)) at 1.
    pose proof (load_order_saved (tables sh) (products (tables sh)) id o status Hload) as Hs.
    exact Hs.
  - intros A id status fs sh r sh' Hst H.
    apply (exec_updateStatus _ _ _ _ _ _ (Hneq _ Hst)) in H.
    destruct H as (_ & [(_ & _ & ->) | H]); [split; reflexivity|].
    symmetry in H. now apply update_outcome_inventory in H.
Qed.


Lemma updateStatus_contract_witness :
  let sh1 := snd (exec (create two_widgets) [] shop) in
  (exists sh2,
     exec (updateStatus 1 shipped_label) [] sh1
       = (inr (@Order.mk ieee754 1 1 19.98%float shipped_label
                 [@OrderItem.mk ieee754 1 10 2 9.99%float]), sh2) /\
     products (tables sh2) = products (tables sh1)) /\
  exec (updateStatus 1 shipped_label) [] (snd (exec (cancel 1) [] sh1))
    = (inl (BadRequestException "Cannot update a cancelled order"),
       snd (exec (cancel 1) [] sh1)).
Proof.
  destruct updateStatus_contract as (_ & _ & Hcancelled & Hother & _). split.
  - destruct (Hother ieee754 1 shipped_label (snd (exec (create two_widgets) [] shop))
                (@Order.mk ieee754 1 1 19.98%float PENDING
                   [@OrderItem.mk ieee754 1 10 2 9.99%float]))
      as (sh2 & Hex & _ & Hp & _).
    + discriminate.
    + vm_compute. reflexivity.
    + discriminate.
    + exists sh2. split; [exact Hex | exact Hp].
  - apply (Hcancelled ieee754 1 shipped_label _
             (@Order.mk ieee754 1 1 19.98%float CANCELLED
                [@OrderItem.mk ieee754 1 10 2 9.99%float])).
    + discriminate.
    + vm_compute. reflexivity.
    + reflexivity.
Defined.

(** ** C9: quantities that are not positive *)




(** ** C10: cancelling an order with several items of one product *)


(** C10.  The loop of [cancel] has no cache: when no call fails, its turns
    leave the transaction's product rows as [restock] of them, every turn
    reading the row as the turns before it left it and adding its item's
    quantity.  So cancelling a PENDING order restores, for a product that
    several of its items name, the sum of those items' quantities: the product
    is found with that sum added to its stock, and available. *)
Theorem cancel_restocks_every_item :
  (forall (A : JsArith) tid items (sh : Shared) ws rs,
     exists sh' ws' rs',
       run tid (cancel_items items) sh (mkLocal (Some ws) [] rs)
         = (inr tt, sh', mkLocal (Some (ws ++ ws')) [] rs') /\
       tables sh' = tables sh /\
       products (apply_writes (tables sh) (ws ++ ws'))
         = restock (products (apply_writes (tables sh) ws)) items)
  /\
  (forall (A : JsArith) (P : list Product.t) pre it,
     restock P (pre ++ [it]) = restock_item (restock P pre) it)
  /\
  (forall (A : JsArith) (P : list Product.t) it p,
     find_by Product.id (OrderItem.productId it) P = Some p ->
     find_by Product.id (OrderItem.productId it) (restock_item P it)
       = Some (Product.mk (Product.id p) (Product.name p) (Product.price p)
                          (Product.stock p + OrderItem.quantity it) true))
  /\
  (forall (A : JsArith) (sh : Shared) id o k p0,
     load_order (tables sh) id = Some o ->
     Order.status o = PENDING ->
     find_by Product.id k (products (tables sh)) = Some p0 ->
     referenced k (Order.items o) = true ->
     exists sh',
       exec (cancel id) [] sh = (inr (set_status o CANCELLED), sh') /\
       find_by Product.id k (products (tables sh'))
         = Some (Product.mk (Product.id p0) (Product.name p0) (Product.price p0)
                            (Product.stock p0 + returned k (Order.items o)) true))
  /\
  (forall (A : JsArith) k (it1 it2 : OrderItem.t),
     OrderItem.productId it1 = k -> OrderItem.productId it2 = k ->
     returned k [it1; it2] = OrderItem.quantity it1 + OrderItem.quantity it2).
Proof.
  split; [|split; [|split; [|split]]].
  - intros A tid items sh ws rs.
    destruct (run tid (cancel_items items) sh (mkLocal (Some ws) [] rs))
      as [[r sh'] lo'] eqn:H.
    change (@nil bool) with (skipn 0 (@nil bool)) in H. apply run_cancel_items in H.
    destruct H as (Ht & _ & _ & [(_ & []) | (-> & ws' & m & rs' & -> & Hw)]).
    exists sh', ws', rs'. rewrite skipn_nil. split; [reflexivity|]. split; [exact Ht|].
    rewrite apply_writes_app, Hw. reflexivity.
  - intros A P pre it. unfold restock. rewrite fold_left_app. reflexivity.
  - intros A P it p Hp. unfold restock_item. rewrite Hp, find_by_upsert.
    unfold set_isAvailable, set_stock. cbn [Product.id].
    apply find_by_some in Hp. destruct Hp as [_ ->]. rewrite Z.eqb_refl. reflexivity.
  - intros A sh id o k p0 Hload Hst Hp Href.
    destruct (exec_cancel_pending sh id o Hload Hst) as (sh' & Hex & _ & _ & _ & Hrows).
    exists sh'. split; [exact Hex|]. rewrite Hrows, Hp. unfold restock_row.
    rewrite Href. reflexivity.
  - intros A k it1 it2 H1 H2. unfold returned. cbn [fold_right].
    rewrite H1, H2, Z.eqb_refl. lia.
Qed.

Lemma cancel_restocks_every_item_witness :
  let sh1 := snd (exec (create one_and_two) [] shop) in
  map OrderItem.quantity (order_items (tables sh1)) = [1; 2] /\
  map Product.stock (products (tables sh1)) = [2] /\
  exists sh2,
    exec (cancel 1) [] sh1
      = (inr (@Order.mk ieee754 1 1 29.97%float CANCELLED
                [@OrderItem.mk ieee754 1 10 1 9.99%float;
                 @OrderItem.mk ieee754 1 10 2 9.99%float]), sh2) /\
    find_by Product.id 10 (products (tables sh2))
      = Some (@Product.mk ieee754 10 "Widget" 9.99%float 5 true).
Proof.
  destruct cancel_restocks_every_item as (_ & _ & _ & Hcancel & _).
  cbv zeta. split; [vm_compute; reflexivity|]. split; [vm_compute; reflexivity|].
  destruct (Hcancel ieee754 (snd (exec (create one_and_two) [] shop)) 1
              (@Order.mk ieee754 1 1 29.97%float PENDING
                 [@OrderItem.mk ieee754 1 10 1 9.99%float;
                  @OrderItem.mk ieee754 1 10 2 9.99%float])
              10 (@Product.mk ieee754 10 "Widget" 9.99%float 2 true))
    as (sh2 & Hex & Hfound).
  - vm_compute. reflexivity.
  - reflexivity.
  - vm_compute. reflexivity.
  - reflexivity.
  - exists sh2. split; [exact Hex|]. rewrite Hfound. vm_compute. reflexivity.
Defined.

(** * Requests in flight together *)

Section Interleaving.
Context `{JsArith}.

Lemma advance_step tid (c c' : Config) : advance tid c = Some c' -> step c c'.
Proof.
  destruct c as [sh qs]. unfold advance. cbn [fst snd].
  destruct (nth_error qs tid) as [q|] eqn:Hq; [|discriminate].
  destruct (program q) as [o|e|R c0 k] eqn:Hp; try discriminate.
  destruct (blocked tid c0 sh) eqn:Hb; [discriminate|].
  destruct (handle tid c0 sh (local q)) as [[r sh'] lo'] eqn:Hh.
  intros [= <-]. eapply step_call; eassumption.
Qed.

Lemma step_advance (c c' : Config) :
  step c c' -> exists tid, (tid < List.length (snd c))%nat /\ advance tid c = Some c'.
Proof.
  intros Hs. destruct Hs as [tid sh qs q R c0 k r sh' lo' Hq Hp Hb Hh].
  exists tid. split.
  - cbn [snd]. apply nth_error_Some. rewrite Hq. discriminate.
  - unfold advance. cbn [fst snd]. rewrite Hq, Hp, Hb, Hh. reflexivity.
Qed.

Lemma successors_step (c c' : Config) : In c' (successors c) <-> step c c'.
Proof.
  unfold successors. rewrite in_flat_map. split.
  - intros (tid & _ & Hin). destruct (advance tid c) as [c1|] eqn:Ha; [|destruct Hin].
    destruct Hin as [<- | []]. apply (advance_step tid). exact Ha.
  - intros Hs. destruct (step_advance _ _ Hs) as (tid & Hlt & Ha).
    exists tid. split; [apply in_seq; lia|]. rewrite Ha. left. reflexivity.
Qed.

Lemma successors_stuck (c : Config) : successors c = [] -> stuck c.
Proof.
  intros He c' Hs. apply successors_step in Hs. rewrite He in Hs. destruct Hs.
Qed.

Lemma run_schedule_steps s : forall (c c' : Config),
  run_schedule s c = Some c' -> steps (List.length s) c c'.
Proof.
  induction s as [|tid s IH]; intros c c'; cbn [run_schedule List.length].
  - intros [= <-]. constructor.
  - destruct (advance tid c) as [c1|] eqn:Ha; [|discriminate].
    intros Hr. econstructor; [apply (advance_step tid); exact Ha | apply IH; exact Hr].
Qed.

(** What the search has checked holds of every interleaving. *)
Lemma all_runs_sound ok fuel : forall (c : Config),
  all_runs fuel ok c = true ->
  forall n c', steps n c c' -> (n < fuel)%nat /\ (stuck c' -> ok c' = true).
Proof.
  induction fuel as [|fuel IH]; intros c Hall n c' Hsteps; [discriminate|].
  cbn [all_runs] in Hall.
  destruct Hsteps as [c | n c c1 c2 Hstep Hsteps].
  - split; [lia|]. intros Hstuck.
    destruct (successors c) as [|c1 l] eqn:Hsucc; [exact Hall|].
    exfalso. apply (Hstuck c1). apply successors_step. rewrite Hsucc. left. reflexivity.
  - apply successors_step in Hstep.
    destruct (successors c) as [|c0 l] eqn:Hsucc; [destruct Hstep|].
    rewrite forallb_forall in Hall.
    destruct (IH c1 (Hall c1 Hstep) n c2 Hsteps) as [Hlt Hok].
    split; [lia | exact Hok].
Qed.

End Interleaving.

Lemma last_unit_checked : all_runs 19 last_one_sold race = true.
Proof. vm_compute. reflexivity. Qed.

Lemma told_unavailable_eq e : told_unavailable e = true -> e = unavailable.
Proof.
  destruct e as [m|m|m|m]; cbn [told_unavailable]; try discriminate.
  intros Hm. apply String.eqb_eq in Hm. rewrite Hm. reflexivity.
Qed.

Lemma sold_as_spec o c :
  sold_as o c = true ->
  Order.status o = PENDING /\
  map (fun p => (Product.stock p, Product.isAvailable p)) (products (tables (fst c)))
    = [(0, false)] /\
  map Order.id (orders (tables (fst c))) = [Order.id o] /\
  placed c = [(Order.id o, 1)].
Proof.
  unfold sold_as. intros Hs.
  apply andb_prop in Hs. destruct Hs as [Hs Hplaced].
  apply andb_prop in Hs. destruct Hs as [Hs Hids].
  apply andb_prop in Hs. destruct Hs as [Hst Hprod].
  split; [|split; [|split]].
  - destruct (Order.status o); try discriminate. reflexivity.
  - destruct (products (tables (fst c))) as [|p [|p' l]]; try discriminate.
    apply andb_prop in Hprod. destruct Hprod as [H0 Hav]. apply Z.eqb_eq in H0.
    cbn [map]. rewrite H0. destruct (Product.isAvailable p); [discriminate|reflexivity].
  - destruct (map Order.id (orders (tables (fst c)))) as [|i [|i' l]]; try discriminate.
    apply Z.eqb_eq in Hids. rewrite Hids. reflexivity.
  - destruct (placed c) as [|[i q] [|x l]]; try discriminate.
    apply andb_prop in Hplaced. destruct Hplaced as [Hi Hq].
    apply Z.eqb_eq in Hi. apply Z.eqb_eq in Hq. rewrite Hi, Hq. reflexivity.
Qed.

Lemma last_one_sold_spec c :
  last_one_sold c = true ->
  exists o,
    (map outcome (snd c) = [Some (inr o); Some (inl unavailable)] /\ Order.userId o = 1 \/
     map outcome (snd c) = [Some (inl unavailable); Some (inr o)] /\ Order.userId o = 2) /\
    sold_as o c = true.
Proof.
  unfold last_one_sold.
  destruct (map outcome (snd c)) as [|[[e1|o1]|] [|[[e2|o2]|] [|x l]]]; try discriminate.
  - intros Hs. apply andb_prop in Hs. destruct Hs as [Hs Hsold].
    apply andb_prop in Hs. destruct Hs as [Hu He].
    apply Z.eqb_eq in Hu. apply told_unavailable_eq in He. subst e1.
    exists o2. split; [right; split; [reflexivity | exact Hu] | exact Hsold].
  - intros Hs. apply andb_prop in Hs. destruct Hs as [Hs Hsold].
    apply andb_prop in Hs. destruct Hs as [Hu He].
    apply Z.eqb_eq in Hu. apply told_unavailable_eq in He. subst e2.
    exists o1. split; [left; split; [reflexivity | exact Hu] | exact Hsold].
Qed.

Lemma one_then_two_runs :
  run_schedule one_then_two race = Some after_one_then_two.
Proof. vm_compute. reflexivity. Qed.

Lemma after_one_then_two_stuck : stuck after_one_then_two.
Proof. apply successors_stuck. vm_compute. reflexivity. Qed.


(** * Requests that hold their products *)

Section Rely.
Context `{JsArith}.
Variable db0 : DB.

Lemma guarantee_refl tid sh : guarantee tid sh sh.
Proof. split; intros; [tauto | reflexivity]. Qed.

Lemma safe_bind {X Y} tid (p : Prog X) (f : X -> Prog Y) Q Q' E : forall sh lo,
  safe db0 tid p Q E sh lo ->
  (forall a sh lo, Q a sh lo -> safe db0 tid (f a) Q' E sh lo) ->
  safe db0 tid (bind p f) Q' E sh lo.
Proof.
  induction p as [a|e|R c k IH]; intros sh lo Hp Hf; cbn [bind safe] in *.
  - apply Hf. exact Hp.
  - exact Hp.
  - destruct Hp as (B & Hst & HB & Hstep). exists B. split; [exact Hst|]. split; [exact HB|].
    intros sh1 lo1 r sh' lo' Hs HB1 Hb Hh.
    destruct (Hstep sh1 lo1 r sh' lo' Hs HB1 Hb Hh) as (Hs' & Hg & Hk).
    split; [exact Hs'|]. split; [exact Hg|]. apply IH; assumption.
Qed.

Lemma safe_try_catch {X} tid (p : Prog X) (h : Exception -> Prog X) Q E E' : forall sh lo,
  safe db0 tid p Q E sh lo ->
  (forall e sh lo, E e sh lo -> safe db0 tid (h e) Q E' sh lo) ->
  safe db0 tid (try_catch p h) Q E' sh lo.
Proof.
  induction p as [a|e|R c k IH]; intros sh lo Hp Hh; cbn [try_catch safe] in *.
  - exact Hp.
  - apply Hh. exact Hp.
  - destruct Hp as (B & Hst & HB & Hstep). exists B. split; [exact Hst|]. split; [exact HB|].
    intros sh1 lo1 r sh' lo' Hs HB1 Hb Hhd.
    destruct (Hstep sh1 lo1 r sh' lo' Hs HB1 Hb Hhd) as (Hs' & Hg & Hk).
    split; [exact Hs'|]. split; [exact Hg|]. apply IH; assumption.
Qed.

Lemma safe_call {R} tid (c : Call R) (B : Assn) Q E sh lo :
  stable tid B -> B sh lo ->
  (forall sh1 lo1 r sh' lo',
     sound db0 sh1 -> B sh1 lo1 -> blocked tid c sh1 = false ->
     handle tid c sh1 lo1 = (r, sh', lo') ->
     sound db0 sh' /\ guarantee tid sh1 sh' /\
     match r with
     | inl e => E e sh' lo'
     | inr v => Q v sh' lo'
     end) ->
  safe db0 tid (call c) Q E sh lo.
Proof.
  intros Hst HB Hstep. unfold call. cbn [safe]. exists B.
  split; [exact Hst|]. split; [exact HB|].
  intros sh1 lo1 r sh' lo' Hs HB1 Hb Hh.
  destruct (Hstep sh1 lo1 r sh' lo' Hs HB1 Hb Hh) as (Hs' & Hg & Hr).
  split; [exact Hs'|]. split; [exact Hg|]. destruct r; exact Hr.
Qed.

(** What the other requests do leaves a request safe. *)
Lemma safe_stable tid t (p : Prog Order.t) sh sh' lo :
  t <> tid -> guarantee t sh sh' ->
  safe db0 tid p anything anything sh lo -> safe db0 tid p anything anything sh' lo.
Proof.
  intros Hne Hg. destruct p as [a|e|R c k]; cbn [safe]; [exact (fun x => x) .. |].
  intros (B & Hst & HB & Hstep). exists B. split; [exact Hst|].
  split; [exact (Hst t sh sh' lo Hne Hg HB) | exact Hstep].
Qed.

Lemma nth_error_replace_nth {X} (l : list X) : forall n m x,
  nth_error (replace_nth n x l) m =
  if Nat.eqb n m then option_map (fun _ => x) (nth_error l m) else nth_error l m.
Proof.
  induction l as [|y l IH]; intros n m x.
  - destruct n, m; cbn; try reflexivity; destruct (Nat.eqb n m); reflexivity.
  - destruct n, m; cbn; try reflexivity. apply IH.
Qed.

Lemma step_all_safe (c c' : Config) : step c c' -> all_safe db0 c -> all_safe db0 c'.
Proof.
  intros Hstep [Hs Hall].
  destruct Hstep as [tid sh qs q R c0 k r sh' lo' Hq Hp Hb Hh]. cbn [fst snd] in *.
  pose proof (Hall tid q Hq) as Hsafe. rewrite Hp in Hsafe. cbn [safe] in Hsafe.
  destruct Hsafe as (B & Hst & HB & Hcall).
  destruct (Hcall sh (local q) r sh' lo' Hs HB Hb Hh) as (Hs' & Hg & Hk).
  split; [exact Hs'|]. cbn [fst snd].
  intros t q'. rewrite nth_error_replace_nth.
  destruct (Nat.eqb_spec tid t) as [<- | Hne].
  - rewrite Hq. cbn [option_map]. intros [= <-]. exact Hk.
  - intros Hq'. apply (safe_stable t tid _ sh sh'); [congruence | exact Hg |].
    apply Hall. exact Hq'.
Qed.

Lemma steps_all_safe n : forall (c c' : Config),
  steps n c c' -> all_safe db0 c -> all_safe db0 c'.
Proof.
  induction n as [|n IH]; intros c c' Hsteps Hall; inversion Hsteps; subst.
  - exact Hall.
  - eapply IH; [eassumption|]. eapply step_all_safe; eassumption.
Qed.

End Rely.

Section Locks.
Context `{JsArith}.
Variable db0 : DB.

Lemma RowRef_eqb_eq a b : RowRef_eqb a b = true <-> a = b.
Proof.
  destruct a, b; cbn [RowRef_eqb]; rewrite ?Z.eqb_eq; split; intros E;
    try discriminate; congruence.
Qed.

Lemma not_held_by_other tid r ls t :
  held_by_other tid r ls = false -> In (r, t) ls -> t = tid.
Proof.
  unfold held_by_other. intros Hh Hin.
  destruct (Nat.eqb_spec t tid) as [E|E]; [exact E|]. exfalso.
  assert (existsb (fun l => RowRef_eqb (fst l) r && negb (Nat.eqb (snd l) tid)) ls = true)
    as Hc; [|congruence].
  apply existsb_exists. exists (r, t). split; [exact Hin|]. cbn [fst snd].
  apply andb_true_intro. split; [apply RowRef_eqb_eq; reflexivity|].
  apply negb_true_iff. apply Nat.eqb_neq. exact E.
Qed.

Lemma In_locks_acquire tid r sh x :
  In x (locks (acquire tid r sh)) ->
  In x (locks sh) \/
  (x = (r, tid) /\ forall t, ~ In (r, t) (locks sh)).
Proof.
  unfold acquire. destruct (existsb _ (locks sh)) eqn:E; [left; assumption|].
  cbn [locks]. intros Hin. apply in_app_or in Hin. destruct Hin as [Hin | [<- | []]].
  - left. exact Hin.
  - right. split; [reflexivity|]. intros t Hin.
    assert (existsb (fun l => RowRef_eqb (fst l) r) (locks sh) = true) as Hc; [|congruence].
    apply existsb_exists. exists (r, t). split; [exact Hin|]. apply RowRef_eqb_eq. reflexivity.
Qed.

Lemma locks_acquire_incl tid r sh x : In x (locks sh) -> In x (locks (acquire tid r sh)).
Proof.
  unfold acquire. destruct (existsb _ (locks sh)); [exact (fun h => h)|].
  cbn [locks]. intros Hin. apply in_or_app. left. exact Hin.
Qed.

Lemma acquire_owns tid r sh :
  held_by_other tid r (locks sh) = false -> In (r, tid) (locks (acquire tid r sh)).
Proof.
  intros Hh. unfold acquire. destruct (existsb _ (locks sh)) eqn:E.
  - apply existsb_exists in E. destruct E as ([r' t] & Hin & Hr).
    cbn [fst] in Hr. apply RowRef_eqb_eq in Hr. subst r'.
    rewrite <- (not_held_by_other tid r (locks sh) t Hh Hin). exact Hin.
  - cbn [locks]. apply in_or_app. right. left. reflexivity.
Qed.

Lemma locks_ok_acquire tid r sh :
  locks_ok sh -> locks_ok (acquire tid r sh).
Proof.
  intros Hok r0 t t' H1 H2.
  apply In_locks_acquire in H1. apply In_locks_acquire in H2.
  destruct H1 as [H1 | [H1 Hn1]], H2 as [H2 | [H2 Hn2]].
  - exact (Hok r0 t t' H1 H2).
  - inversion H2; subst. exfalso. exact (Hn2 _ H1).
  - inversion H1; subst. exfalso. exact (Hn1 _ H2).
  - congruence.
Qed.

Lemma In_release_locks tid sh r t :
  In (r, t) (locks (release_locks tid sh)) <-> In (r, t) (locks sh) /\ t <> tid.
Proof.
  unfold release_locks. cbn [locks]. rewrite filter_In. cbn [snd].
  rewrite negb_true_iff, Nat.eqb_neq. reflexivity.
Qed.

Lemma locks_ok_release tid sh : locks_ok sh -> locks_ok (release_locks tid sh).
Proof.
  intros Hok r t t' H1 H2. apply In_release_locks in H1. apply In_release_locks in H2.
  exact (Hok r t t' (proj1 H1) (proj1 H2)).
Qed.

Lemma guarantee_acquire tid r sh : guarantee tid sh (acquire tid r sh).
Proof.
  split.
  - intros r0 t Hne. split.
    + intros Hin. apply In_locks_acquire in Hin. destruct Hin as [Hin | [E _]]; [exact Hin|].
      inversion E; subst. contradiction.
    + apply locks_acquire_incl.
  - intros k t _ _. rewrite (proj1 (acquire_tables tid r sh)). reflexivity.
Qed.

Lemma sound_acquire tid r sh : sound db0 sh -> sound db0 (acquire tid r sh).
Proof.
  intros (Hl & Hs & Hb). split; [apply locks_ok_acquire; exact Hl|].
  rewrite (proj1 (acquire_tables tid r sh)). split; assumption.
Qed.

Lemma guarantee_release tid sh : guarantee tid sh (release_locks tid sh).
Proof.
  split.
  - intros r t Hne. rewrite In_release_locks. tauto.
  - intros k t _ _. reflexivity.
Qed.

Lemma sound_release tid sh : sound db0 sh -> sound db0 (release_locks tid sh).
Proof.
  intros (Hl & Hs & Hb). split; [apply locks_ok_release; exact Hl|]. split; assumption.
Qed.

Lemma stable_in_tx tid ws : stable tid (in_tx ws).
Proof. intros t sh sh' lo _ _ Hw. exact Hw. Qed.

Lemma stable_anything tid : stable tid (fun _ _ => True).
Proof. intros t sh sh' lo _ _ _. exact I. Qed.

Lemma cache_ok_guarantee tid t vars sh sh' :
  t <> tid -> guarantee t sh sh' -> cache_ok tid vars sh -> cache_ok tid vars sh'.
Proof.
  intros Hne [Hlocks Hrows] (Hnd & Hcache & Hrest).
  split; [exact Hnd|]. split; [|exact Hrest].
  intros k p Hget. destruct (Hcache k p Hget) as (Hid & Hok & Hown & Hrow & Hstock).
  assert (Hsame := Hrows k tid (not_eq_sym Hne) Hown).
  split; [exact Hid|]. split; [exact Hok|].
  split; [apply Hlocks; [exact (not_eq_sym Hne) | exact Hown]|].
  unfold stock_of. rewrite Hsame. split; assumption.
Qed.

Lemma stable_holding tid ws vars : stable tid (holding tid ws vars).
Proof.
  intros t sh sh' lo Hne Hg [Hw Hc]. split; [exact Hw|].
  exact (cache_ok_guarantee tid t vars sh sh' Hne Hg Hc).
Qed.

End Locks.

Section Loop.
Context `{JsArith}.
Variable db0 : DB.

Lemma returned_app k (l l' : list OrderItem.t) :
  returned k (l ++ l') = returned k l + returned k l'.
Proof.
  unfold returned. induction l as [|it l IH]; cbn [app fold_right]; [reflexivity|].
  rewrite IH. destruct (OrderItem.productId it =? k); lia.
Qed.

Lemma cache_ok_acquire tid r vars sh :
  cache_ok tid vars sh -> cache_ok tid vars (acquire tid r sh).
Proof.
  intros (Hnd & Hcache & Hrest). split; [exact Hnd|]. split; [|exact Hrest].
  intros k p Hget. destruct (Hcache k p Hget) as (Hid & Hok & Hown & Hrow & Hstock).
  unfold stock_of. rewrite (proj1 (acquire_tables tid r sh)).
  repeat split; try assumption; try apply Hok. apply locks_acquire_incl. exact Hown.
Qed.

(** A turn of the loop on a product the request holds. *)
Lemma reserve_line_cache_ok tid o vars it p vars' sh :
  cache_ok tid vars sh ->
  Product.id p = OrderItemDto.productId it ->
  In (ProductRow (Product.id p), tid) (locks sh) ->
  find_by Product.id (Product.id p) (products (tables sh)) <> None ->
  Product.stock p + returned (Product.id p) (orderItems vars)
    = stock_of (tables sh) (Product.id p) ->
  reserve_line o vars it (Some p) = inr vars' ->
  cache_ok tid vars' sh.
Proof.
  intros (Hnd & Hcache & Hrest) Hid Hown Hrow Hstock. unfold reserve_line.
  destruct (negb (Product.isAvailable p)); [discriminate|].
  destruct (Z.ltb_spec (Product.stock p) (OrderItemDto.quantity it)) as [|Hle];
    [discriminate|].
  intros [= <-]. unfold set_isAvailable, set_stock. cbn [Product.id Product.stock].
  unfold cache_ok. cbn [updatedProducts orderItems].
  split; [apply NoDup_Map_set; exact Hnd|]. split.
  - intros k p'. rewrite Map_get_set, returned_app.
    unfold returned at 2. cbn [fold_right OrderItem.productId OrderItem.quantity].
    destruct (Z.eqb_spec (Product.id p) k) as [<- | Hne].
    + intros [= <-]. cbn [Product.id Product.stock].
      split; [reflexivity|].
      split; [unfold product_ok; cbn [Product.stock Product.isAvailable];
              split; [lia | reflexivity]|].
      split; [exact Hown|]. split; [exact Hrow|]. lia.
    + intros Hget. destruct (Hcache k p' Hget) as (Hid' & Hok & Hown' & Hrow' & Hstock').
      repeat split; try assumption; try apply Hok. lia.
  - intros k. rewrite Map_get_set, returned_app.
    unfold returned at 2. cbn [fold_right OrderItem.productId OrderItem.quantity].
    destruct (Z.eqb_spec (Product.id p) k) as [<- | Hne]; [discriminate|].
    intros Hget. rewrite (Hrest k Hget). lia.
Qed.

Lemma safe_lift {X} tid (r : Exception + X) (Q : X -> Assn) sh lo :
  (forall a, r = inr a -> Q a sh lo) ->
  safe db0 tid (lift r) Q anything sh lo.
Proof.
  intros Hq. destruct r as [e|a]; cbn [lift safe]; [exact I | apply Hq; reflexivity].
Qed.

Lemma products_view_order (sh : Shared) lo o :
  writes lo = Some [W_order o] -> products (view sh lo) = products (tables sh).
Proof. intros Hw. unfold view. rewrite Hw. reflexivity. Qed.

Lemma safe_create_line tid o it vars sh lo :
  holding tid [W_order o] vars sh lo ->
  safe db0 tid (create_line o vars it)
       (fun vars' => holding tid [W_order o] vars') anything sh lo.
Proof.
  intros Hhold. unfold create_line, lookup_product.
  destruct (Map_get (OrderItemDto.productId it) (updatedProducts vars)) as [p|] eqn:Hget.
  - cbn [bind]. apply safe_lift. intros vars' Hres.
    destruct Hhold as [Hw Hc]. split; [exact Hw|].
    destruct Hc as (Hnd & Hcache & Hrest).
    destruct (Hcache _ p Hget) as (Hid & Hok & Hown & Hrow & Hstock).
    apply (reserve_line_cache_ok tid o vars it p vars' sh); try assumption.
    + split; [exact Hnd|]. split; assumption.
    + rewrite Hid. exact Hown.
    + rewrite Hid. exact Hrow.
    + rewrite Hid. exact Hstock.
  - unfold call. cbn [bind safe]. exists (holding tid [W_order o] vars).
    split; [apply stable_holding|]. split; [exact Hhold|].
    intros sh1 lo1 r sh' lo' Hs [Hw Hc] Hb Hh.
    cbn [handle] in Hh. unfold storage in Hh.
    destruct (hd false (faults lo1)).
    { inversion Hh; subst. split; [exact Hs|]. split; [apply guarantee_refl|]. exact I. }
    assert (Hwt : writes (tick lo1) = Some [W_order o]) by exact Hw.
    rewrite (products_view_order sh1 (tick lo1) o Hwt) in Hh.
    destruct (find_by Product.id (OrderItemDto.productId it) (products (tables sh1)))
      as [p|] eqn:Hfind.
    + inversion Hh; subst. clear Hh.
      split; [apply sound_acquire; exact Hs|]. split; [apply guarantee_acquire|].
      cbn [bind]. apply safe_lift. intros vars' Hres.
      split; [exact Hw|].
      destruct (find_by_some _ _ _ _ Hfind) as [_ Hid].
      cbn [blocked] in Hb.
      apply (reserve_line_cache_ok tid o vars it p vars'); try assumption.
      * apply cache_ok_acquire. exact Hc.
      * rewrite Hid. apply acquire_owns. exact Hb.
      * rewrite (proj1 (acquire_tables _ _ _)), Hid, Hfind. discriminate.
      * destruct Hc as (_ & _ & Hrest). rewrite Hid, (Hrest _ Hget).
        unfold stock_of. rewrite (proj1 (acquire_tables _ _ _)), Hfind. lia.
    + inversion Hh; subst. clear Hh.
      split; [exact Hs|]. split; [apply guarantee_refl|].
      cbn [bind reserve_line lift safe]. exact I.
Qed.

Lemma safe_create_lines tid o items : forall vars sh lo,
  holding tid [W_order o] vars sh lo ->
  safe db0 tid (create_lines o items vars)
       (fun vars' => holding tid [W_order o] vars') anything sh lo.
Proof.
  induction items as [|it items IH]; intros vars sh lo Hhold; cbn [create_lines].
  - exact Hhold.
  - eapply safe_bind; [apply safe_create_line; exact Hhold|].
    intros vars' sh' lo' Hhold'. apply IH. exact Hhold'.
Qed.

End Loop.

Section Create.
Context `{JsArith}.
Variable db0 : DB.

Lemma cache_ok_vars0 tid sh : cache_ok tid (mkVars [] [] (of_int 0)) sh.
Proof.
  split; [constructor|]. split; [intros k p; discriminate | reflexivity].
Qed.

Lemma cache_values tid vars sh v :
  cache_ok tid vars sh -> In v (Map_values (updatedProducts vars)) ->
  Map_get (Product.id v) (updatedProducts vars) = Some v.
Proof.
  intros (Hnd & Hcache & _) Hin. unfold Map_values in Hin.
  apply in_map_iff in Hin. destruct Hin as ([k v'] & E & Hin). cbn [snd] in E. subst v'.
  pose proof (In_Map_get k v _ Hnd Hin) as Hget.
  destruct (Hcache k v Hget) as [-> _]. exact Hget.
Qed.

Lemma find_committed tid vars sh k :
  cache_ok tid vars sh ->
  find_by Product.id k
    (fold_left (fun rows p => upsert Product.id p rows)
               (Map_values (updatedProducts vars)) (products (tables sh)))
  = match Map_get k (updatedProducts vars) with
    | Some p => Some p
    | None => find_by Product.id k (products (tables sh))
    end.
Proof.
  intros Hc. rewrite find_fold_upsert, find_rev_values; [reflexivity | apply Hc |].
  intros [k' v] Hin. cbn [fst snd]. destruct Hc as (Hnd & Hcache & _).
  exact (proj1 (Hcache k' v (In_Map_get k' v _ Hnd Hin))).
Qed.

(** The commit of a [create] that holds its products: nothing is oversold,
    and no row that another request holds is touched. *)
Lemma commit_sound tid o vars sh :
  sound db0 sh -> cache_ok tid vars sh ->
  sound db0 (release_locks tid
               (set_tables sh (apply_writes (tables sh) (create_writes o vars)))) /\
  guarantee tid sh (release_locks tid
               (set_tables sh (apply_writes (tables sh) (create_writes o vars)))).
Proof.
  intros (Hl & Hs & Hb) Hc.
  set (db' := apply_writes (tables sh) (create_writes o vars)).
  assert (Hp : products db'
               = fold_left (fun rows p => upsert Product.id p rows)
                           (Map_values (updatedProducts vars)) (products (tables sh)))
    by reflexivity.
  assert (Hi : order_items db' = order_items (tables sh) ++ orderItems vars)
    by reflexivity.
  assert (Ht : tables (release_locks tid (set_tables sh db')) = db') by reflexivity.
  split; [split; [|split]|split].
  - apply locks_ok_release. exact Hl.
  - unfold stock_ok. rewrite Ht, Hp. apply Forall_fold_upsert; [|exact Hs].
    apply Forall_forall. intros v Hin. pose proof (cache_values tid vars sh v Hc Hin) as Hget.
    destruct Hc as (_ & Hcache & _). apply (Hcache _ v Hget).
  - intros k. rewrite <- Hb, Ht. unfold balance, stock_of. rewrite Hp, Hi.
    rewrite (find_committed tid vars sh k Hc), returned_app.
    destruct Hc as (_ & Hcache & Hrest).
    destruct (Map_get k (updatedProducts vars)) as [p|] eqn:Hget.
    + destruct (Hcache k p Hget) as (_ & _ & _ & _ & Hstock).
      unfold stock_of in Hstock. lia.
    + rewrite (Hrest k Hget). lia.
  - intros r t Hne. rewrite In_release_locks. cbn [locks set_tables]. tauto.
  - intros k t Hne Hown. rewrite Ht, Hp, (find_committed tid vars sh k Hc).
    destruct (Map_get k (updatedProducts vars)) as [p|] eqn:Hget; [|reflexivity].
    exfalso. apply Hne. destruct Hc as (_ & Hcache & _).
    destruct (Hcache k p Hget) as (_ & _ & Hmine & _).
    exact (Hl _ _ _ Hown Hmine).
Qed.

Lemma guarantee_same tid (sh sh' : Shared) :
  tables sh' = tables sh -> locks sh' = locks sh -> guarantee tid sh sh'.
Proof.
  intros Ht Hl. split; [intros; rewrite Hl; tauto | intros; rewrite Ht; reflexivity].
Qed.

Ltac faulty Hh Hs lo1 :=
  cbn [handle] in Hh; unfold storage in Hh;
  destruct (hd false (faults lo1));
  [ inversion Hh; subst; split; [exact Hs|]; split; [apply guarantee_refl|]; exact I | ].

(** A write into the open transaction waits for the commit. *)
Lemma safe_buffered tid {R} (c : Call R) (w : Write) (v : R) ws vars sh lo :
  (forall sh lo, handle tid c sh lo
                 = storage sh lo (fun lo => let (sh', lo') := write w sh lo in
                                            (inr v, sh', lo'))) ->
  holding tid ws vars sh lo ->
  safe db0 tid (call c) (fun _ => holding tid (ws ++ [w]) vars) anything sh lo.
Proof.
  intros Hc Hhold. apply (safe_call db0 tid c (holding tid ws vars));
    [apply stable_holding | exact Hhold |].
  intros sh1 lo1 r sh' lo' Hs [Hw Hcache] _ Hh. rewrite Hc in Hh. unfold storage in Hh.
  destruct (hd false (faults lo1)).
  { inversion Hh; subst. split; [exact Hs|]. split; [apply guarantee_refl|]. exact I. }
  unfold write in Hh. cbn [tick writes] in Hh. rewrite Hw in Hh.
  inversion Hh; subst. split; [exact Hs|]. split; [apply guarantee_refl|].
  split; [reflexivity | exact Hcache].
Qed.

Lemma safe_create_transaction tid dto sh lo :
  in_tx [] sh lo ->
  safe db0 tid (create_transaction dto) anything anything sh lo.
Proof.
  intros Htx. unfold create_transaction, usersService_findOne.
  eapply safe_bind with (Q := fun _ => in_tx []).
  { eapply safe_bind with (Q := fun _ => in_tx []).
    - apply (safe_call db0 tid _ (in_tx [])); [apply stable_in_tx | exact Htx |].
      intros sh1 lo1 r sh' lo' Hs Hw _ Hh. faulty Hh Hs lo1.
      inversion Hh; subst. split; [exact Hs|]. split; [apply guarantee_refl|]. exact Hw.
    - intros [u|] sh1 lo1 Hw; cbn [safe]; [exact Hw | exact I]. }
  intros user sh1 lo1 Htx1.
  eapply safe_bind with (Q := fun o => holding tid [W_order o] (mkVars [] [] (of_int 0))).
  { apply (safe_call db0 tid _ (in_tx [])); [apply stable_in_tx | exact Htx1 |].
    intros sh2 lo2 r sh' lo' Hs Hw _ Hh. faulty Hh Hs lo2.
    unfold write in Hh. cbn [tick writes] in Hh. unfold in_tx in Hw. rewrite Hw in Hh.
    inversion Hh; subst. cbn [tables locks app].
    split; [exact Hs|]. split; [apply guarantee_same; reflexivity|].
    split; [reflexivity | apply cache_ok_vars0]. }
  intros o sh2 lo2 Hhold.
  eapply safe_bind; [apply safe_create_lines; exact Hhold|].
  intros vars sh3 lo3 Hhold3.
  eapply safe_bind; [apply (safe_buffered tid _ (W_items (orderItems vars)) tt);
                     [reflexivity | exact Hhold3]|].
  intros u4 sh4 lo4 Hhold4.
  eapply safe_bind;
    [apply (safe_buffered tid _ (W_products (Map_values (updatedProducts vars))) tt);
     [reflexivity | exact Hhold4]|].
  intros u5 sh5 lo5 Hhold5. cbv zeta.
  eapply safe_bind;
    [apply (safe_buffered tid _ (W_order (set_total o (total vars)))
                          (set_total o (total vars)));
     [reflexivity | exact Hhold5]|].
  intros u6 sh6 lo6 Hhold6.
  eapply safe_bind with (Q := anything); [|intros; exact I].
  apply (safe_call db0 tid _ (holding tid (create_writes o vars) vars));
    [apply stable_holding | exact Hhold6 |].
  intros sh7 lo7 r sh' lo' Hs [Hw Hc] _ Hh. faulty Hh Hs lo7.
  unfold view in Hh. cbn [tick writes] in Hh. rewrite Hw in Hh.
  inversion Hh; subst.
  destruct (commit_sound tid o vars sh7 Hs Hc) as [Hs' Hg].
  split; [exact Hs'|]. split; [exact Hg | exact I].
Qed.

(** A call that changes neither the tables nor another request's locks. *)
Lemma safe_quiet tid {R} (c : Call R) sh lo :
  (forall sh lo r sh' lo', handle tid c sh lo = (r, sh', lo') ->
     tables sh' = tables sh /\
     (locks sh' = locks sh \/ sh' = release_locks tid sh)) ->
  safe db0 tid (call c) anything anything sh lo.
Proof.
  intros Hc. apply (safe_call db0 tid c (fun _ _ => True));
    [apply stable_anything | exact I |].
  intros sh1 lo1 r sh' lo' Hs _ _ Hh.
  destruct (Hc sh1 lo1 r sh' lo' Hh) as [Ht [Hl | ->]].
  - split; [|split].
    + destruct Hs as (Hlk & Hst & Hb). unfold sound, locks_ok, stock_ok.
      rewrite Ht, Hl. split; [exact Hlk|]. split; assumption.
    + split; [intros; rewrite Hl; tauto | intros; rewrite Ht; reflexivity].
    + destruct r; exact I.
  - split; [apply sound_release; exact Hs|]. split; [apply guarantee_release|].
    destruct r; exact I.
Qed.

Lemma safe_release tid sh lo : safe db0 tid (call release) anything anything sh lo.
Proof.
  apply safe_quiet. intros sh1 lo1 r sh' lo' Hh.
  answered Hh; (split; [reflexivity | left; reflexivity]).
Qed.

(** Every call of [create] keeps the tables sound and the other requests'
    rows and locks as they are. *)
Lemma create_safe tid dto sh lo : safe db0 tid (create dto) anything anything sh lo.
Proof.
  unfold create.
  eapply safe_bind with (Q := anything).
  { apply safe_quiet. intros sh1 lo1 r sh' lo' Hh.
    answered Hh; (split; [reflexivity | left; reflexivity]). }
  intros _ sh1 lo1 _.
  eapply safe_bind with (Q := fun _ => in_tx []).
  { apply (safe_call db0 tid _ (fun _ _ => True)); [apply stable_anything | exact I |].
    intros sh2 lo2 r sh' lo' Hs _ _ Hh. faulty Hh Hs lo2. inversion Hh; subst.
    split; [exact Hs|]. split; [apply guarantee_refl | reflexivity]. }
  intros _ sh2 lo2 Htx.
  eapply safe_bind with (Q := anything).
  { unfold try_finally. eapply safe_bind with (Q := anything).
    - eapply safe_try_catch with (E := anything).
      + eapply safe_try_catch with (E := anything).
        * apply safe_create_transaction. exact Htx.
        * intros e sh3 lo3 _. eapply safe_bind with (Q := anything); [|intros; exact I].
          apply safe_quiet. intros sh4 lo4 r sh' lo' Hh. cbn [handle] in Hh.
          inversion Hh; subst. split; [reflexivity | right; reflexivity].
      + intros e sh3 lo3 _. eapply safe_bind with (Q := anything); [|intros; exact I].
        apply safe_release.
    - intros a sh3 lo3 _. eapply safe_bind with (Q := anything); [|intros; exact I].
      apply safe_release. }
  intros id sh3 lo3 _. unfold findOne.
  eapply safe_bind with (Q := anything).
  - apply safe_quiet. intros sh4 lo4 r sh' lo' Hh. cbn [handle] in Hh.
    unfold storage in Hh. destruct (hd false (faults lo4)); inversion Hh; subst;
      (split; [reflexivity | left; reflexivity]).
  - intros [o|] sh4 lo4 _; exact I.
Qed.

End Create.

Lemma creating_all_safe `{JsArith} (sh0 : Shared) reqs :
  locks sh0 = [] -> stock_ok (tables sh0) ->
  all_safe (tables sh0) (sh0, creating reqs).
Proof.
  intros Hl Hs. split.
  - cbn [fst]. split; [|split; [exact Hs | reflexivity]].
    intros r t t' Hin. rewrite Hl in Hin. destruct Hin.
  - cbn [fst snd]. intros tid q Hq. unfold creating in Hq.
    apply nth_error_In in Hq. apply in_map_iff in Hq. destruct Hq as (r & <- & _).
    cbn [program local]. apply create_safe.
Qed.


(** Stock is never oversold, whatever requests are sent together. *)
Lemma creating_never_oversells `{JsArith} (sh0 : Shared) reqs n (c : Config) :
  locks sh0 = [] -> stock_ok (tables sh0) ->
  steps n (sh0, creating reqs) c ->
  stock_ok (tables (fst c)) /\
  forall k, balance (tables (fst c)) k = balance (tables sh0) k.
Proof.
  intros Hl Hs Hsteps.
  pose proof (steps_all_safe (tables sh0) n _ _ Hsteps
                (creating_all_safe sh0 reqs Hl Hs)) as [(_ & Hst & Hb) _].
  split; assumption.
Qed.

Lemma stock_of_nonneg `{JsArith} (db : DB) k : stock_ok db -> 0 <= stock_of db k.
Proof.
  intros Hok. unfold stock_of.
  destruct (find_by Product.id k (products db)) as [p|] eqn:Hp; [|lia].
  apply find_by_some in Hp. destruct Hp as [Hin _].
  unfold stock_ok in Hok. rewrite Forall_forall in Hok. apply (Hok p Hin).
Qed.

(** * Concurrent order creation *)

(** C7 (corrected).  [create] requests in flight together, their awaited
    calls interleaved in any order, on a storage layer whose locked read
    waits while another transaction holds the row and then reads what was
    committed.
    Stock is never oversold: whatever requests are sent together (any
    number, any lines, any faults of the storage layer), after any number of
    calls every product row obeys I2 (its stock is not negative), and for
    every product the stock and the units in order items add up to what
    they were, so the units ordered since are at most the stock there was.
    With one Widget left and two requests for one each, and no fault: every
    interleaving ends within 18 calls, and when no request can move, exactly
    one request has its order, PENDING and the only order in the tables,
    with one item of quantity 1; the stock is 0 and the product no longer
    available; and the other request has failed with BadRequestException
    "Product Widget is not available" (the availability check comes before
    the stock check), in no interleaving with "Not enough stock for
    Widget". *)
Theorem concurrent_create_never_oversells :
  (forall (A : JsArith) (sh0 : Shared) reqs n (c : Config),
     locks sh0 = [] -> stock_ok (tables sh0) ->
     steps n (sh0, creating reqs) c ->
     stock_ok (tables (fst c)) /\
     (forall k,
        (stock_of (tables (fst c)) k + returned k (order_items (tables (fst c)))
           = stock_of (tables sh0) k + returned k (order_items (tables sh0))) /\
        (returned k (order_items (tables (fst c)))
           - returned k (order_items (tables sh0)) <= stock_of (tables sh0) k)))
  /\
  (forall n c,
     steps n race c ->
     (n < 19)%nat /\
     (stuck c ->
      (exists o,
         (map outcome (snd c) = [Some (inr o); Some (inl unavailable)]
            /\ Order.userId o = 1 \/
          map outcome (snd c) = [Some (inl unavailable); Some (inr o)]
            /\ Order.userId o = 2) /\
         Order.status o = PENDING /\
         map (fun p => (Product.stock p, Product.isAvailable p))
             (products (tables (fst c))) = [(0, false)] /\
         map Order.id (orders (tables (fst c))) = [Order.id o] /\
         placed c = [(Order.id o, 1)]) /\
      ~ In (Some (inl not_enough)) (map outcome (snd c)))).
Proof.
  split.
  - intros A sh0 reqs n c Hl Hs Hsteps.
    destruct (creating_never_oversells sh0 reqs n c Hl Hs Hsteps) as [Hok Hb].
    split; [exact Hok|]. intros k. specialize (Hb k). unfold balance in Hb.
    split; [exact Hb|].
    pose proof (stock_of_nonneg (tables (fst c)) k Hok). lia.
  - intros n c Hsteps.
    destruct (all_runs_sound _ _ _ last_unit_checked n c Hsteps) as [Hlt Hok].
    split; [exact Hlt|]. intros Hstuck.
    destruct (last_one_sold_spec c (Hok Hstuck)) as (o & Hout & Hsold).
    split.
    + exists o. split; [exact Hout|]. apply sold_as_spec. exact Hsold.
    + intros Hin.
      destruct Hout as [[Hout _] | [Hout _]]; rewrite Hout in Hin;
        destruct Hin as [Hin | [Hin | []]]; discriminate.
Qed.

Lemma concurrent_create_never_oversells_witness :
  steps 18 race after_one_then_two /\
  stuck after_one_then_two /\
  stock_ok (tables (fst after_one_then_two)) /\
  stock_of (tables (fst after_one_then_two)) 10
    + returned 10 (order_items (tables (fst after_one_then_two))) = 1 /\
  placed after_one_then_two = [(1, 1)] /\
  ~ In (Some (inl not_enough)) (map outcome (snd after_one_then_two)).
Proof.
  pose proof (run_schedule_steps _ _ _ one_then_two_runs) as Hsteps.
  change (List.length one_then_two) with 18%nat in Hsteps.
  split; [exact Hsteps|]. split; [exact after_one_then_two_stuck|].
  destruct concurrent_create_never_oversells as [Hgeneral Hlast].
  assert (Hshop : stock_ok (tables one_left))
    by (constructor; [split; [cbn; lia | reflexivity] | constructor]).
  destruct (Hgeneral ieee754 one_left
              [(one_widget_for 1, []); (one_widget_for 2, [])]
              18%nat after_one_then_two eq_refl Hshop Hsteps) as [Hok Hb].
  split; [exact Hok|]. split; [exact (proj1 (Hb 10))|].
  destruct (Hlast 18%nat after_one_then_two Hsteps) as [_ Hend].
  destruct (Hend after_one_then_two_stuck) as [_ Hnot].
  split; [vm_compute; reflexivity | exact Hnot].
Defined.

(** C7, the claim as it is written fails: when user 1's request runs to its
    end before user 2's, user 2 is not told that the stock is insufficient
    but that the product is not available. *)
Lemma loser_is_told_unavailable :
  exists n c,
    steps n race c /\ stuck c /\
    map outcome (snd c)
      = [Some (inr (@Order.mk ieee754 1 1 9.99%float PENDING
                      [@OrderItem.mk ieee754 1 10 1 9.99%float]));
         Some (inl (BadRequestException "Product Widget is not available"))] /\
    ~ (exists o, map outcome (snd c) = [Some (inr o); Some (inl not_enough)]
                 \/ map outcome (snd c) = [Some (inl not_enough); Some (inr o)]).
Proof.
  exists 18%nat, after_one_then_two.
  split; [exact (run_schedule_steps _ _ _ one_then_two_runs)|].
  split; [exact after_one_then_two_stuck|].
  assert (Hout : map outcome (snd after_one_then_two)
                 = [Some (inr (@Order.mk ieee754 1 1 9.99%float PENDING
                                 [@OrderItem.mk ieee754 1 10 1 9.99%float]));
                    Some (inl (BadRequestException "Product Widget is not available"))])
    by (vm_compute; reflexivity).
  split; [exact Hout|].
  intros (o & [Ho | Ho]); rewrite Hout in Ho; discriminate.
Qed.

(** * Calls one after the other *)

Section Composition.
Context {A : JsArith}.

(** What [create] answers, and the tables it leaves, when it answers an
    order. *)
Lemma exec_create_order dto fs (sh : Shared) o sh' :
  exec (create dto) fs sh = (inr o, sh') ->
  exists id t new,
    all_committed dto (tables sh) (tables sh') id t new /\
    o = Order.mk id (CreateOrderDto.userId dto) t PENDING (items_of (tables sh') id).
Proof.
  intros Hex. destruct (exec_create_cases dto fs sh _ _ Hex)
    as [(e & He & _) | (id & t & new & Hall & [Hr | [Hr _]])]; try discriminate.
  exists id, t, new. split; [exact Hall|]. congruence.
Qed.

(** Items added for another order leave the items of this one alone. *)
Lemma items_of_app_other (db db' : DB) id new :
  order_items db' = order_items db ++ new ->
  Forall (fun it => OrderItem.orderId it <> id) new ->
  items_of db' id = items_of db id.
Proof.
  intros Hi Hnew. unfold items_of. rewrite Hi, filter_app.
  replace (filter _ new) with (@nil OrderItem.t); [apply app_nil_r|].
  symmetry. clear Hi. induction Hnew as [|it l Hit _ IH]; [reflexivity|].
  cbn [filter]. destruct (Z.eqb_spec (OrderItem.orderId it) id); [contradiction | exact IH].
Qed.

End Composition.

Section RoundTrip.
Context {A : JsArith}.

(** A product that the loop has taken was available when first read. *)
Lemma reserve_lines_available P o lines : forall done vars vars',
  cache_inv P done (updatedProducts vars) ->
  reserve_lines P o lines vars = inr vars' ->
  forall k, mentions k lines = true -> mentions k done = false ->
    exists p0, find_by Product.id k P = Some p0 /\ Product.isAvailable p0 = true.
Proof.
  induction lines as [|l lines IH]; intros done vars vars' Hinv Hres k Hk Hdone;
    [discriminate|].
  cbn [reserve_lines] in Hres.
  destruct (reserve_line o vars l (in_transaction P vars (OrderItemDto.productId l)))
    as [e|vars1] eqn:Hline; [discriminate|].
  cbn [mentions existsb] in Hk.
  destruct (Z.eqb_spec (OrderItemDto.productId l) k) as [E|E].
  - unfold reserve_line in Hline.
    destruct (in_transaction P vars (OrderItemDto.productId l)) as [p|] eqn:Hin;
      [|discriminate].
    destruct (in_transaction_inv P done vars _ p Hinv Hin) as (p0 & Hp0 & _ & _ & _ & _ & Hraw).
    rewrite E in Hraw, Hp0. rewrite (Hraw Hdone) in Hline.
    exists p0. split; [exact Hp0|].
    destruct (Product.isAvailable p0); [reflexivity | discriminate].
  - destruct (reserve_line_spec P o done vars l vars1 Hinv Hline) as [Hinv1 _].
    apply (IH (done ++ [l]) vars1 vars' Hinv1 Hres k Hk).
    rewrite mentions_app, Hdone. cbn [mentions existsb orb].
    destruct (Z.eqb_spec (OrderItemDto.productId l) k); [contradiction | reflexivity].
Qed.

Lemma create_outcome_available (sh : Shared) dto id db' k :
  create_outcome sh dto = (inr id, db') ->
  mentions k (CreateOrderDto.items dto) = true ->
  exists p0, find_by Product.id k (products (tables sh)) = Some p0 /\
             Product.isAvailable p0 = true.
Proof.
  unfold create_outcome.
  destruct (find_by User.id _ _) as [u|]; [|discriminate].
  destruct (reserve_lines _ _ _ vars0) as [e|vars] eqn:Hres; [discriminate|].
  intros _ Hk.
  apply (reserve_lines_available _ _ _ [] vars0 vars (cache_inv_nil _) Hres k Hk).
  reflexivity.
Qed.

(** The items of an order hold what its lines asked. *)
Lemma items_of_lines P id lines new k :
  Forall2 (item_of_line P id) lines new ->
  returned k new = reserved k lines /\ referenced k new = mentions k lines.
Proof.
  induction 1 as [|l it lines new (_ & Hp & Hq & _) _ [IHr IHm]]; [split; reflexivity|].
  cbn [returned reserved fold_right referenced mentions existsb].
  fold (returned k new). fold (reserved k lines).
  fold (referenced k new). fold (mentions k lines).
  rewrite Hp, Hq, IHr, IHm. split; reflexivity.
Qed.

Lemma same_rows (P Q : list Product.t) :
  NoDup (map Product.id P) ->
  map Product.id Q = map Product.id P ->
  (forall k, find_by Product.id k Q = find_by Product.id k P) ->
  Q = P.
Proof.
  revert Q. induction P as [|p P IH]; intros Q Hnd Hk Hf.
  - destruct Q; [reflexivity | discriminate].
  - destruct Q as [|q Q]; [discriminate|]. cbn [map] in Hk, Hnd.
    injection Hk as Hq HQ. inversion Hnd as [|? ? Hnotin Hnd']; subst.
    assert (Hhead : q = p).
    { pose proof (Hf (Product.id p)) as H. unfold find_by in H. cbn [find] in H.
      rewrite Hq, Z.eqb_refl in H. congruence. }
    subst q. f_equal. apply IH; [exact Hnd' | exact HQ |].
    intros k. pose proof (Hf k) as H. unfold find_by in H |- *. cbn [find] in H.
    destruct (Z.eqb_spec (Product.id p) k) as [E|E]; [|exact H].
    subst k. transitivity (@None Product.t).
    + destruct (find _ Q) as [x|] eqn:Hx; [|reflexivity]. exfalso.
      apply find_some in Hx. destruct Hx as [Hin Hx]. apply Z.eqb_eq in Hx.
      apply Hnotin. rewrite <- HQ, <- Hx. apply in_map. exact Hin.
    + destruct (find _ P) as [x|] eqn:Hx; [|reflexivity]. exfalso.
      apply find_some in Hx. destruct Hx as [Hin Hx]. apply Z.eqb_eq in Hx.
      apply Hnotin. rewrite <- Hx. apply in_map. exact Hin.
Qed.

End RoundTrip.

Section Final.
Context {A : JsArith}.

Lemma status_neq s : s <> CANCELLED -> status_eqb s CANCELLED = false.
Proof. destruct s; intros Hs; try reflexivity. contradiction. Qed.

Lemma status_eqb_eq s s' : status_eqb s s' = true -> s = s'.
Proof.
  destruct s, s'; cbn [status_eqb]; intros E; try discriminate; try reflexivity.
  apply String.eqb_eq in E. congruence.
Qed.

Lemma kept_refl id row (db : DB) :
  find_by Order.id id (orders db) = Some row -> kept id row db db.
Proof. intros Hrow. split; [exact Hrow | reflexivity]. Qed.

Lemma kept_save id row (db : DB) P o :
  find_by Order.id id (orders db) = Some row ->
  Order.id o <> id ->
  kept id row db (apply_write (with_products db P) (W_order o)).
Proof.
  intros Hrow Hne. split; [|reflexivity].
  cbn [apply_write with_products orders]. rewrite find_by_upsert. cbn [set_items Order.id].
  destruct (Z.eqb_spec (Order.id o) id); [contradiction | exact Hrow].
Qed.

Lemma create_keeps dto fs (sh : Shared) id row :
  find_by Order.id id (orders (tables sh)) = Some row ->
  kept id row (tables sh) (tables (snd (exec (create dto) fs sh))).
Proof.
  intros Hrow. destruct (exec (create dto) fs sh) as [r sh'] eqn:Hex. cbn [snd].
  destruct (exec_create_cases dto fs sh r sh' Hex)
    as [(e & _ & -> & _) | (id' & t & new & Hall & _)]; [apply kept_refl; exact Hrow|].
  destruct Hall as (_ & Ho & Hfresh & Hi & Hnew & _). split.
  - rewrite Ho, find_by_app, Hrow. reflexivity.
  - apply (items_of_app_other _ _ id new Hi).
    eapply Forall_impl; [|exact (item_of_line_orderId _ _ _ _ Hnew)].
    intros it -> E. congruence.
Qed.

Lemma cancel_keeps id' fs (sh : Shared) id row :
  find_by Order.id id (orders (tables sh)) = Some row ->
  Order.status row = CANCELLED ->
  kept id row (tables sh) (tables (snd (exec (cancel id') fs sh))).
Proof.
  intros Hrow Hst. destruct (exec (cancel id') fs sh) as [r sh'] eqn:Hex. cbn [snd].
  destruct (exec_cancel id' fs sh r sh' Hex) as [(_ & -> & _) | Hout];
    [apply kept_refl; exact Hrow|].
  destruct (cancel_outcome sh id') as [[e|o] db'] eqn:Hco.
  - destruct Hout as (_ & -> & _). apply kept_refl. exact Hrow.
  - destruct Hout as (-> & _). unfold cancel_outcome in Hco.
    destruct (load_order (tables sh) id') as [order|] eqn:Hload; [|discriminate].
    destruct (status_eqb (Order.status order) PENDING) eqn:Hp; [|discriminate].
    cbn [negb] in Hco. injection Hco as _ <-.
    apply kept_save; [exact Hrow|]. cbn [set_status Order.id].
    rewrite (load_order_id _ _ _ Hload). intros ->.
    unfold load_order in Hload. rewrite Hrow in Hload. injection Hload as <-.
    cbn [set_items Order.status] in Hp. rewrite Hst in Hp. discriminate.
Qed.

Lemma updateStatus_keeps id' status fs (sh : Shared) id row :
  find_by Order.id id (orders (tables sh)) = Some row ->
  Order.status row = CANCELLED ->
  kept id row (tables sh) (tables (snd (exec (updateStatus id' status) fs sh))).
Proof.
  intros Hrow Hst. destruct (status_eqb status CANCELLED) eqn:Hs.
  - unfold updateStatus. rewrite Hs. apply cancel_keeps; assumption.
  - destruct (exec (updateStatus id' status) fs sh) as [r sh'] eqn:Hex. cbn [snd].
    destruct (exec_updateStatus id' status fs sh r sh' Hs Hex) as (_ & [(_ & _ & ->) | Hout]);
      [apply kept_refl; exact Hrow|].
    unfold update_outcome in Hout.
    destruct (load_order (tables sh) id') as [order|] eqn:Hload;
      [|injection Hout as _ ->; apply kept_refl; exact Hrow].
    destruct (status_eqb (Order.status order) CANCELLED) eqn:Hc;
      [injection Hout as _ ->; apply kept_refl; exact Hrow|].
    injection Hout as _ ->.
    rewrite <- (with_products_same (tables sh)) at 2.
    apply kept_save; [exact Hrow|]. cbn [set_status Order.id].
    rewrite (load_order_id _ _ _ Hload). intros ->.
    unfold load_order in Hload. rewrite Hrow in Hload. injection Hload as <-.
    cbn [set_items Order.status] in Hc. rewrite Hst in Hc. discriminate.
Qed.

Lemma kept_trans id row (db db1 db2 : DB) :
  kept id row db db1 -> kept id row db1 db2 -> kept id row db db2.
Proof. intros [_ H1] [H2 H3]. split; [exact H2 | congruence]. Qed.

End Final.

Section More.
Context {A : JsArith}.

Lemma load_order_row (db : DB) id o :
  load_order db id = Some o ->
  exists row, find_by Order.id id (orders db) = Some row /\
              In row (orders db) /\
              o = set_items row (items_of db id).
Proof.
  unfold load_order. destruct (find_by Order.id id (orders db)) as [row|] eqn:Hrow;
    [|discriminate].
  intros [= <-]. exists row. split; [reflexivity|].
  split; [exact (proj1 (find_by_some _ _ _ _ Hrow)) | reflexivity].
Qed.

Lemma exec_updateStatus_ok id status (sh : Shared) o :
  status <> CANCELLED ->
  load_order (tables sh) id = Some o ->
  Order.status o <> CANCELLED ->
  exists sh',
    exec (updateStatus id status) [] sh = (inr (set_status o status), sh') /\
    load_order (tables sh') id = Some (set_status o status) /\
    products (tables sh') = products (tables sh) /\
    order_items (tables sh') = order_items (tables sh).
Proof.
  intros Hst Hload Hcur.
  unfold exec, updateStatus, findOne, fresh. rewrite (status_neq _ Hst).
  rewrite !run_bind, run_call. cbn [handle]. unfold storage. tidy_goal. cbn [hd].
  rewrite Hload. tidy_goal. rewrite (status_neq _ Hcur).
  rewrite run_call. cbn [handle]. unfold storage. tidy_goal. cbn [hd tl].
  eexists. split; [reflexivity|]. cbn [tables products order_items].
  split; [|split; reflexivity].
  rewrite <- (with_products_same (tables sh)) at 1.
  exact (load_order_saved (tables sh) (products (tables sh)) id o status Hload).
Qed.

Lemma reserved_positive k lines :
  (forall l, In l lines -> 1 <= OrderItemDto.quantity l) ->
  mentions k lines = true -> 1 <= reserved k lines.
Proof.
  induction lines as [|l lines IH]; intros Hq Hk; [discriminate|].
  cbn [reserved fold_right mentions existsb] in *. fold (reserved k lines).
  fold (mentions k lines) in Hk.
  pose proof (Hq l (or_introl eq_refl)) as Hl.
  assert (Hrest : forall l', In l' lines -> 1 <= OrderItemDto.quantity l')
    by (intros l' Hin; apply Hq; right; exact Hin).
  destruct (OrderItemDto.productId l =? k).
  - destruct (mentions k lines) eqn:Hm.
    + specialize (IH Hrest eq_refl). lia.
    + rewrite (reserved_not_mentioned k lines Hm). lia.
  - cbn [orb] in Hk. apply IH; assumption.
Qed.

Lemma dto_valid_lines dto :
  dto_valid dto = true ->
  CreateOrderDto.items dto <> [] /\
  forall l, In l (CreateOrderDto.items dto) -> 1 <= OrderItemDto.quantity l.
Proof.
  unfold dto_valid. intros Hv. apply andb_prop in Hv. destruct Hv as [Hlen Hq]. split.
  - intros E. rewrite E in Hlen. discriminate.
  - intros l Hin. rewrite forallb_forall in Hq. apply Z.leb_le. exact (Hq l Hin).
Qed.

End More.

(** * Tidy tables under any calls in flight *)

Section Neat.
Context `{JsArith}.

Lemma neat_bind {X Y} (p : Prog X) (f : X -> Prog Y) (Q : X -> Prop) (Q' : Y -> Prop) :
  neat p Q -> (forall a, Q a -> neat (f a) Q') -> neat (bind p f) Q'.
Proof.
  induction p as [a|e|R c k IH]; intros Hp Hf; cbn [bind neat] in *.
  - apply Hf. exact Hp.
  - exact I.
  - destruct Hp as [Hc Hk]. split; [exact Hc|]. intros r Hr. apply IH; [apply Hk; exact Hr | exact Hf].
Qed.

Lemma neat_try_catch {X} (p : Prog X) (h : Exception -> Prog X) (Q : X -> Prop) :
  neat p Q -> (forall e, neat (h e) Q) -> neat (try_catch p h) Q.
Proof.
  induction p as [a|e|R c k IH]; intros Hp Hh; cbn [try_catch neat] in *.
  - exact Hp.
  - apply Hh.
  - destruct Hp as [Hc Hk]. split; [exact Hc|]. intros r Hr. apply IH; [apply Hk; exact Hr | exact Hh].
Qed.

Lemma neat_weaken {X} (p : Prog X) (Q Q' : X -> Prop) :
  (forall a, Q a -> Q' a) -> neat p Q -> neat p Q'.
Proof.
  intros HQ. induction p as [a|e|R c k IH]; cbn [neat]; [apply HQ | exact (fun x => x) |].
  intros [Hc Hk]. split; [exact Hc|]. intros r Hr. apply IH. apply Hk. exact Hr.
Qed.

Lemma neat_call {R} (c : Call R) (Q : R -> Prop) :
  call_ok c -> (forall v, reply_ok c (inr v) -> Q v) -> neat (call c) Q.
Proof.
  intros Hc HQ. unfold call. cbn [neat]. split; [exact Hc|].
  intros [e|v] Hr; cbn [neat]; [exact I | apply HQ; exact Hr].
Qed.

Lemma neat_try_finally {X} (p : Prog X) (f : Prog unit) (Q : X -> Prop) :
  neat p Q -> neat f (fun _ => True) -> neat (try_finally p f) Q.
Proof.
  intros Hp Hf. unfold try_finally. eapply neat_bind.
  - apply neat_try_catch; [exact Hp|]. intros e. eapply neat_bind; [exact Hf|].
    intros _ _. exact I.
  - intros a Ha. eapply neat_bind; [exact Hf|]. intros _ _. exact Ha.
Qed.

(** *** The tables under the calls *)

Lemma apply_write_tidy (db : DB) w : tidy db -> write_ok w -> tidy (apply_write db w).
Proof.
  intros [Hs Hi] Hw. destruct w as [o|l|l]; cbn [apply_write write_ok] in *.
  - split; assumption.
  - split; [exact Hs|]. unfold items_ok. cbn [order_items]. apply Forall_app. split; assumption.
  - split; [|exact Hi]. unfold stock_ok. cbn [products].
    apply Forall_fold_upsert; assumption.
Qed.

Lemma apply_writes_tidy ws : forall (db : DB),
  tidy db -> Forall write_ok ws -> tidy (apply_writes db ws).
Proof.
  induction ws as [|w ws IH]; intros db Hdb Hws; [exact Hdb|].
  inversion Hws; subst. cbn [apply_writes fold_left]. apply IH; [|assumption].
  apply apply_write_tidy; assumption.
Qed.

Lemma view_tidy (sh : Shared) lo :
  tidy (tables sh) -> pending_ok sh lo -> tidy (view sh lo).
Proof.
  unfold view, pending_ok. destruct (writes lo) as [ws|]; [|exact (fun h _ => h)].
  intros Hdb Hws. apply apply_writes_tidy; assumption.
Qed.

Lemma write_tidy w (sh : Shared) lo sh' lo' :
  tidy (tables sh) -> pending_ok sh lo -> write_ok w ->
  write w sh lo = (sh', lo') ->
  tidy (tables sh') /\ pending_ok sh' lo' /\ faults lo' = faults lo.
Proof.
  intros Hdb Hp Hw. unfold write, pending_ok in *. destruct (writes lo) as [ws|] eqn:Hws.
  - intros [= <- <-]. cbn [writes faults]. split; [exact Hdb|]. split; [|reflexivity].
    apply Forall_app. split; [exact Hp | constructor; [exact Hw | constructor]].
  - intros [= <- <-]. cbn [tables set_tables]. rewrite Hws.
    split; [apply apply_write_tidy; assumption | split; [exact I | reflexivity]].
Qed.

Lemma pending_ok_tick (sh sh' : Shared) lo : pending_ok sh lo -> pending_ok sh' (tick lo).
Proof. exact (fun h => h). Qed.

(** Every call keeps the tables tidy, and answers tidy rows. *)
Lemma handle_tidy tid {R} (c : Call R) (sh : Shared) lo r sh' lo' :
  tidy (tables sh) -> pending_ok sh lo -> call_ok c ->
  handle tid c sh lo = (r, sh', lo') ->
  tidy (tables sh') /\ pending_ok sh' lo' /\ reply_ok c r.
Proof.
  intros Hdb Hp Hc Hh.
  assert (Hpt : pending_ok sh (tick lo)) by exact Hp.
  destruct c; cbn [handle] in Hh; unfold storage in Hh;
    try (destruct (hd false (faults lo));
         [injection Hh as <- <- <-; split; [exact Hdb|]; split; [exact Hp | exact I]|]);
    cbn [call_ok reply_ok] in *.
  - injection Hh as <- <- <-. split; [exact Hdb|]. split; [exact Hp | exact I].
  - injection Hh as <- <- <-. split; [exact Hdb|]. split; [constructor | exact I].
  - injection Hh as <- <- <-. cbn [tables release_locks set_tables].
    split; [apply view_tidy; assumption|]. split; exact I.
  - injection Hh as <- <- <-. split; [exact Hdb|]. split; exact I.
  - injection Hh as <- <- <-. split; [exact Hdb|]. split; [exact Hp | exact I].
  - destruct (write _ sh (tick lo)) as [sh1 lo1] eqn:Hw. injection Hh as <- <- <-.
    destruct (write_tidy (W_order _) _ _ _ _ Hdb Hpt I Hw) as (Hdb1 & Hp1 & _).
    cbn [tables]. split; [exact Hdb1|]. split; [exact Hp1 | exact I].
  - pose proof (view_tidy sh (tick lo) Hdb Hpt) as [Hv _].
    destruct (find_by Product.id id (products (view sh (tick lo)))) as [p|] eqn:Hf;
      injection Hh as <- <- <-.
    + rewrite (proj1 (acquire_tables _ _ _)). split; [exact Hdb|]. split; [exact Hp|].
      apply find_by_some in Hf. unfold stock_ok in Hv. rewrite Forall_forall in Hv.
      apply Hv. exact (proj1 Hf).
    + split; [exact Hdb|]. split; [exact Hp | exact I].
  - destruct (write _ sh (tick lo)) as [sh1 lo1] eqn:Hw. injection Hh as <- <- <-.
    destruct (write_tidy (W_items l) _ _ _ _ Hdb Hpt Hc Hw) as (Hdb1 & Hp1 & _).
    split; [exact Hdb1|]. split; [exact Hp1 | exact I].
  - destruct (write _ sh (tick lo)) as [sh1 lo1] eqn:Hw. injection Hh as <- <- <-.
    destruct (write_tidy (W_products l) _ _ _ _ Hdb Hpt Hc Hw) as (Hdb1 & Hp1 & _).
    split; [exact Hdb1|]. split; [exact Hp1 | exact I].
  - destruct (write _ sh (tick lo)) as [sh1 lo1] eqn:Hw. injection Hh as <- <- <-.
    destruct (write_tidy (W_order _) _ _ _ _ Hdb Hpt I Hw) as (Hdb1 & Hp1 & _).
    split; [exact Hdb1|]. split; [exact Hp1 | exact I].
  - destruct (find_by Order.id id (orders (view sh (tick lo)))) as [o|];
      injection Hh as <- <- <-.
    + rewrite (proj1 (acquire_tables _ _ _)). split; [exact Hdb|]. split; [exact Hp | exact I].
    + split; [exact Hdb|]. split; [exact Hp | exact I].
  - injection Hh as <- <- <-. split; [exact Hdb|]. split; [exact Hp|].
    pose proof (view_tidy sh (tick lo) Hdb Hpt) as [_ Hv].
    destruct (load_order (view sh (tick lo)) id) as [o|] eqn:Hl; [|exact I].
    rewrite (load_order_items _ _ _ Hl). apply items_of_quantities. exact Hv.
  - injection Hh as <- <- <-. split; [exact Hdb|]. split; [exact Hp | exact I].
  - injection Hh as <- <- <-. split; [exact Hdb|]. split; [exact Hp | exact I].
  - injection Hh as <- <- <-. cbn [tables set_tables].
    split; [exact (apply_write_tidy (tables sh) (W_order o) Hdb I)|].
    split; [exact Hp | exact I].
  - injection Hh as <- <- <-. split; [exact Hdb|]. split; [exact Hp | exact I].
  - injection Hh as <- <- <-. split; [exact Hdb|]. split; [exact Hp | exact I].
Qed.

End Neat.

Section NeatMethods.
Context `{JsArith}.

Lemma neat_lift {X} (r : Exception + X) (Q : X -> Prop) :
  (forall a, r = inr a -> Q a) -> neat (lift r) Q.
Proof. intros HQ. destruct r; cbn [lift neat]; [exact I | apply HQ; reflexivity]. Qed.

Lemma reserve_line_ok o vars l prod vars' :
  vars_ok vars -> 1 <= OrderItemDto.quantity l ->
  reserve_line o vars l prod = inr vars' -> vars_ok vars'.
Proof.
  intros [Hi Hp] Hq. unfold reserve_line. destruct prod as [p|]; [|discriminate].
  destruct (negb (Product.isAvailable p)); [discriminate|].
  destruct (Z.ltb_spec (Product.stock p) (OrderItemDto.quantity l)); [discriminate|].
  intros [= <-]. split; cbn [orderItems updatedProducts].
  - apply Forall_app. split; [exact Hi|]. constructor; [exact Hq | constructor].
  - apply Forall_forall. intros v Hin. unfold Map_values in Hin.
    apply in_map_iff in Hin. destruct Hin as (e & <- & Hin).
    apply In_Map_set in Hin. destruct Hin as [-> | Hin].
    + unfold product_ok, set_isAvailable, set_stock.
      cbn [snd Product.stock Product.isAvailable]. split; [lia | reflexivity].
    + rewrite Forall_forall in Hp. apply Hp. unfold Map_values. apply in_map. exact Hin.
Qed.

Lemma neat_create_lines o lines : forall vars,
  (forall l, In l lines -> 1 <= OrderItemDto.quantity l) ->
  vars_ok vars -> neat (create_lines o lines vars) vars_ok.
Proof.
  induction lines as [|l lines IH]; intros vars Hq Hv; cbn [create_lines]; [exact Hv|].
  eapply neat_bind with (Q := vars_ok).
  - unfold create_line. eapply neat_bind with (Q := fun _ => True).
    + unfold lookup_product. destruct (Map_get _ _); [exact I|].
      apply neat_call; [exact I | intros; exact I].
    + intros prod _. apply neat_lift. intros vars' Hres.
      apply (reserve_line_ok o vars l prod vars' Hv); [|exact Hres].
      apply Hq. left. reflexivity.
  - intros vars' Hv'. apply IH; [|exact Hv']. intros l' Hin. apply Hq. right. exact Hin.
Qed.

Lemma neat_findOne id : neat (findOne id) (fun _ => True).
Proof.
  unfold findOne. eapply neat_bind with (Q := fun _ => True).
  - apply neat_call; [exact I | intros; exact I].
  - intros [o|] _; exact I.
Qed.

Lemma neat_quiet {R} (c : Call R) : call_ok c -> neat (call c) (fun _ => True).
Proof. intros Hc. apply neat_call; [exact Hc | intros; exact I]. Qed.

Lemma neat_create dto : dto_valid dto = true -> neat (create dto) (fun _ => True).
Proof.
  intros Hv. destruct (dto_valid_lines dto Hv) as [_ Hq]. unfold create.
  eapply neat_bind; [apply (neat_quiet connect I)|]. intros _ _.
  eapply neat_bind; [apply (neat_quiet startTransaction I)|]. intros _ _.
  eapply neat_bind with (Q := fun _ => True); [|intros; apply neat_findOne].
  apply neat_try_finally; [|apply (neat_quiet release I)].
  apply neat_try_catch.
  - unfold create_transaction, usersService_findOne.
    eapply neat_bind with (Q := fun _ => True).
    { eapply neat_bind; [apply (neat_quiet (users_lookup _) I)|]. intros [u|] _; exact I. }
    intros user _.
    eapply neat_bind; [apply (neat_quiet (manager_insert_Order _ _ _) I)|]. intros o _.
    eapply neat_bind.
    { apply (neat_create_lines o _ _ Hq). split; constructor. }
    intros vars [Hi Hp]. cbv beta.
    eapply neat_bind; [apply (neat_quiet (manager_save_OrderItems _) Hi)|]. intros _ _.
    eapply neat_bind; [apply (neat_quiet (manager_save_Products _) Hp)|]. intros _ _.
    cbv zeta.
    eapply neat_bind; [apply (neat_quiet (manager_save_Order _) I)|]. intros _ _.
    eapply neat_bind; [apply (neat_quiet commitTransaction I)|]. intros _ _. exact I.
  - intros e. eapply neat_bind; [apply (neat_quiet rollbackTransaction I)|].
    intros _ _. exact I.
Qed.

Lemma neat_cancel_items items :
  Forall (fun it => 1 <= OrderItem.quantity it) items ->
  neat (cancel_items items) (fun _ => True).
Proof.
  induction 1 as [|it items Hq _ IH]; cbn [cancel_items]; [exact I|].
  eapply neat_bind with (Q := fun prod => match prod with
                                           | Some p => product_ok p
                                           | None => True
                                           end).
  - apply neat_call; [exact I|]. intros [p|] Hr; [exact Hr | exact I].
  - intros [p|] Hp; [|exact IH]. cbv zeta.
    eapply neat_bind; [|intros _ _; exact IH].
    apply neat_quiet. cbn [call_ok]. constructor; [|constructor].
    destruct Hp as [Hs _]. unfold product_ok, set_isAvailable, set_stock.
    cbn [Product.stock Product.isAvailable]. split; [lia|].
    symmetry. apply Z.gtb_lt. lia.
Qed.

Lemma neat_cancel id : neat (cancel id) (fun _ => True).
Proof.
  unfold cancel.
  eapply neat_bind; [apply (neat_quiet connect I)|]. intros _ _.
  eapply neat_bind; [apply (neat_quiet startTransaction I)|]. intros _ _.
  apply neat_try_finally; [|apply (neat_quiet release I)].
  apply neat_try_catch.
  - unfold cancel_transaction.
    eapply neat_bind; [apply (neat_quiet (manager_findOne_Order_locked _) I)|]. intros _ _.
    eapply neat_bind with (Q := fun order =>
      match order with
      | Some o => Forall (fun it => 1 <= OrderItem.quantity it) (Order.items o)
      | None => True
      end).
    { apply neat_call; [exact I|]. intros [o|] Hr; [exact Hr | exact I]. }
    intros [order|] Hitems; [|exact I].
    destruct (negb (status_eqb (Order.status order) PENDING)); [exact I|].
    eapply neat_bind; [apply (neat_cancel_items _ Hitems)|]. intros _ _. cbv zeta.
    eapply neat_bind; [apply (neat_quiet (manager_save_Order _) I)|]. intros o _.
    eapply neat_bind; [apply (neat_quiet commitTransaction I)|]. intros _ _. exact I.
  - intros e. eapply neat_bind; [apply (neat_quiet rollbackTransaction I)|]. intros _ _.
    eapply neat_bind; [apply (neat_quiet (logger_error _ _) I)|]. intros _ _.
    destruct (instanceof_HttpException e); exact I.
Qed.

Lemma neat_updateStatus id status : neat (updateStatus id status) (fun _ => True).
Proof.
  unfold updateStatus. destruct (status_eqb status CANCELLED); [apply neat_cancel|].
  eapply neat_bind; [apply neat_findOne|]. intros order _.
  destruct (status_eqb (Order.status order) CANCELLED); [exact I|].
  apply (neat_quiet (repository_save _) I).
Qed.

Lemma neat_body m : accepted m = true -> neat (body m) (fun _ => True).
Proof.
  destruct m as [dto|id|id status]; cbn [accepted body]; intros Hv;
    [apply neat_create; exact Hv | apply neat_cancel | apply neat_updateStatus].
Qed.

Lemma Forall_replace_nth {X} (P : X -> Prop) x : forall n (l : list X),
  Forall P l -> P x -> Forall P (replace_nth n x l).
Proof.
  induction n as [|n IH]; intros [|y l] Hl Hx; cbn [replace_nth]; try exact Hl;
    inversion Hl; subst; constructor; try assumption. apply IH; assumption.
Qed.

Lemma step_all_neat (c c' : Config) : step c c' -> all_neat c -> all_neat c'.
Proof.
  intros Hstep [Hdb Hall].
  destruct Hstep as [tid sh qs q R c0 k r sh' lo' Hq Hp Hb Hh]. cbn [fst snd] in *.
  pose proof (nth_error_In _ _ Hq) as Hin. rewrite Forall_forall in Hall.
  destruct (Hall q Hin) as [Hpend Hneat]. rewrite Hp in Hneat. cbn [neat] in Hneat.
  destruct Hneat as [Hc Hk].
  destruct (handle_tidy tid c0 sh (local q) r sh' lo' Hdb Hpend Hc Hh) as (Hdb' & Hp' & Hr).
  split; [exact Hdb'|]. cbn [fst snd]. apply Forall_replace_nth.
  - apply Forall_forall. intros q' Hin'. exact (Hall q' Hin').
  - cbn [local program]. split; [exact Hp' | apply Hk; exact Hr].
Qed.

Lemma steps_all_neat n : forall (c c' : Config), steps n c c' -> all_neat c -> all_neat c'.
Proof.
  induction n as [|n IH]; intros c c' Hsteps Hall; inversion Hsteps; subst.
  - exact Hall.
  - eapply IH; [eassumption|]. eapply step_all_neat; eassumption.
Qed.

End NeatMethods.

(** * A request that runs on its own, and requests that cross *)

Section Solo.
Context `{JsArith}.

Lemma steps_trans n : forall m (c c1 c2 : Config),
  steps n c c1 -> steps m c1 c2 -> steps (n + m) c c2.
Proof.
  induction n as [|n IH]; intros m c c1 c2 H1 H2; inversion H1; subst; [exact H2|].
  cbn [Nat.add]. econstructor; [eassumption|]. eapply IH; eassumption.
Qed.

Lemma replace_nth_twice {X} (x y : X) : forall n l,
  replace_nth n y (replace_nth n x l) = replace_nth n y l.
Proof.
  induction n as [|n IH]; intros [|z l]; cbn [replace_nth]; try reflexivity.
  rewrite IH. reflexivity.
Qed.

Lemma nth_error_replaced {X} (x : X) : forall n l,
  (n < List.length l)%nat -> nth_error (replace_nth n x l) n = Some x.
Proof.
  induction n as [|n IH]; intros [|z l] Hlt; cbn [List.length] in Hlt; try lia;
    cbn [replace_nth nth_error]; [reflexivity|]. apply IH. lia.
Qed.

Lemma length_replace_nth {X} (x : X) : forall n l,
  List.length (replace_nth n x l) = List.length l.
Proof.
  induction n as [|n IH]; intros [|z l]; cbn [replace_nth List.length]; try reflexivity.
  rewrite IH. reflexivity.
Qed.

(** A call of request [tid] takes locks for [tid] only. *)
Lemma handle_locks tid {R} (c : Call R) (sh : Shared) lo r sh' lo' :
  handle tid c sh lo = (r, sh', lo') ->
  forall x t, In (x, t) (locks sh') -> In (x, t) (locks sh) \/ t = tid.
Proof.
  intros Hh x t.
  destruct c; cbn [handle] in Hh; unfold storage in Hh;
    try (destruct (hd false (faults lo)); [injection Hh as <- <- <-; tauto|]);
    try (destruct (write _ sh (tick lo)) as [sh1 lo1] eqn:Hw;
         assert (Hl : locks sh1 = locks sh)
           by (unfold write in Hw; destruct (writes (tick lo));
               injection Hw as <- <-; reflexivity));
    try (injection Hh as <- <- <-; cbn [locks set_tables]; try rewrite Hl; tauto).
  - injection Hh as <- <- <-. intros Hin. apply In_release_locks in Hin. tauto.
  - injection Hh as <- <- <-. intros Hin. apply In_release_locks in Hin. tauto.
  - destruct (find_by Product.id id _); injection Hh as <- <- <-; [|tauto].
    intros Hin. apply In_locks_acquire in Hin. destruct Hin as [Hin | [[= <- <-] _]]; tauto.
  - destruct (find_by Order.id id _); injection Hh as <- <- <-; [|tauto].
    intros Hin. apply In_locks_acquire in Hin. destruct Hin as [Hin | [[= <- <-] _]]; tauto.
Qed.

Lemma alone_not_blocked tid {R} (c : Call R) (sh : Shared) :
  (forall x t, In (x, t) (locks sh) -> t = tid) -> blocked tid c sh = false.
Proof.
  intros Hmine.
  assert (Hno : forall r, held_by_other tid r (locks sh) = false).
  { intros r. unfold held_by_other. destruct (existsb _ (locks sh)) eqn:E; [|reflexivity].
    apply existsb_exists in E. destruct E as ([x t] & Hin & Hx). cbn [fst snd] in Hx.
    apply andb_prop in Hx. destruct Hx as [_ Hx]. apply negb_true_iff in Hx.
    apply Nat.eqb_neq in Hx. exfalso. apply Hx. exact (Hmine x t Hin). }
  destruct c; cbn [blocked]; try reflexivity; apply Hno.
Qed.

(** A request that no other request's locks stand in the way of can take
    all its calls one after the other, as when it runs alone. *)
Lemma solo_steps tid (p : Prog Order.t) : forall (sh : Shared) lo qs r sh' lo',
  (tid < List.length qs)%nat ->
  (forall x t, In (x, t) (locks sh) -> t = tid) ->
  run tid p sh lo = (r, sh', lo') ->
  exists n,
    steps n (sh, replace_nth tid (mkRequest p lo) qs)
            (sh', replace_nth tid (mkRequest (lift r) lo') qs) /\
    (forall x t, In (x, t) (locks sh') -> t = tid).
Proof.
  induction p as [a|e|R c k IH]; intros sh lo qs r sh' lo' Hlt Hmine Hrun;
    cbn [run] in Hrun.
  - injection Hrun as <- <- <-. exists 0%nat. split; [constructor | exact Hmine].
  - injection Hrun as <- <- <-. exists 0%nat. split; [constructor | exact Hmine].
  - destruct (handle tid c sh lo) as [[r1 sh1] lo1] eqn:Hh.
    assert (Hmine1 : forall x t, In (x, t) (locks sh1) -> t = tid).
    { intros x t Hin. destruct (handle_locks tid c sh lo r1 sh1 lo1 Hh x t Hin) as [Hin0 | E];
        [exact (Hmine x t Hin0) | exact E]. }
    destruct (IH r1 sh1 lo1 qs r sh' lo' Hlt Hmine1 Hrun) as (n & Hsteps & Hmine').
    exists (S n). split; [|exact Hmine'].
    econstructor; [|exact Hsteps].
    rewrite <- (replace_nth_twice (mkRequest (Vis c k) lo) (mkRequest (k r1) lo1) tid qs).
    apply (step_call tid sh _ (mkRequest (Vis c k) lo) R c k r1 sh1 lo1).
    + apply nth_error_replaced. exact Hlt.
    + reflexivity.
    + apply alone_not_blocked. exact Hmine.
    + exact Hh.
Qed.

Lemma step_at tid (sh : Shared) qs q {R} (c : Call R) k r sh' lo' qs' :
  nth_error qs tid = Some q ->
  program q = Vis c k ->
  blocked tid c sh = false ->
  handle tid c sh (local q) = (r, sh', lo') ->
  qs' = replace_nth tid (mkRequest (k r) lo') qs ->
  step (sh, qs) (sh', qs').
Proof. intros Hq Hp Hb Hh ->. eapply step_call; eassumption. Qed.

End Solo.

Section Deadlock.
Context `{JsArith}.

Lemma takes_steps tid n : forall p (sh : Shared) lo p' sh' lo' qs,
  (tid < List.length qs)%nat ->
  takes tid n (p, sh, lo) (p', sh', lo') ->
  steps n (sh, replace_nth tid (mkRequest p lo) qs)
          (sh', replace_nth tid (mkRequest p' lo') qs).
Proof.
  induction n as [|n IH]; intros p sh lo p' sh' lo' qs Hlt Ht; inversion Ht; subst.
  - constructor.
  - econstructor; [|apply IH; [exact Hlt | eassumption]].
    eapply step_at.
    + apply nth_error_replaced. exact Hlt.
    + reflexivity.
    + eassumption.
    + eassumption.
    + rewrite replace_nth_twice. reflexivity.
Qed.

(** [create] of a request for [a] and then [b] gets, in five calls, to
    where it holds the lock of [a] and is about to read [b]. *)
Lemma create_first_lock tid (sh : Shared) u a b qa qb user pa :
  find_by User.id u (users (tables sh)) = Some user ->
  find_by Product.id a (products (tables sh)) = Some pa ->
  Product.isAvailable pa = true -> qa <= Product.stock pa ->
  a <> b ->
  (forall t, ~ In (ProductRow a, t) (locks sh)) ->
  exists k sh' lo',
    takes tid 5
      (create (CreateOrderDto.mk u [OrderItemDto.mk a qa; OrderItemDto.mk b qb]),
       sh, fresh [])
      (Vis (manager_findOne_Product_locked b) k, sh', lo') /\
    tables sh' = tables sh /\
    locks sh' = locks sh ++ [(ProductRow a, tid)].
Proof.
  intros Hu Ha Hav Hq Hab Hfree.
  assert (Hnot : held_by_other tid (ProductRow a) (locks sh) = false).
  { unfold held_by_other. destruct (existsb _ (locks sh)) eqn:E; [|reflexivity].
    apply existsb_exists in E. destruct E as ([x t] & Hin & Hx). cbn [fst snd] in Hx.
    apply andb_prop in Hx. destruct Hx as [Hx _]. apply RowRef_eqb_eq in Hx. subst x.
    destruct (Hfree t Hin). }
  assert (Hnone : existsb (fun l => RowRef_eqb (fst l) (ProductRow a)) (locks sh) = false).
  { destruct (existsb _ (locks sh)) eqn:E; [|reflexivity].
    apply existsb_exists in E. destruct E as ([x t] & Hin & Hx). cbn [fst] in Hx.
    apply RowRef_eqb_eq in Hx. subst x. destruct (Hfree t Hin). }
  eexists. eexists. eexists. split; [|split].
  - unfold create, call. cbn [bind].
    eapply takes_S; [reflexivity | reflexivity |].
    eapply takes_S; [reflexivity | reflexivity |].
    cbn [bind try_finally try_catch create_transaction usersService_findOne call
         CreateOrderDto.userId CreateOrderDto.items].
    eapply takes_S; [reflexivity | |].
    { cbn [handle]. unfold storage. cbn [fresh faults set_writes hd tick]. rewrite Hu.
      reflexivity. }
    cbn [bind try_catch].
    eapply takes_S; [reflexivity | |].
    { cbn [handle]. unfold storage, write.
      cbn [fresh faults writes reads set_writes hd tl tick app]. reflexivity. }
    cbn [bind try_catch create_lines create_line lookup_product updatedProducts Map_get find
         OrderItemDto.productId call].
    eapply takes_S; [exact Hnot | |].
    { cbn [handle]. unfold storage, view.
      cbn [faults writes reads hd tl tick apply_writes fold_left apply_write products tables].
      rewrite Ha. reflexivity. }
    cbn [bind try_catch reserve_line lift]. rewrite Hav. cbn [negb].
    destruct (Z.ltb_spec (Product.stock pa) (OrderItemDto.quantity (OrderItemDto.mk a qa)))
      as [Hlt|_]; [cbn [OrderItemDto.quantity] in Hlt; lia|].
    cbn [bind try_catch lift create_lines]. unfold create_line, lookup_product.
    cbn [updatedProducts OrderItemDto.productId].
    rewrite Map_get_set. unfold set_isAvailable, set_stock. cbn [Product.id Map_get find].
    destruct (Z.eqb_spec (Product.id pa) b) as [E|_].
    { apply find_by_some in Ha. destruct Ha as [_ Ha]. congruence. }
    unfold call. cbn [bind try_catch]. apply takes_O.
  - unfold acquire. cbn [locks tables]. rewrite Hnone. reflexivity.
  - unfold acquire. cbn [locks tables]. rewrite Hnone. reflexivity.
Qed.

End Deadlock.

(** * Any invariant under any interleaving *)

Section Generic.
Context `{JsArith}.
Variable J : Shared -> Prop.
Variable G : nat -> Shared -> Shared -> Prop.

Lemma proceeds_bind {X Y} tid (p : Prog X) (f : X -> Prog Y) Q Q' E : forall sh lo,
  proceeds J G tid p Q E sh lo ->
  (forall a sh lo, Q a sh lo -> proceeds J G tid (f a) Q' E sh lo) ->
  proceeds J G tid (bind p f) Q' E sh lo.
Proof.
  induction p as [a|e|R c k IH]; intros sh lo Hp Hf; cbn [bind proceeds] in *.
  - apply Hf. exact Hp.
  - exact Hp.
  - destruct Hp as (B & Hst & HB & Hstep). exists B. split; [exact Hst|]. split; [exact HB|].
    intros sh1 lo1 r sh' lo' Hs HB1 Hb Hh.
    destruct (Hstep sh1 lo1 r sh' lo' Hs HB1 Hb Hh) as (Hs' & Hg & Hk).
    split; [exact Hs'|]. split; [exact Hg|]. apply IH; assumption.
Qed.

Lemma proceeds_try_catch {X} tid (p : Prog X) (h : Exception -> Prog X) Q E E' :
  forall sh lo,
  proceeds J G tid p Q E sh lo ->
  (forall e sh lo, E e sh lo -> proceeds J G tid (h e) Q E' sh lo) ->
  proceeds J G tid (try_catch p h) Q E' sh lo.
Proof.
  induction p as [a|e|R c k IH]; intros sh lo Hp Hh; cbn [try_catch proceeds] in *.
  - exact Hp.
  - apply Hh. exact Hp.
  - destruct Hp as (B & Hst & HB & Hstep). exists B. split; [exact Hst|]. split; [exact HB|].
    intros sh1 lo1 r sh' lo' Hs HB1 Hb Hhd.
    destruct (Hstep sh1 lo1 r sh' lo' Hs HB1 Hb Hhd) as (Hs' & Hg & Hk).
    split; [exact Hs'|]. split; [exact Hg|]. apply IH; assumption.
Qed.

Lemma proceeds_call {R} tid (c : Call R) (B : Assn) Q E sh lo :
  stable_under G tid B -> B sh lo ->
  (forall sh1 lo1 r sh' lo',
     J sh1 -> B sh1 lo1 -> blocked tid c sh1 = false ->
     handle tid c sh1 lo1 = (r, sh', lo') ->
     J sh' /\ G tid sh1 sh' /\
     match r with
     | inl e => E e sh' lo'
     | inr v => Q v sh' lo'
     end) ->
  proceeds J G tid (call c) Q E sh lo.
Proof.
  intros Hst HB Hstep. unfold call. cbn [proceeds]. exists B.
  split; [exact Hst|]. split; [exact HB|].
  intros sh1 lo1 r sh' lo' Hs HB1 Hb Hh.
  destruct (Hstep sh1 lo1 r sh' lo' Hs HB1 Hb Hh) as (Hs' & Hg & Hr).
  split; [exact Hs'|]. split; [exact Hg|]. destruct r; exact Hr.
Qed.

Lemma proceeds_weaken {X} tid (p : Prog X) (Q Q' : X -> Assn) (E E' : Exception -> Assn) :
  (forall a sh lo, Q a sh lo -> Q' a sh lo) ->
  (forall e sh lo, E e sh lo -> E' e sh lo) ->
  forall sh lo, proceeds J G tid p Q E sh lo -> proceeds J G tid p Q' E' sh lo.
Proof.
  intros HQ HE. induction p as [a|e|R c k IH]; intros sh lo Hp; cbn [proceeds] in *.
  - apply HQ. exact Hp.
  - apply HE. exact Hp.
  - destruct Hp as (B & Hst & HB & Hstep). exists B. split; [exact Hst|]. split; [exact HB|].
    intros sh1 lo1 r sh' lo' Hs HB1 Hb Hh.
    destruct (Hstep sh1 lo1 r sh' lo' Hs HB1 Hb Hh) as (Hs' & Hg & Hk).
    split; [exact Hs'|]. split; [exact Hg|]. apply IH. exact Hk.
Qed.

Lemma proceeds_stable tid t (p : Prog Order.t) sh sh' lo :
  t <> tid -> G t sh sh' ->
  proceeds J G tid p anything anything sh lo ->
  proceeds J G tid p anything anything sh' lo.
Proof.
  intros Hne Hg. destruct p as [a|e|R c k]; cbn [proceeds]; [exact (fun x => x) .. |].
  intros (B & Hst & HB & Hstep). exists B. split; [exact Hst|].
  split; [exact (Hst t sh sh' lo Hne Hg HB) | exact Hstep].
Qed.

Lemma step_all_proceed (c c' : Config) :
  step c c' -> all_proceed J G c -> all_proceed J G c'.
Proof.
  intros Hstep [Hs Hall].
  destruct Hstep as [tid sh qs q R c0 k r sh' lo' Hq Hp Hb Hh]. cbn [fst snd] in *.
  pose proof (Hall tid q Hq) as Hsafe. rewrite Hp in Hsafe. cbn [proceeds] in Hsafe.
  destruct Hsafe as (B & Hst & HB & Hcall).
  destruct (Hcall sh (local q) r sh' lo' Hs HB Hb Hh) as (Hs' & Hg & Hk).
  split; [exact Hs'|]. cbn [fst snd].
  intros t q'. rewrite nth_error_replace_nth.
  destruct (Nat.eqb_spec tid t) as [<- | Hne].
  - rewrite Hq. cbn [option_map]. intros [= <-]. exact Hk.
  - intros Hq'. apply (proceeds_stable t tid _ sh sh'); [congruence | exact Hg |].
    apply Hall. exact Hq'.
Qed.

Lemma steps_all_proceed n : forall (c c' : Config),
  steps n c c' -> all_proceed J G c -> all_proceed J G c'.
Proof.
  induction n as [|n IH]; intros c c' Hsteps Hall; inversion Hsteps; subst.
  - exact Hall.
  - eapply IH; [eassumption|]. eapply step_all_proceed; eassumption.
Qed.

End Generic.

(** * Cancellations in flight together *)

Section Held.
Context `{JsArith}.

Lemma find_by_keys {T} (key : T -> Z) k (l l' : list T) :
  map key l = map key l' -> find_by key k l = None -> find_by key k l' = None.
Proof.
  intros Hk Hn. destruct (find_by key k l') as [x|] eqn:E; [|reflexivity]. exfalso.
  apply find_by_some in E. destruct E as [Hin Hx].
  assert (Hin' : In k (map key l)) by (rewrite Hk, <- Hx; apply in_map; exact Hin).
  apply in_map_iff in Hin'. destruct Hin' as (y & Hy & Hiny).
  exact (find_by_none _ _ _ Hn y Hiny Hy).
Qed.

Lemma find_by_keys_iff {T} (key : T -> Z) k (l l' : list T) :
  map key l = map key l' -> (find_by key k l = None <-> find_by key k l' = None).
Proof. intros Hk. split; apply find_by_keys; congruence. Qed.

(** What a transaction that wrote product rows only sees under [k]. *)
Lemma products_apply_writes ws : forall (db : DB) k,
  Forall (fun w => exists l, w = W_products l) ws ->
  find_by Product.id k (products (apply_writes db ws)) =
  match last_write k ws with
  | Some p => Some p
  | None => find_by Product.id k (products db)
  end.
Proof.
  induction ws as [|w ws IH]; intros db k Hws; [reflexivity|].
  inversion Hws as [|? ? (l & ->) Hws']; subst.
  cbn [apply_writes fold_left last_write]. fold (apply_writes (apply_write db (W_products l)) ws).
  rewrite (IH _ k Hws'). destruct (last_write k ws); [reflexivity|].
  cbn [apply_write products]. apply find_fold_upsert.
Qed.

Lemma rest_apply_writes ws : forall (db : DB),
  Forall (fun w => exists l, w = W_products l) ws ->
  orders (apply_writes db ws) = orders db /\
  order_items (apply_writes db ws) = order_items db /\
  users (apply_writes db ws) = users db.
Proof.
  induction ws as [|w ws IH]; intros db Hws; [repeat split|].
  inversion Hws as [|? ? (l & ->) Hws']; subst.
  cbn [apply_writes fold_left]. fold (apply_writes (apply_write db (W_products l)) ws).
  destruct (IH (apply_write db (W_products l)) Hws') as (Ho & Hi & Hu).
  rewrite Ho, Hi, Hu. repeat split.
Qed.

Lemma keys_apply_writes ws : forall (db : DB),
  Forall (fun w => exists p, w = W_products [p] /\
                             find_by Product.id (Product.id p) (products db) <> None) ws ->
  map Product.id (products (apply_writes db ws)) = map Product.id (products db).
Proof.
  induction ws as [|w ws IH]; intros db Hws; [reflexivity|].
  inversion Hws as [|? ? (p & -> & Hp) Hws']; subst.
  cbn [apply_writes fold_left]. fold (apply_writes (apply_write db (W_products [p])) ws).
  assert (Hk : map Product.id (products (apply_write db (W_products [p])))
               = map Product.id (products db)).
  { cbn [apply_write products fold_left]. apply keys_upsert_present.
    rewrite existsb_find_by. destruct (find_by Product.id (Product.id p) (products db));
      [reflexivity | contradiction]. }
  rewrite IH, Hk; [reflexivity|].
  eapply Forall_impl; [|exact Hws']. intros w (p' & -> & Hp').
  exists p'. split; [reflexivity|]. intros Hn. apply Hp'.
  exact (find_by_keys Product.id _ _ _ Hk Hn).
Qed.

Lemma last_write_app k ws w :
  last_write k (ws ++ [w]) =
  match w with
  | W_products l =>
      match find_by Product.id k (rev l) with
      | Some p => Some p
      | None => last_write k ws
      end
  | _ => last_write k ws
  end.
Proof.
  induction ws as [|w' ws IH]; cbn [app last_write].
  - destruct w; try reflexivity. destruct (find_by _ k (rev l)); reflexivity.
  - rewrite IH. destruct w; try reflexivity.
    destruct (find_by _ k (rev l)); reflexivity.
Qed.

(** Cancelling one order takes its items out of what is held. *)
Lemma held_cancelled (db db' : DB) id row row' k :
  find_by Order.id id (orders db) = Some row ->
  Order.status row = PENDING ->
  Order.id row' = id -> Order.status row' = CANCELLED ->
  orders db' = upsert Order.id row' (orders db) ->
  order_items db' = order_items db ->
  held db' k = held db k - returned k (items_of db id).
Proof.
  intros Hrow Hst Hid' Hst' Ho Hi. unfold held, items_of. rewrite Hi.
  assert (Hp : forall i, pending db' i = if i =? id then false else pending db i).
  { intros i. unfold pending. rewrite Ho, find_by_upsert, Hid'.
    destruct (Z.eqb_spec id i) as [<-|Hne].
    - rewrite Z.eqb_refl, Hst'. reflexivity.
    - destruct (Z.eqb_spec i id); [congruence | reflexivity]. }
  assert (Hpid : pending db id = true) by (unfold pending; rewrite Hrow, Hst; reflexivity).
  clear Hi. induction (order_items db) as [|it l IH]; [reflexivity|].
  cbn [filter]. rewrite Hp.
  destruct (Z.eqb_spec (OrderItem.orderId it) id) as [E|E].
  - rewrite E, Hpid. cbn [returned fold_right].
    fold (returned k (filter (fun it => pending db (OrderItem.orderId it)) l)).
    fold (returned k (filter (fun it => OrderItem.orderId it =? id) l)).
    rewrite IH. destruct (OrderItem.productId it =? k); lia.
  - destruct (pending db (OrderItem.orderId it)); [|exact IH].
    cbn [returned fold_right].
    fold (returned k (filter (fun it => pending db (OrderItem.orderId it)) l)).
    fold (returned k (filter (fun it => pending db' (OrderItem.orderId it)) l)).
    rewrite IH. destruct (OrderItem.productId it =? k); lia.
Qed.

Lemma referenced_app k (l l' : list OrderItem.t) :
  referenced k (l ++ l') = referenced k l || referenced k l'.
Proof. unfold referenced. apply existsb_app. Qed.

Lemma keeps_rows_refl tid (sh : Shared) : keeps_rows tid sh sh.
Proof. repeat split; intros; tauto. Qed.

Lemma keeps_rows_same tid (sh sh' : Shared) :
  tables sh' = tables sh -> locks sh' = locks sh -> keeps_rows tid sh sh'.
Proof. intros Ht Hl. unfold keeps_rows. rewrite Ht, Hl. repeat split; intros; tauto. Qed.

Lemma keeps_rows_acquire tid r (sh : Shared) : keeps_rows tid sh (acquire tid r sh).
Proof.
  unfold keeps_rows. rewrite (proj1 (acquire_tables tid r sh)).
  split; [|repeat split; intros; reflexivity].
  intros r0 t Hne. split.
  - intros Hin. apply In_locks_acquire in Hin. destruct Hin as [Hin | [E _]]; [exact Hin|].
    inversion E; subst. contradiction.
  - apply locks_acquire_incl.
Qed.

Lemma keeps_rows_release tid (sh : Shared) : keeps_rows tid sh (release_locks tid sh).
Proof.
  unfold keeps_rows. cbn [tables release_locks].
  split; [|repeat split; intros; reflexivity].
  intros r t Hne. rewrite In_release_locks. tauto.
Qed.

Lemma restocked_once_same db0 (sh sh' : Shared) :
  tables sh' = tables sh -> locks sh' = locks sh ->
  restocked_once db0 sh -> restocked_once db0 sh'.
Proof.
  intros Ht Hl. unfold restocked_once, locks_ok. rewrite Ht, Hl. exact (fun h => h).
Qed.

Lemma restocked_once_acquire db0 tid r (sh : Shared) :
  restocked_once db0 sh -> restocked_once db0 (acquire tid r sh).
Proof.
  intros (Hl & Hrest). split; [apply locks_ok_acquire; exact Hl|].
  rewrite (proj1 (acquire_tables tid r sh)). exact Hrest.
Qed.

Lemma restocked_once_release db0 tid (sh : Shared) :
  restocked_once db0 sh -> restocked_once db0 (release_locks tid sh).
Proof.
  intros (Hl & Hrest). split; [apply locks_ok_release; exact Hl | exact Hrest].
Qed.

End Held.

Section Cancels.
Context `{JsArith}.
Variable db0 : DB.


Lemma keeps_mine tid t (sh sh' : Shared) r :
  t <> tid -> keeps_rows t sh sh' -> In (r, tid) (locks sh) -> In (r, tid) (locks sh').
Proof. intros Hne (Hl & _) Hin. apply (Hl r tid); [congruence | exact Hin]. Qed.

Lemma holds_stable tid t o done ws (sh sh' : Shared) :
  t <> tid -> keeps_rows t sh sh' -> holds tid o done ws sh -> holds tid o done ws sh'.
Proof.
  intros Hne Hg (Hown & Hload & Hst & Hws & Hmine & Hlast).
  pose proof Hg as (Hl & Hprod & Hord & Hpk & Hok & Hitems).
  assert (Hnone : forall k, find_by Product.id k (products (tables sh')) <> None ->
                            find_by Product.id k (products (tables sh)) <> None).
  { intros k Hk Hn. apply Hk. exact (find_by_keys Product.id k _ _ (eq_sym Hpk) Hn). }
  split; [exact (keeps_mine tid t sh sh' _ Hne Hg Hown)|].
  split.
  { unfold load_order, items_of in *. rewrite Hitems.
    rewrite (Hord (Order.id o) tid (not_eq_sym Hne) Hown). exact Hload. }
  split; [exact Hst|]. split; [|split].
  - eapply Forall_impl; [|exact Hws]. intros w (p & -> & Href & Hp).
    exists p. split; [reflexivity|]. split; [exact Href|]. intros Hn. apply Hp.
    exact (find_by_keys Product.id _ _ _ Hpk Hn).
  - intros k Href Hk. apply (keeps_mine tid t sh sh' _ Hne Hg).
    apply Hmine; [exact Href | apply Hnone; exact Hk].
  - intros k. rewrite Hlast. destruct (referenced k done) eqn:Href; [|reflexivity].
    destruct (find_by Product.id k (products (tables sh))) as [p0|] eqn:Hp0.
    + rewrite (Hprod k tid (not_eq_sym Hne)); [rewrite Hp0; reflexivity|].
      apply Hmine; [exact Href | rewrite Hp0; discriminate].
    + rewrite (find_by_keys Product.id k _ _ (eq_sym Hpk) Hp0). reflexivity.
Qed.

Lemma stable_restocking tid o done : stable_under keeps_rows tid (restocking tid o done).
Proof.
  intros t sh sh' lo Hne Hg (ws & Hw & Hh). exists ws. split; [exact Hw|].
  exact (holds_stable tid t o done ws sh sh' Hne Hg Hh).
Qed.

Lemma stable_restocking_row tid o done it p0 :
  stable_under keeps_rows tid (restocking_row tid o done it p0).
Proof.
  intros t sh sh' lo Hne Hg (Hr & Hown & Hp0).
  split; [exact (stable_restocking tid o done t sh sh' lo Hne Hg Hr)|].
  split; [exact (keeps_mine tid t sh sh' _ Hne Hg Hown)|].
  destruct Hg as (_ & Hprod & _). rewrite (Hprod _ tid (not_eq_sym Hne) Hown). exact Hp0.
Qed.

Lemma stable_committing tid o : stable_under keeps_rows tid (committing tid o).
Proof.
  intros t sh sh' lo Hne Hg (ws & Hw & Hh). exists ws. split; [exact Hw|].
  exact (holds_stable tid t o _ ws sh sh' Hne Hg Hh).
Qed.

Lemma stable_asked tid id : stable_under keeps_rows tid (asked tid id).
Proof.
  intros t sh sh' lo Hne Hg [Hw Hid]. split; [exact Hw|].
  destruct Hid as [Hown | Hnone]; [left; exact (keeps_mine tid t sh sh' _ Hne Hg Hown)|].
  right. destruct Hg as (_ & _ & _ & _ & Hok & _).
  exact (find_by_keys Order.id id _ _ (eq_sym Hok) Hnone).
Qed.

Lemma stable_in_tx' tid ws : stable_under keeps_rows tid (in_tx ws).
Proof. intros t sh sh' lo _ _ Hw. exact Hw. Qed.

Lemma stable_anything' tid : stable_under keeps_rows tid (fun _ _ => True).
Proof. intros t sh sh' lo _ _ _. exact I. Qed.

(** What the transaction of a cancellation at work sees of the products. *)
Lemma holds_view tid o done ws (sh : Shared) k :
  holds tid o done ws sh ->
  find_by Product.id k (products (apply_writes (tables sh) ws))
  = option_map (restock_row done k) (find_by Product.id k (products (tables sh))).
Proof.
  intros (_ & _ & _ & Hws & _ & Hlast).
  rewrite products_apply_writes.
  2:{ eapply Forall_impl; [|exact Hws]. intros w (p & -> & _). exists [p]. reflexivity. }
  rewrite Hlast. unfold restock_row.
  destruct (referenced k done); [|destruct (find_by _ k _); reflexivity].
  destruct (find_by Product.id k (products (tables sh))); reflexivity.
Qed.

Lemma holds_rest tid o done ws (sh : Shared) :
  holds tid o done ws sh ->
  orders (apply_writes (tables sh) ws) = orders (tables sh) /\
  order_items (apply_writes (tables sh) ws) = order_items (tables sh).
Proof.
  intros (_ & _ & _ & Hws & _).
  destruct (rest_apply_writes ws (tables sh)) as (Ho & Hi & _); [|split; assumption].
  eapply Forall_impl; [|exact Hws]. intros w (p & -> & _). exists [p]. reflexivity.
Qed.

Lemma restock_row_app_other done it k p :
  OrderItem.productId it <> k ->
  restock_row (done ++ [it]) k p = restock_row done k p.
Proof.
  intros Hne. unfold restock_row. rewrite referenced_app, returned_app.
  cbn [referenced existsb returned fold_right].
  destruct (Z.eqb_spec (OrderItem.productId it) k); [contradiction|].
  rewrite orb_false_r, Z.add_0_r. reflexivity.
Qed.

Lemma referenced_app_other done it k :
  OrderItem.productId it <> k ->
  referenced k (done ++ [it]) = referenced k done.
Proof.
  intros Hne. rewrite referenced_app. cbn [referenced existsb].
  destruct (Z.eqb_spec (OrderItem.productId it) k); [contradiction|].
  rewrite !orb_false_r. reflexivity.
Qed.

Lemma referenced_app_same done it :
  referenced (OrderItem.productId it) (done ++ [it]) = true.
Proof.
  rewrite referenced_app. cbn [referenced existsb]. rewrite Z.eqb_refl.
  apply orb_true_iff. right. reflexivity.
Qed.

Lemma referenced_app_more done it k :
  referenced k done = true -> referenced k (done ++ [it]) = true.
Proof. intros Hr. rewrite referenced_app, Hr. reflexivity. Qed.

(** An item whose product has no row is passed over. *)
Lemma holds_skip tid o done ws it (sh : Shared) :
  holds tid o done ws sh ->
  find_by Product.id (OrderItem.productId it) (products (tables sh)) = None ->
  holds tid o (done ++ [it]) ws sh.
Proof.
  intros (Hown & Hload & Hst & Hws & Hmine & Hlast) Hnone.
  split; [exact Hown|]. split; [exact Hload|]. split; [exact Hst|]. split; [|split].
  - eapply Forall_impl; [|exact Hws]. intros w (p & -> & Href & Hp).
    exists p. split; [reflexivity|]. split; [apply referenced_app_more; exact Href | exact Hp].
  - intros k Href Hk. destruct (Z.eqb_spec (OrderItem.productId it) k) as [E|E].
    + subst k. contradiction.
    + rewrite (referenced_app_other done it k E) in Href. exact (Hmine k Href Hk).
  - intros k. rewrite Hlast. destruct (Z.eqb_spec (OrderItem.productId it) k) as [E|E].
    + subst k. rewrite referenced_app_same, Hnone.
      destruct (referenced _ done); reflexivity.
    + rewrite (referenced_app_other done it k E).
      destruct (referenced k done); [|reflexivity].
      destruct (find_by Product.id k _); [|reflexivity].
      cbn [option_map]. rewrite (restock_row_app_other done it k _ E). reflexivity.
Qed.

(** An item whose product has a row adds its quantity to it. *)
Lemma holds_restock tid o done ws it p0 (sh : Shared) :
  holds tid o done ws sh ->
  In (ProductRow (OrderItem.productId it), tid) (locks sh) ->
  find_by Product.id (OrderItem.productId it) (products (tables sh)) = Some p0 ->
  holds tid o (done ++ [it])
    (ws ++ [W_products
              [set_isAvailable
                 (set_stock (restock_row done (OrderItem.productId it) p0)
                    (Product.stock (restock_row done (OrderItem.productId it) p0)
                     + OrderItem.quantity it)) true]]) sh.
Proof.
  intros (Hown & Hload & Hst & Hws & Hmine & Hlast) Hlock Hp0.
  set (k0 := OrderItem.productId it) in *.
  assert (Hid0 : Product.id p0 = k0) by exact (proj2 (find_by_some _ _ _ _ Hp0)).
  assert (Hrow : set_isAvailable
                   (set_stock (restock_row done k0 p0)
                      (Product.stock (restock_row done k0 p0) + OrderItem.quantity it)) true
                 = restock_row (done ++ [it]) k0 p0).
  { unfold restock_row at 3. unfold k0 at 3. rewrite referenced_app_same, returned_app.
    unfold restock_row, set_isAvailable, set_stock.
    cbn [returned fold_right]. fold k0. rewrite Z.eqb_refl.
    destruct (referenced k0 done) eqn:Href;
      cbn [Product.id Product.name Product.price Product.stock].
    - f_equal. lia.
    - rewrite (returned_not_referenced k0 done Href). f_equal. lia. }
  rewrite Hrow.
  assert (Hid : Product.id (restock_row (done ++ [it]) k0 p0) = k0).
  { unfold restock_row. unfold k0 at 1. rewrite referenced_app_same. exact Hid0. }
  split; [exact Hown|]. split; [exact Hload|]. split; [exact Hst|]. split; [|split].
  - apply Forall_app. split.
    + eapply Forall_impl; [|exact Hws]. intros w (p & -> & Href & Hp).
      exists p. split; [reflexivity|].
      split; [apply referenced_app_more; exact Href | exact Hp].
    + constructor; [|constructor]. eexists. split; [reflexivity|]. rewrite Hid.
      split; [apply referenced_app_same | rewrite Hp0; discriminate].
  - intros k Href Hk. destruct (Z.eqb_spec k0 k) as [E|E].
    + subst k. exact Hlock.
    + rewrite (referenced_app_other done it k E) in Href. exact (Hmine k Href Hk).
  - intros k. rewrite last_write_app. cbn [rev app]. unfold find_by at 1. cbn [find].
    rewrite Hid. destruct (Z.eqb_spec k0 k) as [E|E].
    + subst k. unfold k0 at 2. rewrite referenced_app_same, Hp0. reflexivity.
    + rewrite Hlast, (referenced_app_other done it k E).
      destruct (referenced k done); [|reflexivity].
      destruct (find_by Product.id k _); [|reflexivity].
      cbn [option_map]. rewrite (restock_row_app_other done it k _ E). reflexivity.
Qed.

Lemma holds_acquire tid o done ws r (sh : Shared) :
  holds tid o done ws sh -> holds tid o done ws (acquire tid r sh).
Proof.
  intros (Hown & Hload & Hst & Hws & Hmine & Hlast). unfold holds.
  rewrite (proj1 (acquire_tables tid r sh)).
  split; [apply locks_acquire_incl; exact Hown|]. split; [exact Hload|].
  split; [exact Hst|]. split; [exact Hws|]. split; [|exact Hlast].
  intros k Href Hk. apply locks_acquire_incl. exact (Hmine k Href Hk).
Qed.

End Cancels.

Section CancelProceeds.
Context `{JsArith}.
Variable db0 : DB.

Ltac fault Hh Hs lo1 :=
  cbn [handle] in Hh; unfold storage in Hh;
  destruct (hd false (faults lo1));
  [ injection Hh as <- <- <-; split; [exact Hs|]; split; [apply keeps_rows_refl|]; exact I | ].

(** The commit of a cancellation: its order's items leave what is held and
    enter the stock, once. *)
Lemma commit_restocks tid o ws (sh : Shared) :
  restocked_once db0 sh ->
  holds tid o (Order.items o) ws sh ->
  restocked_once db0
    (release_locks tid
       (set_tables sh (apply_writes (tables sh)
                         (ws ++ [W_order (set_status o CANCELLED)])))) /\
  keeps_rows tid sh
    (release_locks tid
       (set_tables sh (apply_writes (tables sh)
                         (ws ++ [W_order (set_status o CANCELLED)])))).
Proof.
  intros (Hl & Hpk & Hok & Hit & Hbal) Hh.
  pose proof (fun k => holds_view tid o _ ws sh k Hh) as Hview.
  destruct (holds_rest tid o _ ws sh Hh) as [Hords Hitems].
  pose proof Hh as (Hown & Hload & Hst & Hws & Hmine & _).
  destruct (load_order_row _ _ _ Hload) as (row & Hrow & _ & Ho).
  set (db' := apply_writes (tables sh) (ws ++ [W_order (set_status o CANCELLED)])).
  assert (Hp' : products db' = products (apply_writes (tables sh) ws)).
  { unfold db'. rewrite apply_writes_app. reflexivity. }
  assert (Ho' : orders db' = upsert Order.id (set_items (set_status o CANCELLED) [])
                                    (orders (tables sh))).
  { unfold db'. rewrite apply_writes_app. cbn [apply_writes fold_left apply_write orders].
    rewrite Hords. reflexivity. }
  assert (Hi' : order_items db' = order_items (tables sh)).
  { unfold db'. rewrite apply_writes_app. cbn [apply_writes fold_left apply_write order_items].
    exact Hitems. }
  assert (Ht : tables (release_locks tid (set_tables sh db')) = db') by reflexivity.
  assert (Hkeys : map Product.id (products db') = map Product.id (products (tables sh))).
  { rewrite Hp'. apply keys_apply_writes. eapply Forall_impl; [|exact Hws].
    intros w (p & -> & _ & Hp). exists p. split; [reflexivity | exact Hp]. }
  assert (Hokeys : map Order.id (orders db') = map Order.id (orders (tables sh))).
  { rewrite Ho'. apply keys_upsert_present. rewrite existsb_find_by.
    cbn [set_items set_status Order.id]. rewrite Hrow. reflexivity. }
  split.
  - split; [apply locks_ok_release; exact Hl|]. rewrite Ht.
    split; [congruence|]. split; [congruence|]. split; [congruence|].
    intros k Hk.
    assert (Hk0 : find_by Product.id k (products (tables sh)) <> None).
    { intros Hn. apply Hk. exact (find_by_keys Product.id k _ _ (eq_sym Hkeys) Hn). }
    rewrite <- (Hbal k Hk0).
    assert (Hheld : held db' k = held (tables sh) k - returned k (Order.items o)).
    { rewrite (load_order_items _ _ _ Hload).
      apply (held_cancelled (tables sh) db' (Order.id o) row
                            (set_items (set_status o CANCELLED) []) k Hrow).
      - rewrite Ho in Hst. exact Hst.
      - reflexivity.
      - reflexivity.
      - exact Ho'.
      - exact Hi'. }
    rewrite Hheld. unfold stock_of. rewrite Hp', Hview.
    destruct (find_by Product.id k (products (tables sh))) as [p0|]; [|contradiction].
    cbn [option_map]. unfold restock_row.
    destruct (referenced k (Order.items o)) eqn:Href; cbn [Product.stock]; [lia|].
    rewrite (returned_not_referenced k _ Href). lia.
  - unfold keeps_rows. rewrite Ht.
    split; [intros r t Hne; rewrite In_release_locks; cbn [locks set_tables]; tauto|].
    split; [|split; [|split; [exact Hkeys | split; [exact Hokeys | exact Hi']]]].
    + intros k t Hne Hheld. rewrite Hp', Hview.
      destruct (find_by Product.id k (products (tables sh))) as [p0|] eqn:Hp0; [|reflexivity].
      cbn [option_map]. unfold restock_row.
      destruct (referenced k (Order.items o)) eqn:Href; [|reflexivity].
      exfalso. apply Hne. apply (Hl (ProductRow k) t tid Hheld).
      apply Hmine; [exact Href | rewrite Hp0; discriminate].
    + intros i t Hne Hheld. rewrite Ho', find_by_upsert. cbn [set_items set_status Order.id].
      destruct (Z.eqb_spec (Order.id o) i) as [E|E]; [|reflexivity].
      exfalso. apply Hne. subst i. exact (Hl _ t tid Hheld Hown).
Qed.

Lemma proceeds_cancel_items tid o rest : forall done sh lo,
  restocking tid o done sh lo ->
  proceeds (restocked_once db0) keeps_rows tid (cancel_items rest)
    (fun _ => restocking tid o (done ++ rest)) anything sh lo.
Proof.
  induction rest as [|it rest IH]; intros done sh lo Hr; cbn [cancel_items].
  - cbn [proceeds]. rewrite app_nil_r. exact Hr.
  - eapply proceeds_bind
      with (Q := fun product sh lo =>
                   match product with
                   | None => restocking tid o (done ++ [it]) sh lo
                   | Some p =>
                       exists p0, restocking_row tid o done it p0 sh lo /\
                                  p = restock_row done (OrderItem.productId it) p0
                   end).
    + apply (proceeds_call _ _ tid _ (restocking tid o done));
        [apply stable_restocking | exact Hr |].
      intros sh1 lo1 r sh' lo' Hs (ws & Hw & Hh) Hb Hh'. fault Hh' Hs lo1.
      unfold view in Hh'. cbn [tick writes] in Hh'. rewrite Hw in Hh'.
      rewrite (holds_view tid o done ws sh1 _ Hh) in Hh'.
      destruct (find_by Product.id (OrderItem.productId it) (products (tables sh1)))
        as [p0|] eqn:Hp0; cbn [option_map] in Hh'; injection Hh' as <- <- <-.
      * split; [apply restocked_once_acquire; exact Hs|].
        split; [apply keeps_rows_acquire|].
        exists p0. split; [|reflexivity]. split; [|split].
        -- exists ws. split; [exact Hw | apply holds_acquire; exact Hh].
        -- apply acquire_owns. exact Hb.
        -- rewrite (proj1 (acquire_tables _ _ _)). exact Hp0.
      * split; [exact Hs|]. split; [apply keeps_rows_refl|].
        exists ws. split; [exact Hw | apply holds_skip; assumption].
    + intros [p|] sh1 lo1 Hq.
      * destruct Hq as (p0 & Hrow & ->). cbv zeta.
        eapply proceeds_bind with (Q := fun _ => restocking tid o (done ++ [it])).
        -- apply (proceeds_call _ _ tid _ (restocking_row tid o done it p0));
             [apply stable_restocking_row | exact Hrow |].
           intros sh2 lo2 r sh' lo' Hs ((ws & Hw & Hh) & Hlock & Hp0) _ Hh'.
           fault Hh' Hs lo2.
           unfold write in Hh'. cbn [tick writes] in Hh'. rewrite Hw in Hh'.
           injection Hh' as <- <- <-.
           split; [exact Hs|]. split; [apply keeps_rows_refl|].
           eexists. split; [reflexivity|].
           exact (holds_restock tid o done ws it p0 sh2 Hh Hlock Hp0).
        -- intros _ sh2 lo2 Hr2.
           replace (done ++ it :: rest) with ((done ++ [it]) ++ rest)
             by (rewrite <- app_assoc; reflexivity).
           apply IH. exact Hr2.
      * replace (done ++ it :: rest) with ((done ++ [it]) ++ rest)
          by (rewrite <- app_assoc; reflexivity).
        apply IH. exact Hq.
Qed.

Lemma proceeds_cancel_transaction tid id sh lo :
  in_tx [] sh lo ->
  proceeds (restocked_once db0) keeps_rows tid (cancel_transaction id)
    anything anything sh lo.
Proof.
  intros Htx. unfold cancel_transaction.
  eapply proceeds_bind with (Q := fun _ => asked tid id).
  { apply (proceeds_call _ _ tid _ (in_tx [])); [apply stable_in_tx' | exact Htx |].
    intros sh1 lo1 r sh' lo' Hs Hw Hb Hh. fault Hh Hs lo1.
    unfold view in Hh. cbn [tick writes] in Hh. unfold in_tx in Hw. rewrite Hw in Hh.
    cbn [apply_writes fold_left] in Hh.
    destruct (find_by Order.id id (orders (tables sh1))) as [row|] eqn:Hrow;
      injection Hh as <- <- <-.
    - split; [apply restocked_once_acquire; exact Hs|]. split; [apply keeps_rows_acquire|].
      split; [exact Hw|]. left. apply acquire_owns. exact Hb.
    - split; [exact Hs|]. split; [apply keeps_rows_refl|].
      split; [exact Hw|]. right. exact Hrow. }
  intros _ sh1 lo1 Hasked.
  eapply proceeds_bind
    with (Q := fun order sh lo =>
                 match order with
                 | None => True
                 | Some o => writes lo = Some [] /\
                             In (OrderRow (Order.id o), tid) (locks sh) /\
                             load_order (tables sh) (Order.id o) = Some o
                 end).
  { apply (proceeds_call _ _ tid _ (asked tid id)); [apply stable_asked | exact Hasked |].
    intros sh2 lo2 r sh' lo' Hs [Hw Hid] _ Hh. fault Hh Hs lo2.
    unfold view in Hh. cbn [tick writes] in Hh. rewrite Hw in Hh.
    cbn [apply_writes fold_left] in Hh. injection Hh as <- <- <-.
    split; [exact Hs|]. split; [apply keeps_rows_refl|].
    destruct (load_order (tables sh2) id) as [o|] eqn:Hload; [|exact I].
    rewrite (load_order_id _ _ _ Hload). split; [exact Hw|]. split; [|exact Hload].
    destruct Hid as [Hown | Hnone]; [exact Hown|].
    unfold load_order in Hload. rewrite Hnone in Hload. discriminate. }
  intros [o|] sh2 lo2 Hq; [|exact I].
  destruct Hq as (Hw & Hown & Hload).
  destruct (status_eqb (Order.status o) PENDING) eqn:Hst; cbn [negb]; [|exact I].
  apply status_eqb_eq in Hst.
  eapply proceeds_bind with (Q := fun _ => restocking tid o (Order.items o)).
  { apply (proceeds_cancel_items tid o (Order.items o) [] sh2 lo2).
    exists []. split; [exact Hw|]. split; [exact Hown|]. split; [exact Hload|].
    split; [exact Hst|]. split; [constructor|]. split; [discriminate | reflexivity]. }
  intros _ sh3 lo3 Hr. cbv zeta.
  eapply proceeds_bind with (Q := fun _ => committing tid o).
  { apply (proceeds_call _ _ tid _ (restocking tid o (Order.items o)));
      [apply stable_restocking | exact Hr |].
    intros sh4 lo4 r sh' lo' Hs (ws & Hw4 & Hh4) _ Hh. fault Hh Hs lo4.
    unfold write in Hh. cbn [tick writes] in Hh. rewrite Hw4 in Hh.
    injection Hh as <- <- <-. split; [exact Hs|]. split; [apply keeps_rows_refl|].
    exists ws. split; [reflexivity | exact Hh4]. }
  intros saved sh4 lo4 Hc.
  eapply proceeds_bind with (Q := anything); [|intros; exact I].
  apply (proceeds_call _ _ tid _ (committing tid o)); [apply stable_committing | exact Hc |].
  intros sh5 lo5 r sh' lo' Hs (ws & Hw5 & Hh5) _ Hh. fault Hh Hs lo5.
  unfold view in Hh. cbn [tick writes] in Hh. rewrite Hw5 in Hh.
  injection Hh as <- <- <-.
  destruct (commit_restocks tid o ws sh5 Hs Hh5) as [Hs' Hg].
  split; [exact Hs'|]. split; [exact Hg | exact I].
Qed.

Lemma proceeds_quiet tid {R} (c : Call R) sh lo :
  (forall sh lo r sh' lo', handle tid c sh lo = (r, sh', lo') ->
     tables sh' = tables sh /\
     (locks sh' = locks sh \/ sh' = release_locks tid sh)) ->
  proceeds (restocked_once db0) keeps_rows tid (call c) anything anything sh lo.
Proof.
  intros Hc. apply (proceeds_call _ _ tid c (fun _ _ => True));
    [apply stable_anything' | exact I |].
  intros sh1 lo1 r sh' lo' Hs _ _ Hh.
  destruct (Hc sh1 lo1 r sh' lo' Hh) as [Ht [Hl | ->]].
  - split; [exact (restocked_once_same db0 sh1 sh' Ht Hl Hs)|].
    split; [exact (keeps_rows_same tid sh1 sh' Ht Hl) | destruct r; exact I].
  - split; [apply restocked_once_release; exact Hs|].
    split; [apply keeps_rows_release | destruct r; exact I].
Qed.

Lemma proceeds_release tid sh lo :
  proceeds (restocked_once db0) keeps_rows tid (call release) anything anything sh lo.
Proof.
  apply proceeds_quiet. intros sh1 lo1 r sh' lo' Hh.
  answered Hh; (split; [reflexivity | left; reflexivity]).
Qed.

(** Every call of [cancel] restocks at most once and leaves the other
    requests' rows and locks as they are. *)
Lemma cancel_proceeds tid id sh lo :
  proceeds (restocked_once db0) keeps_rows tid (cancel id) anything anything sh lo.
Proof.
  unfold cancel.
  eapply proceeds_bind with (Q := anything).
  { apply proceeds_quiet. intros sh1 lo1 r sh' lo' Hh.
    answered Hh; (split; [reflexivity | left; reflexivity]). }
  intros _ sh1 lo1 _.
  eapply proceeds_bind with (Q := fun _ => in_tx []).
  { apply (proceeds_call _ _ tid _ (fun _ _ => True)); [apply stable_anything' | exact I |].
    intros sh2 lo2 r sh' lo' Hs _ _ Hh. fault Hh Hs lo2. injection Hh as <- <- <-.
    split; [exact Hs|]. split; [apply keeps_rows_refl | reflexivity]. }
  intros _ sh2 lo2 Htx.
  unfold try_finally. eapply proceeds_bind with (Q := anything).
  - eapply proceeds_try_catch with (E := anything).
    + eapply proceeds_try_catch with (E := anything).
      * apply proceeds_cancel_transaction. exact Htx.
      * intros e sh3 lo3 _.
        eapply proceeds_bind with (Q := anything).
        { apply proceeds_quiet. intros sh4 lo4 r sh' lo' Hh. cbn [handle] in Hh.
          inversion Hh; subst. split; [reflexivity | right; reflexivity]. }
        intros _ sh4 lo4 _.
        eapply proceeds_bind with (Q := anything).
        { apply proceeds_quiet. intros sh5 lo5 r sh' lo' Hh. cbn [handle] in Hh.
          injection Hh as <- <- <-. split; [reflexivity | left; reflexivity]. }
        intros _ sh5 lo5 _. destruct (instanceof_HttpException e); exact I.
    + intros e sh3 lo3 _. eapply proceeds_bind with (Q := anything); [|intros; exact I].
      apply proceeds_release.
  - intros a sh3 lo3 _. eapply proceeds_bind with (Q := anything); [|intros; exact I].
    apply proceeds_release.
Qed.

End CancelProceeds.

Lemma cancelling_all_proceed `{JsArith} (sh0 : Shared) reqs :
  locks sh0 = [] ->
  all_proceed (restocked_once (tables sh0)) keeps_rows (sh0, cancelling reqs).
Proof.
  intros Hl. split.
  - cbn [fst]. split; [|repeat split].
    intros r t t' Hin. rewrite Hl in Hin. destruct Hin.
  - cbn [fst snd]. intros tid q Hq. unfold cancelling in Hq.
    apply nth_error_In in Hq. apply in_map_iff in Hq. destruct Hq as (r & <- & _).
    cbn [program local]. apply cancel_proceeds.
Qed.

(** * Further properties of the service *)

Lemma create_two_widgets : exec (create two_widgets) [] shop = (inr order1, sold).
Proof. vm_compute. reflexivity. Qed.

Lemma order_then_cancel_runs :
  run_schedule order_then_cancel order_and_cancel = Some after_order_then_cancel.
Proof. vm_compute. reflexivity. Qed.

(** X4.  Cancelling an order that [create] has just made undoes what
    [create] did to the products: every product is found as it was before
    the order (stock and availability), and the product table is the one
    before the order when its ids are distinct.  The order stays, CANCELLED,
    with its items. *)
Theorem create_then_cancel_restores (A : JsArith) dto fs (sh : Shared) o sh1 :
  fk_ok (tables sh) = true ->
  exec (create dto) fs sh = (inr o, sh1) ->
  exists sh2,
    exec (cancel (Order.id o)) [] sh1 = (inr (set_status o CANCELLED), sh2) /\
    load_order (tables sh2) (Order.id o) = Some (set_status o CANCELLED) /\
    (forall k, find_by Product.id k (products (tables sh2))
               = find_by Product.id k (products (tables sh))) /\
    (NoDup (map Product.id (products (tables sh))) ->
     products (tables sh2) = products (tables sh)).
Proof.
  intros Hfk Hex.
  destruct (exec_create_order dto fs sh o sh1 Hex) as (id & t & new & Hall & Ho).
  pose proof (load_order_all_committed _ _ _ _ _ _ Hall) as Hload. rewrite <- Ho in Hload.
  assert (Hid : Order.id o = id) by (rewrite Ho; reflexivity).
  assert (Hst : Order.status o = PENDING) by (rewrite Ho; reflexivity).
  rewrite <- Hid in Hload.
  destruct (exec_cancel_pending sh1 (Order.id o) o Hload Hst)
    as (sh2 & Hcancel & Hload2 & _ & Hkeys & Hrows).
  exists sh2. split; [exact Hcancel|]. split; [exact Hload2|].
  destruct Hall as (_ & _ & Hfresh & Hitems & Hnew & _ & Hkeys1 & Hrows1).
  assert (Hmine : Order.items o = new).
  { rewrite Ho. cbn [Order.items].
    apply (items_of_new (tables sh) (tables sh1) id new Hfk Hfresh Hitems).
    apply (item_of_line_orderId _ _ _ _ Hnew). }
  assert (Hsame : forall k, find_by Product.id k (products (tables sh2))
                            = find_by Product.id k (products (tables sh))).
  { intros k. rewrite Hrows, Hrows1, Hmine.
    destruct (items_of_lines _ _ _ _ k Hnew) as [Hret Href].
    destruct (find_by Product.id k (products (tables sh))) as [p0|] eqn:Hp0; [|reflexivity].
    cbn [option_map]. f_equal. unfold restock_row, reserve_row. rewrite Href.
    destruct (mentions k (CreateOrderDto.items dto)) eqn:Hm; [|reflexivity].
    rewrite Hret. unfold after_reserve.
    cbn [Product.id Product.name Product.price Product.stock].
    assert (Hav : Product.isAvailable p0 = true).
    { destruct (exec_create dto fs sh _ _ Hex) as [_ [[Hc _] | Hout]]; [discriminate|].
      destruct (create_outcome sh dto) as [[e|id'] db'] eqn:Hco;
        [destruct Hout; discriminate|].
      destruct (create_outcome_available sh dto id' db' k Hco Hm) as (p1 & Hp1 & Hav).
      congruence. }
    destruct p0 as [pid name price stock av]. cbn in *. subst av. f_equal. lia. }
  split; [exact Hsame|].
  intros Hnd. apply same_rows; [exact Hnd | congruence | exact Hsame].
Qed.

Lemma create_then_cancel_restores_witness :
  exists sh2,
    exec (cancel 1) [] sold = (inr (set_status order1 CANCELLED), sh2) /\
    products (tables sh2) = products (tables shop).
Proof.
  destruct (create_then_cancel_restores ieee754 two_widgets [] shop order1 sold)
    as (sh2 & Hcancel & _ & _ & Hsame).
  - reflexivity.
  - exact create_two_widgets.
  - exists sh2. split; [exact Hcancel|]. apply Hsame.
    constructor; [intros [] | constructor].
Defined.

(** X5.  CANCELLED is final: whatever calls of [create], [cancel] and
    [updateStatus] follow, with whatever arguments and faults, an order that
    is CANCELLED keeps its row (status, total, owner) and its items. *)
Theorem cancelled_is_final (A : JsArith) (sh sh' : Shared) id row :
  service_calls sh sh' ->
  find_by Order.id id (orders (tables sh)) = Some row ->
  Order.status row = CANCELLED ->
  find_by Order.id id (orders (tables sh')) = Some row /\
  items_of (tables sh') id = items_of (tables sh) id.
Proof.
  intros Hcalls Hrow Hst. change (kept id row (tables sh) (tables sh')).
  induction Hcalls as [sh | sh sh1 sh2 _ IH Hcall]; [apply kept_refl; exact Hrow|].
  specialize (IH Hrow). apply (kept_trans id row _ (tables sh1)); [exact IH|].
  destruct IH as [Hrow1 _].
  destruct Hcall as [dto fs sh1 | id' fs sh1 | id' status fs sh1].
  - apply create_keeps. exact Hrow1.
  - apply cancel_keeps; assumption.
  - apply updateStatus_keeps; assumption.
Qed.

Lemma cancelled_is_final_witness :
  find_by Order.id 1
    (orders (tables (snd (exec (create two_widgets) []
                            (snd (exec (updateStatus 1 PENDING) [] refunded))))))
  = Some (@Order.mk ieee754 1 1 19.98%float CANCELLED []).
Proof.
  apply (cancelled_is_final ieee754 refunded).
  - eapply more_calls; [eapply more_calls; [apply no_call|]|].
    + apply (does_updateStatus 1 PENDING []).
    + apply (does_create two_widgets []).
  - vm_compute. reflexivity.
  - reflexivity.
Defined.

(** X6.  [updateStatus] asks nothing of the status an order has but that it
    is not CANCELLED, and nothing of the new one: an order can be given any
    status and then be made PENDING again, and then be cancelled, which
    restocks its items. *)
Theorem status_is_freely_rewritten (A : JsArith) id status (sh : Shared) o :
  status <> CANCELLED ->
  load_order (tables sh) id = Some o ->
  Order.status o <> CANCELLED ->
  exists sh1 sh2 sh3,
    exec (updateStatus id status) [] sh = (inr (set_status o status), sh1) /\
    exec (updateStatus id PENDING) [] sh1 = (inr (set_status o PENDING), sh2) /\
    exec (cancel id) [] sh2 = (inr (set_status o CANCELLED), sh3) /\
    forall k, find_by Product.id k (products (tables sh3)) =
              option_map (restock_row (Order.items o) k)
                         (find_by Product.id k (products (tables sh))).
Proof.
  intros Hst Hload Hcur.
  destruct (exec_updateStatus_ok id status sh o Hst Hload Hcur)
    as (sh1 & Hex1 & Hload1 & Hp1 & _).
  assert (Hcur1 : Order.status (set_status o status) <> CANCELLED) by exact Hst.
  assert (Hpend : PENDING <> CANCELLED) by discriminate.
  destruct (exec_updateStatus_ok id PENDING sh1 _ Hpend Hload1 Hcur1)
    as (sh2 & Hex2 & Hload2 & Hp2 & _).
  destruct (exec_cancel_pending sh2 id _ Hload2 eq_refl) as (sh3 & Hex3 & _ & _ & _ & Hrows).
  exists sh1, sh2, sh3. split; [exact Hex1|]. split; [exact Hex2|].
  split; [exact Hex3|]. intros k. rewrite Hrows, Hp2, Hp1. reflexivity.
Qed.

Lemma status_is_freely_rewritten_witness :
  exists sh1 sh2 sh3,
    exec (updateStatus 1 shipped_label) [] sold = (inr (set_status order1 shipped_label), sh1) /\
    exec (updateStatus 1 PENDING) [] sh1 = (inr order1, sh2) /\
    exec (cancel 1) [] sh2 = (inr (set_status order1 CANCELLED), sh3) /\
    find_by Product.id 10 (products (tables sh3))
      = Some (@Product.mk ieee754 10 "Widget" 9.99%float 5 true).
Proof.
  destruct (status_is_freely_rewritten ieee754 1 shipped_label sold order1)
    as (sh1 & sh2 & sh3 & H1 & H2 & H3 & Hrows).
  - discriminate.
  - vm_compute. reflexivity.
  - discriminate.
  - exists sh1, sh2, sh3. split; [exact H1|]. split; [exact H2|]. split; [exact H3|].
    rewrite Hrows. vm_compute. reflexivity.
Defined.

(** X7.  An order made from a request that passed the DTO layer's checks
    has an item for every line, at least one, each of quantity 1 or more,
    and every product the request names is left with less stock than it
    had: what it had less what the request asks of it. *)
Theorem validated_order_takes_stock (A : JsArith) dto fs (sh : Shared) o sh' :
  dto_valid dto = true ->
  fk_ok (tables sh) = true ->
  exec (create dto) fs sh = (inr o, sh') ->
  Order.items o <> [] /\
  List.length (Order.items o) = List.length (CreateOrderDto.items dto) /\
  Forall (fun it => 1 <= OrderItem.quantity it) (Order.items o) /\
  forall k, mentions k (CreateOrderDto.items dto) = true ->
    exists p0 p',
      find_by Product.id k (products (tables sh)) = Some p0 /\
      find_by Product.id k (products (tables sh')) = Some p' /\
      Product.stock p' = Product.stock p0 - reserved k (CreateOrderDto.items dto) /\
      Product.stock p' < Product.stock p0.
Proof.
  intros Hv Hfk Hex. destruct (dto_valid_lines dto Hv) as [Hne Hq].
  destruct (exec_create_order dto fs sh o sh' Hex) as (id & t & new & Hall & ->).
  pose proof Hall as (_ & _ & Hfresh & Hitems & Hnew & _ & _ & Hrows).
  cbn [Order.items].
  rewrite (items_of_new (tables sh) (tables sh') id new Hfk Hfresh Hitems
             (item_of_line_orderId _ _ _ _ Hnew)).
  pose proof (Forall2_length Hnew) as Hlen.
  split; [|split; [|split]].
  - intros E. rewrite E in Hlen. apply Hne. apply length_zero_iff_nil. exact Hlen.
  - symmetry. exact Hlen.
  - clear -Hnew Hq. induction Hnew as [|l it lines new (_ & _ & Hqty & _) _ IH];
      constructor.
    + rewrite Hqty. apply Hq. left. reflexivity.
    + apply IH. intros l' Hin. apply Hq. right. exact Hin.
  - intros k Hk.
    destruct (exec_create dto fs sh _ _ Hex) as [_ [[Hc _] | Hout]]; [discriminate|].
    destruct (create_outcome sh dto) as [[e|id'] db'] eqn:Hco;
      [destruct Hout; discriminate|].
    destruct (create_outcome_available sh dto id' db' k Hco Hk) as (p0 & Hp0 & _).
    exists p0, (reserve_row (CreateOrderDto.items dto) k p0).
    split; [exact Hp0|]. split; [rewrite Hrows, Hp0; reflexivity|].
    unfold reserve_row. rewrite Hk. cbn [after_reserve Product.stock].
    pose proof (reserved_positive k _ Hq Hk). split; lia.
Qed.

Lemma validated_order_takes_stock_witness :
  Order.items order1 <> [] /\
  exists p',
    find_by Product.id 10 (products (tables sold)) = Some p' /\ Product.stock p' = 3.
Proof.
  destruct (validated_order_takes_stock ieee754 two_widgets [] shop order1 sold)
    as (Hne & _ & _ & Hstock).
  - reflexivity.
  - reflexivity.
  - exact create_two_widgets.
  - split; [exact Hne|].
    destruct (Hstock 10 eq_refl) as (p0 & p' & Hp0 & Hp' & Heq & _).
    exists p'. split; [exact Hp'|].
    assert (E : p0 = widget) by (vm_compute in Hp0; inversion Hp0; reflexivity).
    rewrite Heq, E. reflexivity.
Defined.

(** X8.  I2 under concurrency: whatever calls of [create] (of requests that
    passed the DTO layer's checks), [cancel] and [updateStatus] are in
    flight together, however their awaited calls interleave and whatever
    faults the storage layer has, every product row in the tables has a
    stock that is not negative and an [isAvailable] flag that says whether
    it is positive, after every call. *)
Theorem engine_keeps_I2_concurrently (A : JsArith) (sh0 : Shared) reqs n (c : Config) :
  stock_ok (tables sh0) -> items_ok (tables sh0) ->
  forallb (fun r => accepted (fst r)) reqs = true ->
  steps n (sh0, serving reqs) c ->
  Forall (fun p => 0 <= Product.stock p /\ Product.isAvailable p = (Product.stock p >? 0))
         (products (tables (fst c))) /\
  Forall (fun it => 1 <= OrderItem.quantity it) (order_items (tables (fst c))).
Proof.
  intros Hs Hi Hok Hsteps.
  assert (Hinit : all_neat (sh0, serving reqs)).
  { split; [split; assumption|]. cbn [fst snd]. unfold serving.
    apply Forall_forall. intros q Hin. apply in_map_iff in Hin.
    destruct Hin as (r & <- & Hin). cbn [local program]. split; [exact I|].
    apply neat_body. rewrite forallb_forall in Hok. exact (Hok r Hin). }
  destruct (steps_all_neat n _ _ Hsteps Hinit) as [[Hs' Hi'] _].
  split; [exact Hs' | exact Hi'].
Qed.

Lemma engine_keeps_I2_concurrently_witness :
  steps 20 order_and_cancel after_order_then_cancel /\
  map Product.stock (products (tables (fst after_order_then_cancel))) = [1] /\
  Forall (fun p => 0 <= Product.stock p /\ Product.isAvailable p = (Product.stock p >? 0))
         (products (tables (fst after_order_then_cancel))).
Proof.
  pose proof (run_schedule_steps _ _ _ order_then_cancel_runs) as Hsteps.
  change (List.length order_then_cancel) with 20%nat in Hsteps.
  split; [exact Hsteps|]. split; [vm_compute; reflexivity|].
  apply (engine_keeps_I2_concurrently ieee754 one_left
           [(Create (one_widget_for 1), []); (Cancel 1, [])] 20 after_order_then_cancel).
  - constructor; [split; [cbn; lia | reflexivity] | constructor].
  - constructor.
  - reflexivity.
  - exact Hsteps.
Defined.

(** X9.  [updateStatus] reads the order and writes it back without a lock
    or a transaction, so a cancellation that runs between its read and its
    write is lost: the cancel answers the order CANCELLED and restocks its
    items, and the update then writes the order back with the requested
    status.  When that status is PENDING, the order can be cancelled again,
    and its items are restocked a second time. *)
Theorem status_update_undoes_cancel (A : JsArith) (sh : Shared) id o status :
  locks sh = [] ->
  load_order (tables sh) id = Some o ->
  Order.status o = PENDING ->
  status <> CANCELLED ->
  exists n c,
    steps n (sh, cancel_and_update id status) c /\
    map outcome (snd c)
      = [Some (inr (set_status o CANCELLED)); Some (inr (set_status o status))] /\
    load_order (tables (fst c)) id = Some (set_status o status) /\
    (forall k, find_by Product.id k (products (tables (fst c))) =
               option_map (restock_row (Order.items o) k)
                          (find_by Product.id k (products (tables sh)))) /\
    (status = PENDING ->
     exists sh',
       exec (cancel id) [] (fst c) = (inr (set_status o CANCELLED), sh') /\
       forall k, find_by Product.id k (products (tables sh')) =
                 option_map (fun p => restock_row (Order.items o) k
                                        (restock_row (Order.items o) k p))
                            (find_by Product.id k (products (tables sh)))).
Proof.
  intros Hlocks Hload Hpending Hst.
  destruct (exec_cancel_pending sh id o Hload Hpending)
    as (sh2 & Hex & Hload2 & _ & _ & Hrows).
  unfold exec in Hex.
  destruct (run 0 (cancel id) sh (fresh [])) as [[r2 sh2'] lo2] eqn:Hrun.
  injection Hex as -> ->.
  set (save := call (repository_save (set_status o status))).
  set (q1 := mkRequest save (tick (fresh []))).
  (* the update reads *)
  assert (H1 : step (sh, cancel_and_update id status)
                    (sh, [mkRequest (cancel id) (fresh []); q1])).
  { unfold cancel_and_update, serving. cbn [map fst snd body].
    assert (Hprog : exists k, updateStatus id status = Vis (repository_findOne id) k /\
                              k (inr (Some o)) = save).
    { unfold updateStatus, findOne. rewrite (status_neq _ Hst). unfold call. cbn [bind].
      eexists. split; [reflexivity|]. cbn [bind]. rewrite Hpending. reflexivity. }
    destruct Hprog as (k & Hk & Hko). unfold q1. rewrite <- Hko.
    apply (step_at 1%nat sh _ (mkRequest (updateStatus id status) (fresh []))
                   (repository_findOne id) k (inr (Some o)) sh (tick (fresh []))).
    - reflexivity.
    - exact Hk.
    - reflexivity.
    - cbn [handle]. unfold storage. cbn [fresh faults hd local]. rewrite Hload. reflexivity.
    - reflexivity. }
  (* the cancellation runs to its end *)
  destruct (solo_steps 0%nat (cancel id) sh (fresh [])
              [mkRequest (cancel id) (fresh []); q1] _ _ _
              ltac:(cbn; lia) ltac:(rewrite Hlocks; intros x t [])
              Hrun) as (n & H2 & _).
  cbn [replace_nth lift] in H2.
  (* the update writes *)
  set (sh3 := set_tables sh2 (apply_write (tables sh2) (W_order (set_status o status)))).
  assert (H3 : step (sh2, [mkRequest (Ret (set_status o CANCELLED)) lo2; q1])
                    (sh3, [mkRequest (Ret (set_status o CANCELLED)) lo2;
                           mkRequest (Ret (set_status o status)) (tick (tick (fresh [])))])).
  { apply (step_at 1%nat sh2 _ q1 (repository_save (set_status o status))
                   (fun r => match r with inl e => Throw e | inr v => Ret v end)
                   (inr (set_status o status)) sh3 (tick (tick (fresh [])))).
    - reflexivity.
    - reflexivity.
    - reflexivity.
    - reflexivity.
    - reflexivity. }
  assert (Hload3 : load_order (tables sh3) id = Some (set_status o status)).
  { unfold sh3. cbn [tables set_tables].
    rewrite <- (with_products_same (tables sh2)) at 1.
    exact (load_order_saved (tables sh2) (products (tables sh2)) id _ status Hload2). }
  exists (1 + (n + 1))%nat. eexists.
  split.
  { eapply (steps_trans 1); [econstructor; [exact H1 | constructor]|].
    eapply steps_trans; [exact H2|]. econstructor; [exact H3 | constructor]. }
  cbn [fst snd map outcome program].
  split; [reflexivity|]. split; [exact Hload3|]. split; [exact Hrows|].
  intros ->.
  destruct (exec_cancel_pending sh3 id _ Hload3 eq_refl) as (sh4 & Hex4 & _ & _ & _ & Hrows4).
  exists sh4. split; [exact Hex4|]. intros k. rewrite Hrows4.
  change (products (tables sh3)) with (products (tables sh2)). rewrite Hrows.
  destruct (find_by Product.id k (products (tables sh))); reflexivity.
Qed.

Lemma status_update_undoes_cancel_witness :
  exists n c,
    steps n (sold, cancel_and_update 1 PENDING) c /\
    map outcome (snd c) = [Some (inr (set_status order1 CANCELLED)); Some (inr order1)] /\
    load_order (tables (fst c)) 1 = Some order1 /\
    find_by Product.id 10 (products (tables (fst c)))
      = Some (@Product.mk ieee754 10 "Widget" 9.99%float 5 true) /\
    exists sh',
      exec (cancel 1) [] (fst c) = (inr (set_status order1 CANCELLED), sh') /\
      find_by Product.id 10 (products (tables sh'))
        = Some (@Product.mk ieee754 10 "Widget" 9.99%float 7 true).
Proof.
  destruct (status_update_undoes_cancel ieee754 sold 1 order1 PENDING)
    as (n & c & Hsteps & Hout & Hload & Hrows & Hagain).
  - reflexivity.
  - vm_compute. reflexivity.
  - reflexivity.
  - discriminate.
  - exists n, c. split; [exact Hsteps|]. split; [exact Hout|]. split; [exact Hload|].
    split; [rewrite Hrows; vm_compute; reflexivity|].
    destruct (Hagain eq_refl) as (sh' & Hex & Hrows'). exists sh'. split; [exact Hex|].
    rewrite Hrows'. vm_compute. reflexivity.
Defined.

(** X10.  [create] locks the products of a request in the order of its
    lines, whatever their ids.  So two requests that name two products in
    opposite orders can each take the lock the other needs next: from any
    tables in which the users and the products are there, available and in
    sufficient stock, ten calls lead to a state in which neither request has
    an answer and neither can take a call. *)
Theorem create_lock_order_deadlocks (A : JsArith) (sh : Shared)
    u1 u2 a b qa qb qb' qa' user1 user2 pa pb :
  locks sh = [] ->
  find_by User.id u1 (users (tables sh)) = Some user1 ->
  find_by User.id u2 (users (tables sh)) = Some user2 ->
  a <> b ->
  find_by Product.id a (products (tables sh)) = Some pa ->
  find_by Product.id b (products (tables sh)) = Some pb ->
  Product.isAvailable pa = true -> Product.isAvailable pb = true ->
  qa <= Product.stock pa -> qb' <= Product.stock pb ->
  exists c,
    steps 10 (sh, crossing u1 u2 a b qa qb qb' qa') c /\
    stuck c /\
    map outcome (snd c) = [None; None] /\
    locks (fst c) = [(ProductRow a, 0%nat); (ProductRow b, 1%nat)] /\
    tables (fst c) = tables sh.
Proof.
  intros Hl Hu1 Hu2 Hab Ha Hb Hava Havb Hqa Hqb.
  destruct (create_first_lock 0%nat sh u1 a b qa qb user1 pa Hu1 Ha Hava Hqa Hab)
    as (k0 & sh1 & lo0 & Ht0 & Htab1 & Hl1).
  { intros t Hin. rewrite Hl in Hin. destruct Hin. }
  rewrite Hl in Hl1. cbn [app] in Hl1.
  destruct (create_first_lock 1%nat sh1 u2 b a qb' qa' user2 pb) as (k1 & sh2 & lo1 & Ht1 & Htab2 & Hl2).
  { rewrite Htab1. exact Hu2. }
  { rewrite Htab1. exact Hb. }
  { exact Havb. }
  { exact Hqb. }
  { congruence. }
  { intros t Hin. rewrite Hl1 in Hin. destruct Hin as [[= E _] | []]. contradiction. }
  rewrite Hl1 in Hl2. cbn [app] in Hl2.
  set (q1 := mkRequest
               (create (CreateOrderDto.mk u2 [OrderItemDto.mk b qb'; OrderItemDto.mk a qa']))
               (fresh [])).
  pose proof (takes_steps 0%nat 5 _ _ _ _ _ _
                [mkRequest (Ret (Order.mk 0 0 (of_int 0) PENDING [])) (fresh []); q1]
                ltac:(cbn; lia) Ht0) as H0.
  pose proof (takes_steps 1%nat 5 _ _ _ _ _ _
                [mkRequest (Vis (manager_findOne_Product_locked b) k0) lo0; q1]
                ltac:(cbn; lia) Ht1) as H1.
  cbn [replace_nth] in H0, H1.
  eexists. split; [exact (steps_trans 5 5 _ _ _ H0 H1)|].
  split; [|split; [reflexivity | split; [exact Hl2 | cbn [fst]; congruence]]].
  apply successors_stuck. unfold successors, advance.
  cbn [snd fst List.length seq flat_map nth_error program blocked]. rewrite Hl2.
  unfold held_by_other. cbn [existsb fst snd RowRef_eqb Nat.eqb negb].
  rewrite !Z.eqb_refl. destruct (Z.eqb_spec a b); [contradiction|].
  destruct (Z.eqb_spec b a); [congruence|]. reflexivity.
Qed.

Lemma create_lock_order_deadlocks_witness :
  exists c,
    steps 10 (two_shelves, crossing 1 2 10 20 1 1 1 1) c /\
    stuck c /\ map outcome (snd c) = [None; None].
Proof.
  destruct (create_lock_order_deadlocks ieee754 two_shelves 1 2 10 20 1 1 1 1
              (User.mk 1) (User.mk 2)
              (@Product.mk ieee754 10 "Widget" 9.99%float 2 true)
              (@Product.mk ieee754 20 "Gadget" 4.5%float 2 true))
    as (c & Hsteps & Hstuck & Hout & _); try reflexivity; try discriminate;
    try (cbn; lia).
  exists c. split; [exact Hsteps|]. split; [exact Hstuck | exact Hout].
Defined.

(** X11.  Cancellations in flight together restock at most once: whatever
    [cancel] requests are sent together (any number, any ids, the same id
    more than once, any faults of the storage layer), however their awaited
    calls interleave, after every call no row has been added or removed and,
    for every product that has a row, the stock and the units that the items
    of PENDING orders hold add up to what they were. *)
Theorem concurrent_cancels_restock_once (A : JsArith) (sh0 : Shared) reqs n (c : Config) :
  locks sh0 = [] ->
  steps n (sh0, cancelling reqs) c ->
  map Product.id (products (tables (fst c))) = map Product.id (products (tables sh0)) /\
  map Order.id (orders (tables (fst c))) = map Order.id (orders (tables sh0)) /\
  order_items (tables (fst c)) = order_items (tables sh0) /\
  forall k, find_by Product.id k (products (tables sh0)) <> None ->
    stock_of (tables (fst c)) k + held (tables (fst c)) k
      = stock_of (tables sh0) k + held (tables sh0) k.
Proof.
  intros Hl Hsteps.
  pose proof (steps_all_proceed _ _ n _ _ Hsteps (cancelling_all_proceed sh0 reqs Hl))
    as [(_ & Hpk & Hok & Hit & Hbal) _].
  split; [exact Hpk|]. split; [exact Hok|]. split; [exact Hit|].
  intros k Hk. apply Hbal. intros Hn. apply Hk.
  exact (find_by_keys Product.id k _ _ Hpk Hn).
Qed.

Lemma crossed_cancels_run : run_schedule crossed_cancels cancel_twice = Some after_crossed_cancels.
Proof. vm_compute. reflexivity. Qed.

Lemma concurrent_cancels_restock_once_witness :
  steps 16 cancel_twice after_crossed_cancels /\
  stock_of (tables sold) 10 = 3 /\ held (tables sold) 10 = 2 /\
  stock_of (tables (fst after_crossed_cancels)) 10 = 5 /\
  stock_of (tables (fst after_crossed_cancels)) 10
    + held (tables (fst after_crossed_cancels)) 10
  = stock_of (tables sold) 10 + held (tables sold) 10.
Proof.
  pose proof (run_schedule_steps _ _ _ crossed_cancels_run) as Hsteps.
  change (List.length crossed_cancels) with 16%nat in Hsteps.
  split; [exact Hsteps|].
  split; [vm_compute; reflexivity|]. split; [vm_compute; reflexivity|].
  split; [vm_compute; reflexivity|].
  apply (concurrent_cancels_restock_once ieee754 sold [(1, []); (1, [])] 16
           after_crossed_cancels).
  - reflexivity.
  - exact Hsteps.
  - vm_compute. discriminate.
Defined.
